(** * Airline check-in: seat allocation engine

    A model of [src/services/checkinService.ts], of the handlers of
    [src/app.ts] and of the statistics of [tests/loadTest.cjs], over the
    tables of the Prisma migrations ([seats], [bookings], [flights]).

    The service functions are written once, as programs over the Prisma
    calls they [await].  Three semantics run such programs:
    - [run_env]: statements issued on the shared client, each committed on
      its own, with the other requests' effects arriving between them;
    - [exec]: one call run alone, [prisma.$transaction] rolling back on a
      thrown error;
    - [Conc.step]: interleaved interactive transactions, one statement at
      a time, as PostgreSQL runs them at READ COMMITTED: a transaction
      reads the committed rows with its own writes on top, holds the locks
      of the rows it selected [FOR UPDATE] or wrote until it ends, and
      [SKIP LOCKED] passes over rows that another transaction holds.

    The handlers of [app.ts] are functions from the request and the
    store to the reply and the store, over [exec]; calls of the unsafe
    policy in flight together are threads of [Auto.step], one statement of
    one request at a time on the shared client.

    What the model leaves out: time (the random delay is a point where
    other requests run, its length plays no part), connection limits and
    the time-outs of the client library, the columns the allocation code
    never reads, and values that the columns cannot hold: ids are integers
    without bound here, and a flight selector outside the 32 bits of the
    [flightId] column, for which the client throws, is excluded where it
    matters by the hypothesis [fits].  Seat numbers are ordered by code
    point. *)

From Stdlib Require Import ZArith.
From stdpp Require Import base tactics option list sorting numbers strings pretty gmap.

Local Open Scope Z_scope.

(** ** Tables *)

(** Row of [seats].  [seatType], [price] and the timestamps are never read
    by the allocation code and are left out. *)
Record Seat := mkSeat {
  seat_id : Z;
  seat_flightId : Z;
  seatNumber : string;
  isAvailable : bool;
}.

(** Row of [bookings]; [seatId] is nullable. *)
Record Booking := mkBooking {
  pnr : string;
  booking_flightId : Z;
  seatId : option Z;
  checkedIn : bool;
}.

(** Row of [flights]. *)
Record Flight := mkFlight {
  flight_id : Z;
  flightNumber : string;
  totalSeats : Z;
}.

Record DB := mkDB {
  flights : list Flight;
  seats : list Seat;
  bookings : list Booking;
}.

Global Instance Seat_eq_dec : EqDecision Seat.
Proof. solve_decision. Defined.
Global Instance Booking_eq_dec : EqDecision Booking.
Proof. solve_decision. Defined.
Global Instance Flight_eq_dec : EqDecision Flight.
Proof. solve_decision. Defined.
Global Instance DB_eq_dec : EqDecision DB.
Proof. solve_decision. Defined.

(** ** Errors *)

(** What the code throws ([new Error(...)]) and what Prisma throws for a
    rejected write. *)
Inductive Err :=
| InvalidPNR            (* "Invalid PNR" *)
| NoSeatsAvailable      (* unsafe: "No seats available on this flight" *)
| NoSeatsOrLocked       (* safe: "No seats available on this flight or all
                           seats are being processed" *)
| AllAttemptsFailed     (* "Unable to assign any seat - all attempts failed
                           due to concurrent access" *)
| FlightNotFound        (* "Flight not found" *)
| RecordNotFound        (* Prisma P2025: no row matches the [where] *)
| UniqueConstraintFailed (* Prisma P2002: [bookings_seatId_key] *).

Global Instance Err_eq_dec : EqDecision Err.
Proof. solve_decision. Defined.

(** [error.message].  For the five errors that the code throws this is the
    text of the [new Error(...)].  For the two errors of the client it is
    the sentence with which the client states the cause; the client's
    message begins with lines that name the invocation and its wording
    changes with its version, so that nothing below is said of these two
    texts beyond the key words that the handlers look for in them. *)
Definition message (e : Err) : string :=
  match e with
  | InvalidPNR => "Invalid PNR"
  | NoSeatsAvailable => "No seats available on this flight"
  | NoSeatsOrLocked =>
      "No seats available on this flight or all seats are being processed"
  | AllAttemptsFailed =>
      "Unable to assign any seat - all attempts failed due to concurrent access"
  | FlightNotFound => "Flight not found"
  | RecordNotFound => "Record to update not found"
  | UniqueConstraintFailed => "Unique constraint failed on the fields: (`seatId`)"
  end.

(** The error kinds of the design. *)
Inductive Kind :=
| UnknownRequester | PoolExhausted | ExhaustedCandidates
| StorageConstraintViolation | OtherKind.

Global Instance Kind_eq_dec : EqDecision Kind.
Proof. solve_decision. Defined.

Definition kind (e : Err) : Kind :=
  match e with
  | InvalidPNR => UnknownRequester
  | NoSeatsAvailable | NoSeatsOrLocked => PoolExhausted
  | AllAttemptsFailed => ExhaustedCandidates
  | UniqueConstraintFailed => StorageConstraintViolation
  | FlightNotFound | RecordNotFound => OtherKind
  end.

(** ** Prisma calls as functions on the tables *)

Definition set_available (b : bool) (s : Seat) : Seat :=
  mkSeat (seat_id s) (seat_flightId s) (seatNumber s) b.

Definition set_binding (sid : option Z) (ci : bool) (b : Booking) : Booking :=
  mkBooking (pnr b) (booking_flightId b) sid ci.

Definition with_seats (f : list Seat → list Seat) (db : DB) : DB :=
  mkDB (flights db) (f (seats db)) (bookings db).

Definition with_bookings (f : list Booking → list Booking) (db : DB) : DB :=
  mkDB (flights db) (seats db) (f (bookings db)).

(** [orderBy: { seatNumber: "asc" }] on a TEXT column: code-point order. *)
Definition seat_le (s1 s2 : Seat) : Prop :=
  String.le (seatNumber s1) (seatNumber s2).

Global Instance seat_le_dec : RelDecision seat_le.
Proof. intros s1 s2. unfold seat_le. apply _. Defined.

(** [where: { flightId, isAvailable: true }] *)
Definition open_on (fid : Z) (s : Seat) : Prop :=
  seat_flightId s = fid ∧ isAvailable s = true.

Global Instance open_on_dec fid s : Decision (open_on fid s).
Proof. unfold open_on. apply _. Defined.

Definition available_seats (fid : Z) (db : DB) : list Seat :=
  merge_sort seat_le (filter (open_on fid) (seats db)).

(** [booking.findUnique({ where: { pnr } })] *)
Definition booking_findUnique (p : string) (db : DB) : option Booking :=
  head (filter (λ b, pnr b = p) (bookings db)).

(** [seat.findMany({ where: { flightId, isAvailable: true },
    orderBy: { seatNumber: "asc" }, take: n })], for a [flightId] that the
    column can hold (see [fits]). *)
Definition seat_findMany (fid : Z) (n : nat) (db : DB) : list Seat :=
  take n (available_seats fid db).

(** [seat.findUnique({ where: { id } })] *)
Definition seat_findUnique (id : Z) (db : DB) : option Seat :=
  head (filter (λ s, seat_id s = id) (seats db)).

(** The rows an update's [where] selects: [id], and [isAvailable] when the
    [where] names it. *)
Definition seat_matches (id : Z) (guard : option bool) (s : Seat) : Prop :=
  seat_id s = id ∧ match guard with Some g => isAvailable s = g | None => True end.

Global Instance seat_matches_dec id guard s : Decision (seat_matches id guard s).
Proof. unfold seat_matches. destruct guard; apply _. Defined.

(** [seat.update({ where: { id, isAvailable? }, data: { isAvailable } })];
    Prisma throws P2025 when no row matches. *)
Definition seat_write (id : Z) (guard : option bool) (avail : bool) (db : DB)
  : DB :=
  with_seats (fmap (λ s, if decide (seat_matches id guard s)
                         then set_available avail s else s)) db.

Definition seat_update (id : Z) (guard : option bool) (avail : bool) (db : DB)
  : Err + DB :=
  if decide (Exists (seat_matches id guard) (seats db))
  then inr (seat_write id guard avail db)
  else inl RecordNotFound.

(** Another booking already holds seat [s]: what [bookings_seatId_key]
    forbids. *)
Definition seat_taken_by_other (p : string) (s : Z) (db : DB) : Prop :=
  Exists (λ b, pnr b ≠ p ∧ seatId b = Some s) (bookings db).

Global Instance seat_taken_by_other_dec p s db :
  Decision (seat_taken_by_other p s db).
Proof. unfold seat_taken_by_other. apply _. Defined.

Definition unique_ok (p : string) (sid : option Z) (db : DB) : Prop :=
  match sid with Some s => ¬ seat_taken_by_other p s db | None => True end.

Global Instance unique_ok_dec p sid db : Decision (unique_ok p sid db).
Proof. unfold unique_ok. destruct sid; apply _. Defined.

(** [booking.update({ where: { pnr }, data: { seatId, checkedIn } })]:
    P2025 when the booking is gone, P2002 when the unique index on
    [seatId] rejects the write. *)
Definition booking_write (p : string) (sid : option Z) (ci : bool) (db : DB)
  : DB :=
  with_bookings (fmap (λ b, if decide (pnr b = p)
                            then set_binding sid ci b else b)) db.

Definition booking_update (p : string) (sid : option Z) (ci : bool) (db : DB)
  : Err + DB :=
  if decide (Exists (λ b, pnr b = p) (bookings db)) then
    if decide (unique_ok p sid db)
    then inr (booking_write p sid ci db)
    else inl UniqueConstraintFailed
  else inl RecordNotFound.

(** [seat.updateMany({ data: { isAvailable } })] *)
Definition seat_updateMany (avail : bool) (db : DB) : DB :=
  with_seats (fmap (set_available avail)) db.

(** [booking.updateMany({ data: { seatId: null, checkedIn } })] *)
Definition booking_updateMany (ci : bool) (db : DB) : DB :=
  with_bookings (fmap (set_binding None ci)) db.

(** [seat.count()] *)
Definition seat_count (db : DB) : nat := length (seats db).

(** [flight.findUnique({ where: { flightNumber },
    include: { seats: { orderBy: { seatNumber: "asc" } } } })] *)
Definition flight_findUnique (fn : string) (db : DB)
  : option (Flight * list Seat) :=
  match head (filter (λ f, flightNumber f = fn) (flights db)) with
  | Some f =>
      Some (f, merge_sort seat_le
                 (filter (λ s, seat_flightId s = flight_id f) (seats db)))
  | None => None
  end.

(** ** Programs over the Prisma client *)

(** One constructor per awaited call; the continuation receives what the
    call resolves to.  Writes that can be rejected resolve to [inl e]. *)
Inductive Prog (A : Type) : Type :=
| Ret (a : A)
| Throw (e : Err)
| BookingFindUnique (p : string) (k : option Booking → Prog A)
| SeatFindMany (fid : Z) (n : nat) (k : list Seat → Prog A)
| SeatFindUnique (id : Z) (k : option Seat → Prog A)
| SeatLockNext (fid : Z) (k : list Seat → Prog A)
| Delay (k : unit → Prog A)
| SeatUpdate (id : Z) (guard : option bool) (avail : bool) (k : Err + unit → Prog A)
| BookingUpdate (p : string) (sid : option Z) (ci : bool) (k : Err + unit → Prog A)
| SeatUpdateMany (avail : bool) (k : unit → Prog A)
| BookingUpdateMany (ci : bool) (k : unit → Prog A)
| SeatCount (k : nat → Prog A)
| FlightFindUnique (fn : string) (k : option (Flight * list Seat) → Prog A).

Arguments Ret {A} a.
Arguments Throw {A} e.
Arguments BookingFindUnique {A} p k.
Arguments SeatFindMany {A} fid n k.
Arguments SeatFindUnique {A} id k.
Arguments SeatLockNext {A} fid k.
Arguments Delay {A} k.
Arguments SeatUpdate {A} id guard avail k.
Arguments BookingUpdate {A} p sid ci k.
Arguments SeatUpdateMany {A} avail k.
Arguments BookingUpdateMany {A} ci k.
Arguments SeatCount {A} k.
Arguments FlightFindUnique {A} fn k.

Fixpoint bind {A B} (m : Prog A) (f : A → Prog B) : Prog B :=
  match m with
  | Ret a => f a
  | Throw e => Throw e
  | BookingFindUnique p k => BookingFindUnique p (λ r, bind (k r) f)
  | SeatFindMany fid n k => SeatFindMany fid n (λ r, bind (k r) f)
  | SeatFindUnique id k => SeatFindUnique id (λ r, bind (k r) f)
  | SeatLockNext fid k => SeatLockNext fid (λ r, bind (k r) f)
  | Delay k => Delay (λ r, bind (k r) f)
  | SeatUpdate id g a k => SeatUpdate id g a (λ r, bind (k r) f)
  | BookingUpdate p sid ci k => BookingUpdate p sid ci (λ r, bind (k r) f)
  | SeatUpdateMany a k => SeatUpdateMany a (λ r, bind (k r) f)
  | BookingUpdateMany ci k => BookingUpdateMany ci (λ r, bind (k r) f)
  | SeatCount k => SeatCount (λ r, bind (k r) f)
  | FlightFindUnique fn k => FlightFindUnique fn (λ r, bind (k r) f)
  end.

Global Instance Prog_ret : MRet Prog := λ A a, Ret a.
Global Instance Prog_bind : MBind Prog := λ A B f m, bind m f.

(** [try { p } catch (error) { h error }] *)
Fixpoint try_catch {A} (p : Prog A) (h : Err → Prog A) : Prog A :=
  match p with
  | Ret a => Ret a
  | Throw e => h e
  | BookingFindUnique pn k => BookingFindUnique pn (λ r, try_catch (k r) h)
  | SeatFindMany fid n k => SeatFindMany fid n (λ r, try_catch (k r) h)
  | SeatFindUnique id k => SeatFindUnique id (λ r, try_catch (k r) h)
  | SeatLockNext fid k => SeatLockNext fid (λ r, try_catch (k r) h)
  | Delay k => Delay (λ r, try_catch (k r) h)
  | SeatUpdate id g a k => SeatUpdate id g a (λ r, try_catch (k r) h)
  | BookingUpdate pn sid ci k => BookingUpdate pn sid ci (λ r, try_catch (k r) h)
  | SeatUpdateMany a k => SeatUpdateMany a (λ r, try_catch (k r) h)
  | BookingUpdateMany ci k => BookingUpdateMany ci (λ r, try_catch (k r) h)
  | SeatCount k => SeatCount (λ r, try_catch (k r) h)
  | FlightFindUnique fn k => FlightFindUnique fn (λ r, try_catch (k r) h)
  end.

(** A rejected write throws at the [await]. *)
Definition settle {A} (r : Err + A) : Prog A :=
  match r with inl e => Throw e | inr a => Ret a end.

Module prisma.
Definition booking_findUnique (p : string) : Prog (option Booking) :=
  BookingFindUnique p Ret.
Definition seat_findMany (fid : Z) (n : nat) : Prog (list Seat) :=
  SeatFindMany fid n Ret.
Definition seat_findUnique (id : Z) : Prog (option Seat) :=
  SeatFindUnique id Ret.
Definition seat_update (id : Z) (guard : option bool) (avail : bool) : Prog unit :=
  SeatUpdate id guard avail settle.
Definition booking_update (p : string) (sid : option Z) (ci : bool) : Prog unit :=
  BookingUpdate p sid ci settle.
Definition seat_updateMany (avail : bool) : Prog unit :=
  SeatUpdateMany avail Ret.
Definition booking_updateMany (ci : bool) : Prog unit :=
  BookingUpdateMany ci Ret.
Definition seat_count : Prog nat := SeatCount Ret.
Definition flight_findUnique (fn : string) : Prog (option (Flight * list Seat)) :=
  FlightFindUnique fn Ret.
(** [SELECT ... FROM seats WHERE "flightId" = fid AND "isAvailable" = true
    ORDER BY "seatNumber" ASC LIMIT 1 FOR UPDATE SKIP LOCKED] *)
Definition queryRaw_next_seat (fid : Z) : Prog (list Seat) :=
  SeatLockNext fid Ret.
(** [await new Promise((resolve) => setTimeout(resolve, Math.random() * 100))] *)
Definition sleep : Prog unit := Delay Ret.
End prisma.

(** How a service function talks to the store. *)
Inductive Call (A : Type) : Type :=
| Direct (body : Prog A)          (* calls on the shared [prisma] client *)
| InTransaction (body : Prog A).  (* [prisma.$transaction(async (tx) => body)] *)

Arguments Direct {A} body.
Arguments InTransaction {A} body.

Definition body_of {A} (c : Call A) : Prog A :=
  match c with Direct p => p | InTransaction p => p end.

(** ** [CheckinService] *)

Inductive Method := unsafe | safe.

Global Instance Method_eq_dec : EqDecision Method.
Proof. solve_decision. Defined.

(** The object both policies resolve to ([success: true] is constant). *)
Record Assignment := mkAssignment {
  a_seatNumber : string;
  a_seatId : Z;
  a_method : Method;
  attemptsNeeded : option nat;
}.

Global Instance Assignment_eq_dec : EqDecision Assignment.
Proof. solve_decision. Defined.

(** [flightId || booking.flightId] for [flightId?: number]: [undefined]
    and [0] are falsy. *)
Definition or_else (flightId : option Z) (d : Z) : Z :=
  match flightId with
  | Some f => if decide (f = 0) then d else f
  | None => d
  end.

(** [!seatCheck?.isAvailable] *)
Definition not_available (seatCheck : option Seat) : bool :=
  match seatCheck with
  | Some s => negb (isAvailable s)
  | None => true
  end.

(** How one turn of the [for] loop ends. *)
Inductive Turn := Continue | Return (a : Assignment).

(** The [try] block of the loop body for candidate [seat], the [i]-th of
    [availableSeats] counted from 0. *)
Definition try_seat (p : string) (i : nat) (seat : Seat) : Prog Turn :=
  _ ← prisma.sleep;
  seatCheck ← prisma.seat_findUnique (seat_id seat);
  if not_available seatCheck then Ret Continue
  else
    _ ← prisma.seat_update (seat_id seat) (Some true) false;
    _ ← prisma.booking_update p (Some (seat_id seat)) true;
    Ret (Return (mkAssignment (seatNumber seat) (seat_id seat) unsafe
                   (Some (S i)))).

(** [for (const seat of availableSeats) { try { ... } catch (error)
    { continue; } }] followed by the final [throw]. *)
Fixpoint for_seats (p : string) (i : nat) (availableSeats : list Seat)
  : Prog Assignment :=
  match availableSeats with
  | [] => Throw AllAttemptsFailed
  | seat :: rest =>
      t ← try_catch (try_seat p i seat) (λ _, Ret Continue);
      match t with
      | Return a => Ret a
      | Continue => for_seats p (S i) rest
      end
  end.

(** [selectNextAvailableSeatUnsafe(pnr, flightId?)], checkinService.ts
    lines 59-147.  The [console.log] calls are left out. *)
Definition selectNextAvailableSeatUnsafe (p : string) (flightId : option Z)
  : Call Assignment :=
  Direct (
    booking ← prisma.booking_findUnique p;
    match booking with
    | None => Throw InvalidPNR
    | Some booking =>
        let targetFlightId := or_else flightId (booking_flightId booking) in
        availableSeats ← prisma.seat_findMany targetFlightId 5;
        if decide (length availableSeats = 0%nat) then Throw NoSeatsAvailable
        else for_seats p 0 availableSeats
    end).

(** [selectNextAvailableSeatSafe(pnr, flightId?)], checkinService.ts
    lines 150-222.  The [try]/[catch] around the transaction logs the
    error and throws it again, and is left out. *)
Definition selectNextAvailableSeatSafe (p : string) (flightId : option Z)
  : Call Assignment :=
  InTransaction (
    booking ← prisma.booking_findUnique p;
    match booking with
    | None => Throw InvalidPNR
    | Some booking =>
        let targetFlightId := or_else flightId (booking_flightId booking) in
        availableSeats ← prisma.queryRaw_next_seat targetFlightId;
        match availableSeats with
        | [] => Throw NoSeatsOrLocked
        | seat :: _ =>
            _ ← prisma.sleep;
            _ ← prisma.seat_update (seat_id seat) None false;
            _ ← prisma.booking_update p (Some (seat_id seat)) true;
            Ret (mkAssignment (seatNumber seat) (seat_id seat) safe None)
        end
    end).

(** What [getFlightSeatMap] resolves to (the flight's descriptive columns
    are left out). *)
Record SeatMap := mkSeatMap {
  sm_flightNumber : string;
  sm_totalSeats : Z;
  availableCount : nat;
  sm_seats : list Seat;
}.

(** [getFlightSeatMap(flightNumber)], checkinService.ts lines 225-248. *)
Definition getFlightSeatMap (fn : string) : Call SeatMap :=
  Direct (
    flight ← prisma.flight_findUnique fn;
    match flight with
    | None => Throw FlightNotFound
    | Some (flight, flight_seats) =>
        Ret (mkSeatMap (flightNumber flight) (totalSeats flight)
               (length (filter (λ s, isAvailable s = true) flight_seats))
               flight_seats)
    end).

(** ** [POST /admin/reset-all-seats] *)

(** The transaction of the handler, app.ts lines 349-360; it resolves to
    [totalSeats]. *)
Definition resetAllSeats : Call nat :=
  InTransaction (
    _ ← prisma.seat_updateMany true;
    _ ← prisma.booking_updateMany false;
    totalSeats ← prisma.seat_count;
    Ret totalSeats).

(** ** Running a program against the store *)

(** What the other requests commit while this one is suspended at an
    [await]: one entry is consumed at each call. *)
Definition Env := list (DB → DB).

Definition intrude (env : Env) (db : DB) : DB * Env :=
  match env with
  | [] => (db, [])
  | f :: env' => (f db, env')
  end.

(** Statements committed one by one; no row is locked between them, so
    [SeatLockNext] reads like [findMany] with [take: 1]. *)
Fixpoint run_env {A} (p : Prog A) (env : Env) (db : DB) : (Err + A) * DB :=
  match p with
  | Ret a => (inr a, db)
  | Throw e => (inl e, db)
  | BookingFindUnique pn k =>
      let '(db, env) := intrude env db in
      run_env (k (booking_findUnique pn db)) env db
  | SeatFindMany fid n k =>
      let '(db, env) := intrude env db in
      run_env (k (seat_findMany fid n db)) env db
  | SeatFindUnique id k =>
      let '(db, env) := intrude env db in
      run_env (k (seat_findUnique id db)) env db
  | SeatLockNext fid k =>
      let '(db, env) := intrude env db in
      run_env (k (seat_findMany fid 1 db)) env db
  | Delay k =>
      let '(db, env) := intrude env db in
      run_env (k ()) env db
  | SeatUpdate id g a k =>
      let '(db, env) := intrude env db in
      match seat_update id g a db with
      | inr db' => run_env (k (inr ())) env db'
      | inl e => run_env (k (inl e)) env db
      end
  | BookingUpdate pn sid ci k =>
      let '(db, env) := intrude env db in
      match booking_update pn sid ci db with
      | inr db' => run_env (k (inr ())) env db'
      | inl e => run_env (k (inl e)) env db
      end
  | SeatUpdateMany a k =>
      let '(db, env) := intrude env db in
      run_env (k ()) env (seat_updateMany a db)
  | BookingUpdateMany ci k =>
      let '(db, env) := intrude env db in
      run_env (k ()) env (booking_updateMany ci db)
  | SeatCount k =>
      let '(db, env) := intrude env db in
      run_env (k (seat_count db)) env db
  | FlightFindUnique fn k =>
      let '(db, env) := intrude env db in
      run_env (k (flight_findUnique fn db)) env db
  end.

(** No interference. *)
Definition run {A} (p : Prog A) (db : DB) : (Err + A) * DB := run_env p [] db.

(** [prisma.$transaction]: commit when the callback resolves, roll every
    write back when it throws. *)
Definition transaction {A} (p : Prog A) (db : DB) : (Err + A) * DB :=
  match run p db with
  | (inr a, db') => (inr a, db')
  | (inl e, _) => (inl e, db)
  end.

(** One call, alone on the store. *)
Definition exec {A} (c : Call A) (db : DB) : (Err + A) * DB :=
  match c with
  | Direct p => run p db
  | InTransaction p => transaction p db
  end.

(** ** A small store for the examples: flight 1 with seats 10A..10C,
    flight 2 with seat 10A, four bookings on flight 1. *)
Module Sample.
Definition s10A := mkSeat 1 1 "10A" true.
Definition s10B := mkSeat 2 1 "10B" true.
Definition s10C := mkSeat 3 1 "10C" true.
Definition t10A := mkSeat 4 2 "10A" true.
Definition db0 : DB :=
  mkDB [mkFlight 1 "AA123" 3; mkFlight 2 "BB456" 1]
       [s10B; s10A; s10C; t10A]
       [mkBooking "PNR001" 1 None false;
        mkBooking "PNR002" 1 None false;
        mkBooking "PNR003" 1 None false;
        mkBooking "PNR004" 1 None false].
(** Two seats, two bookings, nobody checked in. *)
Definition db_two : DB :=
  mkDB [mkFlight 1 "AA123" 3]
       [s10A; s10B]
       [mkBooking "PNR001" 1 None false;
        mkBooking "PNR002" 1 None false].
(** Seat 10A is flagged available while PNR002 is bound to it: the
    state an unsafe call of PNR002 on [db_two] leaves behind when a reset
    falls between its two writes. *)
Definition db_stale : DB :=
  mkDB [mkFlight 1 "AA123" 3]
       [s10A; s10B]
       [mkBooking "PNR001" 1 None false;
        mkBooking "PNR002" 1 (Some 1) true].
End Sample.

(** ** Constraints of the schema and the invariant of the design *)

(** [seats_pkey] *)
Definition seats_pkey (db : DB) : Prop := NoDup (seat_id <$> seats db).

(** [seats_flightId_seatNumber_key] *)
Definition seats_flightId_seatNumber_key (db : DB) : Prop :=
  NoDup ((λ s, (seat_flightId s, seatNumber s)) <$> seats db).

(** [bookings_pnr_key] *)
Definition bookings_pnr_key (db : DB) : Prop := NoDup (pnr <$> bookings db).

(** [bookings_seatId_key]: NULLs do not collide. *)
Definition bookings_seatId_key (db : DB) : Prop :=
  NoDup (omap seatId (bookings db)).

(** A live binding references seat [id]. *)
Definition bound (id : Z) (db : DB) : Prop :=
  Exists (λ b, seatId b = Some id) (bookings db).

Global Instance bound_dec id db : Decision (bound id db).
Proof. unfold bound. apply _. Defined.

(** One half of the invariant: a seat that a binding references is not
    available. *)
Definition bound_seats_unavailable (db : DB) : Prop :=
  Forall (λ s, bound (seat_id s) db → isAvailable s = false) (seats db).

(** "At most one live binding may reference a given resource; the
    availability flag is false iff a live binding references it." *)
Definition state_invariant (db : DB) : Prop :=
  bookings_seatId_key db ∧
  Forall (λ s, isAvailable s = false ↔ bound (seat_id s) db) (seats db).

Global Instance state_invariant_dec db : Decision (state_invariant db).
Proof. unfold state_invariant, bookings_seatId_key. apply _. Defined.

(** Seats only ever go from available to unavailable under the
    two policies: [db'] is [db] with some flags cleared. *)
Definition flags_cleared (db db' : DB) : Prop :=
  Forall2 (λ s s', s' = s ∨ s' = set_available false s) (seats db) (seats db').

(** No row with this id is flagged available. *)
Definition all_unavailable (id : Z) (db : DB) : Prop :=
  Forall (λ s, seat_id s = id → isAvailable s = false) (seats db).

(** Strictly ascending seat numbers. *)
Definition seatNumber_lt (a b : string) : Prop := String.le a b ∧ a ≠ b.

Global Instance seatNumber_lt_dec : RelDecision seatNumber_lt.
Proof. intros a b. unfold seatNumber_lt. apply _. Defined.

(** The policies by name. *)
Definition select (m : Method) : string → option Z → Call Assignment :=
  match m with
  | unsafe => selectNextAvailableSeatUnsafe
  | safe => selectNextAvailableSeatSafe
  end.

(** Calls of the safe policy one after the other, each finished before
    the next starts. *)
Fixpoint safe_sequence (reqs : list (string * option Z)) (db : DB)
  : list (Err + Assignment) * DB :=
  match reqs with
  | [] => ([], db)
  | (p, fid) :: reqs' =>
      let '(r, db1) := exec (selectNextAvailableSeatSafe p fid) db in
      let '(rs, db2) := safe_sequence reqs' db1 in
      (r :: rs, db2)
  end.

Definition assigned (r : Err + Assignment) : option Assignment :=
  match r with inr a => Some a | inl _ => None end.

(** The pool a request draws from: [flightId || booking.flightId]. *)
Definition target_flight (db : DB) (req : string * option Z) : option Z :=
  (λ b, or_else req.2 (booking_flightId b)) <$> booking_findUnique req.1 db.

(** Assignment [a] names a seat that is available in pool [fid] of [db]. *)
Definition came_from (fid : Z) (db : DB) (a : Assignment) : Prop :=
  ∃ s, s ∈ seats db ∧ open_on fid s ∧
       a_seatId a = seat_id s ∧ a_seatNumber a = seatNumber s.

(** ** Interleaved interactive transactions *)

Module Conc.

(** Row locks. *)
Inductive Row := SeatRow (id : Z) | BookingRow (p : string).

Global Instance Row_eq_dec : EqDecision Row.
Proof. solve_decision. Defined.

(** A write of a transaction not yet committed. *)
Inductive Write :=
| WSeat (id : Z) (guard : option bool) (avail : bool)
| WBooking (p : string) (sid : option Z) (ci : bool)
| WAllSeats (avail : bool)
| WAllBookings (ci : bool).

Definition apply_write (db : DB) (w : Write) : DB :=
  match w with
  | WSeat id g a => seat_write id g a db
  | WBooking p sid ci => booking_write p sid ci db
  | WAllSeats a => seat_updateMany a db
  | WAllBookings ci => booking_updateMany ci db
  end.

(** What a transaction reads (READ COMMITTED): the committed store with
    its own writes on top. *)
Definition view (db : DB) (ws : list Write) : DB := foldl apply_write db ws.

(** The seat a pending binding write claims in the unique index. *)
Definition claims (w : Write) : option Z :=
  match w with
  | WBooking _ (Some s) _ => Some s
  | _ => None
  end.

Section machine.
Context {A : Type}.

(** An open transaction: what is left of the callback, its
    uncommitted writes, the row locks it holds. *)
Record Tx := mkTx {
  code : Prog A;
  writes : list Write;
  locks : list Row;
}.

Inductive Thread :=
| Running (t : Tx)
| Finished (r : Err + A).

Record Sys := mkSys {
  store : DB;              (* committed rows *)
  threads : list Thread;
}.

Definition locks_of (th : Thread) : list Row :=
  match th with Running t => locks t | Finished _ => [] end.

Definition claims_of (th : Thread) : list Z :=
  match th with Running t => omap claims (writes t) | Finished _ => [] end.

(** What the threads other than [i] hold. *)
Definition of_others {B} (g : Thread → list B) (i : nat)
    (ts : list Thread) : list B :=
  mjoin (imap (λ j th, if decide (j = i) then [] else g th) ts).

(** The rows [SELECT ... LIMIT 1 FOR UPDATE SKIP LOCKED] returns: rows
    locked by another transaction are passed over. *)
Definition lock_next (fid : Z) (fl : list Row) (db : DB) : list Seat :=
  take 1 (filter (λ s, SeatRow (seat_id s) ∉ fl) (available_seats fid db)).

(** One statement of transaction [t]; [fl] are the locks and [fc] the
    index claims of the other transactions.  [None]: the statement
    waits. *)
Definition tx_step (fl : list Row) (fc : list Z) (db : DB) (t : Tx)
  : option (DB * Thread) :=
  let v := view db (writes t) in
  let go c := Some (db, Running (mkTx c (writes t) (locks t))) in
  match code t with
  | Ret a => Some (v, Finished (inr a))            (* COMMIT *)
  | Throw e => Some (db, Finished (inl e))         (* ROLLBACK *)
  | BookingFindUnique p k => go (k (booking_findUnique p v))
  | SeatFindMany fid n k => go (k (seat_findMany fid n v))
  | SeatFindUnique id k => go (k (seat_findUnique id v))
  | SeatLockNext fid k =>
      let got := lock_next fid fl v in
      Some (db, Running (mkTx (k got) (writes t)
                           ((SeatRow ∘ seat_id <$> got) ++ locks t)))
  | Delay k => go (k ())
  | SeatUpdate id g a k =>
      if decide (SeatRow id ∈ fl) then None
      else match seat_update id g a v with
           | inr _ =>
               Some (db, Running (mkTx (k (inr ()))
                                    (writes t ++ [WSeat id g a])
                                    (SeatRow id :: locks t)))
           | inl e => go (k (inl e))
           end
  | BookingUpdate p sid ci k =>
      if decide (BookingRow p ∈ fl) then None
      else if decide (Exists (λ s, s ∈ fc) (option_list sid)) then None
      else match booking_update p sid ci v with
           | inr _ =>
               Some (db, Running (mkTx (k (inr ()))
                                    (writes t ++ [WBooking p sid ci])
                                    (BookingRow p :: locks t)))
           | inl e => go (k (inl e))
           end
  | SeatUpdateMany a k =>
      if decide (Exists (λ s, SeatRow (seat_id s) ∈ fl) (seats v)) then None
      else Some (db, Running (mkTx (k ()) (writes t ++ [WAllSeats a])
                                ((SeatRow ∘ seat_id <$> seats v) ++ locks t)))
  | BookingUpdateMany ci k =>
      if decide (Exists (λ b, BookingRow (pnr b) ∈ fl) (bookings v)) then None
      else Some (db, Running (mkTx (k ()) (writes t ++ [WAllBookings ci])
                                ((BookingRow ∘ pnr <$> bookings v) ++ locks t)))
  | SeatCount k => go (k (seat_count v))
  | FlightFindUnique fn k => go (k (flight_findUnique fn v))
  end.

(** Thread [i] runs its next statement. *)
Definition step (i : nat) (σ : Sys) : option Sys :=
  match threads σ !! i with
  | Some (Running t) =>
      match tx_step (of_others locks_of i (threads σ))
                    (of_others claims_of i (threads σ)) (store σ) t with
      | Some (db', th') => Some (mkSys db' (<[i:=th']> (threads σ)))
      | None => None
      end
  | _ => None
  end.

(** A schedule names the thread that moves next; naming a thread that
    has finished or that waits changes nothing. *)
Definition run_schedule (sched : list nat) (σ : Sys) : Sys :=
  foldl (λ σ i, default σ (step i σ)) σ sched.

(** The transactions [bodies], all begun and none yet run. *)
Definition start (bodies : list (Prog A)) (db : DB) : Sys :=
  mkSys db ((λ c, Running (mkTx c [] [])) <$> bodies).

Definition result_of (th : Thread) : option (Err + A) :=
  match th with Finished r => Some r | Running _ => None end.

Definition success_of (th : Thread) : option A :=
  match th with Finished (inr a) => Some a | _ => None end.

Definition all_finished (σ : Sys) : Prop :=
  Forall (λ th, is_Some (result_of th)) (threads σ).

(** What the calls that succeeded resolved to, in thread order. *)
Definition successes (σ : Sys) : list A := omap success_of (threads σ).

End machine.

Arguments Tx : clear implicits.
Arguments Thread : clear implicits.
Arguments Sys : clear implicits.

(** *** Where a call of the safe policy stands *)

(** The callback of [selectNextAvailableSeatSafe] from each of its
    [await]s on. *)
Definition safe_commit (seat : Seat) : Prog Assignment :=
  Ret (mkAssignment (seatNumber seat) (seat_id seat) safe None).

Definition safe_bind (p : string) (seat : Seat) : Prog Assignment :=
  _ ← prisma.booking_update p (Some (seat_id seat)) true;
  safe_commit seat.

Definition safe_flip (p : string) (seat : Seat) : Prog Assignment :=
  _ ← prisma.seat_update (seat_id seat) None false;
  safe_bind p seat.

Definition safe_sleep (p : string) (seat : Seat) : Prog Assignment :=
  _ ← prisma.sleep;
  safe_flip p seat.

Definition safe_pick (p : string) (targetFlightId : Z) : Prog Assignment :=
  availableSeats ← prisma.queryRaw_next_seat targetFlightId;
  match availableSeats with
  | [] => Throw NoSeatsOrLocked
  | seat :: _ => safe_sleep p seat
  end.

Inductive Stage :=
| Begin                      (* before [booking.findUnique] *)
| Picking                    (* before the locking [SELECT] *)
| Sleeping (seat : Seat)     (* row locked, before the delay *)
| Flipping (seat : Seat)     (* before [seat.update] *)
| Binding (seat : Seat)      (* before [booking.update] *)
| Committing (seat : Seat)   (* callback resolved, before COMMIT *)
| Failing                    (* callback threw, before ROLLBACK *)
| Done (seat : Seat)         (* committed *)
| Failed.                    (* rolled back *)

Global Instance Stage_eq_dec : EqDecision Stage.
Proof. solve_decision. Defined.

(** The thread of request [(p, fid)], drawing from pool [f], at a stage. *)
Definition thread_at (p : string) (fid : option Z) (f : Z) (st : Stage)
  : Thread Assignment :=
  let row seat := SeatRow (seat_id seat) in
  let flip seat := WSeat (seat_id seat) None false in
  match st with
  | Begin =>
      Running (mkTx (body_of (selectNextAvailableSeatSafe p fid)) [] [])
  | Picking => Running (mkTx (safe_pick p f) [] [])
  | Sleeping seat => Running (mkTx (safe_sleep p seat) [] [row seat])
  | Flipping seat => Running (mkTx (safe_flip p seat) [] [row seat])
  | Binding seat =>
      Running (mkTx (safe_bind p seat) [flip seat] [row seat; row seat])
  | Committing seat =>
      Running (mkTx (safe_commit seat)
                 [flip seat; WBooking p (Some (seat_id seat)) true]
                 [BookingRow p; row seat; row seat])
  | Failing => Running (mkTx (Throw NoSeatsOrLocked) [] [])
  | Done seat => Finished (inr (mkAssignment (seatNumber seat) (seat_id seat)
                                  safe None))
  | Failed => Finished (inl NoSeatsOrLocked)
  end.

(** The seat whose row lock the thread holds. *)
Definition holds (st : Stage) : option Seat :=
  match st with
  | Sleeping s | Flipping s | Binding s | Committing s => Some s
  | _ => None
  end.

Definition got (st : Stage) : option Seat :=
  match st with Done s => Some s | _ => None end.

Definition gave_up (st : Stage) : Prop := st = Failing ∨ st = Failed.

Global Instance gave_up_dec st : Decision (gave_up st).
Proof. unfold gave_up. apply _. Defined.

(** Statements left to run. *)
Definition todo (st : Stage) : nat :=
  match st with
  | Begin => 6 | Picking => 5 | Sleeping _ => 4 | Flipping _ => 3
  | Binding _ => 2 | Committing _ => 1 | Failing => 1
  | Done _ => 0 | Failed => 0
  end.

(** What holds of the store and of the stages of [reqs], all drawing from
    pool [f] which had [M] seats available at the start, at every point
    of every schedule. *)
Record inv (reqs : list (string * option Z)) (f : Z) (M : nat)
    (db : DB) (stg : list Stage) : Prop := mkInv {
  inv_length : length stg = length reqs;
  inv_pkey : seats_pkey db;
  inv_pnr_key : bookings_pnr_key db;
  inv_seatId_key : bookings_seatId_key db;
  inv_bound : bound_seats_unavailable db;
  inv_known : Forall (λ r, target_flight db r = Some f) reqs;
  inv_held : ∀ i st s,
    stg !! i = Some st → holds st = Some s → s ∈ seats db ∧ open_on f s;
  inv_held_once : ∀ i j si sj s s',
    stg !! i = Some si → stg !! j = Some sj →
    holds si = Some s → holds sj = Some s' → seat_id s = seat_id s' → i = j;
  inv_count :
    (length (omap got stg) + length (filter (open_on f) (seats db)) = M)%nat;
  inv_got : ∀ i s r,
    stg !! i = Some (Done s) → reqs !! i = Some r →
    all_unavailable (seat_id s) db ∧
    ∃ b, booking_findUnique r.1 db = Some b ∧
         seatId b = Some (seat_id s) ∧ checkedIn b = true;
  inv_got_once : ∀ i j s s',
    stg !! i = Some (Done s) → stg !! j = Some (Done s') →
    seat_id s = seat_id s' → i = j;
  inv_gave_up : ∀ i st s,
    stg !! i = Some st → gave_up st → s ∈ seats db → open_on f s →
    ∃ j sj, stg !! j = Some sj ∧ holds sj = Some s;
}.

(** The threads are where the stages say. *)
Definition at_stages (reqs : list (string * option Z)) (f : Z)
    (ts : list (Thread Assignment)) (stg : list Stage) : Prop :=
  length ts = length reqs ∧
  ∀ i r, reqs !! i = Some r →
    ∃ st, stg !! i = Some st ∧ ts !! i = Some (thread_at r.1 r.2 f st).

(** [N] concurrent calls of the safe policy. *)
Definition safe_calls (reqs : list (string * option Z)) (db : DB)
  : Sys Assignment :=
  start ((λ r, body_of (selectNextAvailableSeatSafe r.1 r.2)) <$> reqs) db.

(** Every one of [n] threads is named at least [k] times. *)
Definition names_each (k n : nat) (sched : list nat) : Prop :=
  Forall (λ i, k ≤ length (filter (λ j, j = i) sched))%nat (seq 0 n).

Global Instance names_each_dec k n sched : Decision (names_each k n sched).
Proof. unfold names_each. apply _. Defined.

(** Round robin over [n] threads, [k] rounds. *)
Definition round_robin (k n : nat) : list nat :=
  mjoin (replicate k (seq 0 n)).

End Conc.

(** ** [loginWithPNR] and the queries of the administrative endpoints *)

(** What [loginWithPNR] resolves to.  The [passenger] and [flight] parts
    of the object copy columns of the rows that the foreign keys
    [bookings_passengerId_fkey] and [bookings_flightId_fkey] guarantee, and
    are left out, as is [status]. *)
Record LoginData := mkLoginData {
  l_pnr : string;
  l_checkedIn : bool;
  currentSeat : option Seat;
  availableSeats : list Seat;
}.

Global Instance LoginData_eq_dec : EqDecision LoginData.
Proof. solve_decision. Defined.

(** [loginWithPNR(pnr)], checkinService.ts lines 15-56: one query,
    [booking.findUnique({ where: { pnr }, include: { flight: { include:
    { seats: { where: { isAvailable: true }, orderBy: { seatNumber: "asc" }
    } } }, seat: true } })].  It writes nothing. *)
Definition loginWithPNR (p : string) (db : DB) : Err + LoginData :=
  match booking_findUnique p db with
  | None => inl InvalidPNR
  | Some booking =>
      inr (mkLoginData (pnr booking) (checkedIn booking)
             (seatId booking ≫= λ id, seat_findUnique id db)
             (available_seats (booking_flightId booking) db))
  end.

(** [seat.count({ where: { isAvailable: true } })] *)
Definition seat_count_available (db : DB) : nat :=
  length (filter (λ s, isAvailable s = true) (seats db)).

(** [booking.count({ where: { checkedIn: true } })] *)
Definition booking_count_checkedIn (db : DB) : nat :=
  length (filter (λ b, checkedIn b = true) (bookings db)).

(** [booking.updateMany({ where: { seatId }, data: { seatId: null,
    checkedIn: false } })] *)
Definition booking_updateMany_where (sid : Z) (db : DB) : DB :=
  with_bookings (fmap (λ b, if decide (seatId b = Some sid)
                            then set_binding None false b else b)) db.

(** ** The HTTP handlers of [app.ts] *)

(** A value caught by [catch (error)]: an [Error] object, or anything
    else, kept as the text [String(error)] gives. *)
Inductive Thrown :=
| ErrorObject (message : string)
| NotAnError (text : string).

(** The errors of the service and of Prisma are [Error] objects. *)
Definition thrown (e : Err) : Thrown := ErrorObject (message e).

(** [getErrorMessage(error)], app.ts lines 18-23. *)
Definition getErrorMessage (error : Thrown) : string :=
  match error with
  | ErrorObject m => m
  | NotAnError t => t
  end.

(** [s.includes(text)] *)
Fixpoint includes (text s : string) : bool :=
  String.prefix text s ||
  match s with
  | EmptyString => false
  | String _ s' => includes text s'
  end.

(** [errorContains(error, text)], app.ts lines 26-31. *)
Definition errorContains (error : Thrown) (text : string) : bool :=
  match error with
  | ErrorObject m => includes text m
  | NotAnError _ => false
  end.

(** The fields the handlers read from [req.body], typed as the service
    declares them; a field that is absent is [None]. *)
Record Body := mkBody {
  body_pnr : option string;
  body_flightId : option Z;
  body_seatId : option Z;
}.

(** A string field that passes [if (!pnr)]: present and not empty. *)
Definition given_string (s : option string) : option string :=
  s ≫= λ s, if decide (s = "") then None else Some s.

(** A number field that passes [if (!seatId)]: present and not 0. *)
Definition given_number (n : option Z) : option Z :=
  n ≫= λ n, if decide (n = 0) then None else Some n.

(** What [GET /admin/seats-status] reports; [utilization] (a rounded
    floating-point quotient) and [timestamp] are left out. *)
Record SeatsStatus := mkSeatsStatus {
  st_total : nat;
  st_available : nat;
  st_booked : Z;
  st_checkedIn : nat;
}.

Global Instance SeatsStatus_eq_dec : EqDecision SeatsStatus.
Proof. solve_decision. Defined.

(** The JSON bodies of the replies. *)
Inductive Payload :=
| ErrorBody (error : string)             (* [{ error }] *)
| AssignmentBody (result : Assignment)
| LoginBody (checkinData : LoginData)
| SeatMapBody (seatMap : SeatMap)
| SuccessBody (message : string)         (* [{ success: true, message }] *)
| StatusBody (s : SeatsStatus).

Record Reply := mkReply {
  status : Z;
  payload : Payload;
}.

(** [res.json(x)] and [res.status(n).json(x)] *)
Definition json (x : Payload) : Reply := mkReply 200 x.
Definition status_json (n : Z) (x : Payload) : Reply := mkReply n x.

(** A handler run alone: the reply and the store it leaves. *)
Definition Handler := DB → Reply * DB.

(** [POST /checkin/login], app.ts lines 138-159. *)
Definition login_reply (r : Err + LoginData) : Reply :=
  match r with
  | inr checkinData => json (LoginBody checkinData)
  | inl e =>
      let error := thrown e in
      if decide (getErrorMessage error = "Invalid PNR")
      then status_json 404 (ErrorBody "Booking not found")
      else status_json 400 (ErrorBody (getErrorMessage error))
  end.

Definition post_checkin_login (body : Body) : Handler := λ db,
  match given_string (body_pnr body) with
  | None => (status_json 400 (ErrorBody "PNR is required"), db)
  | Some pnr => (login_reply (loginWithPNR pnr db), db)
  end.

(** The [try]/[catch] of [POST /checkin/auto-assign-seat-unsafe], app.ts
    lines 177-195, as a function of how the service call ended. *)
Definition auto_assign_unsafe_reply (r : Err + Assignment) : Reply :=
  match r with
  | inr result => json (AssignmentBody result)
  | inl e =>
      let error := thrown e in
      if errorContains error "No seats available"
      then status_json 409 (ErrorBody "Flight is full")
      else if errorContains error "concurrent access"
      then status_json 409
             (ErrorBody "Seat assignment conflict - please try again")
      else status_json 400 (ErrorBody (getErrorMessage error))
  end.

(** [POST /checkin/auto-assign-seat-unsafe], app.ts lines 162-196. *)
Definition post_checkin_auto_assign_seat_unsafe (body : Body) : Handler := λ db,
  match given_string (body_pnr body) with
  | None => (status_json 400 (ErrorBody "PNR is required"), db)
  | Some pnr =>
      let '(r, db') :=
        exec (selectNextAvailableSeatUnsafe pnr (body_flightId body)) db in
      (auto_assign_unsafe_reply r, db')
  end.

(** The [try]/[catch] of [POST /checkin/auto-assign-seat-safe], app.ts
    lines 214-226. *)
Definition auto_assign_safe_reply (r : Err + Assignment) : Reply :=
  match r with
  | inr result => json (AssignmentBody result)
  | inl e =>
      let error := thrown e in
      if errorContains error "No seats available"
      then status_json 409
             (ErrorBody "Flight is full or all seats being processed")
      else status_json 400 (ErrorBody (getErrorMessage error))
  end.

(** [POST /checkin/auto-assign-seat-safe], app.ts lines 199-227. *)
Definition post_checkin_auto_assign_seat_safe (body : Body) : Handler := λ db,
  match given_string (body_pnr body) with
  | None => (status_json 400 (ErrorBody "PNR is required"), db)
  | Some pnr =>
      let '(r, db') :=
        exec (selectNextAvailableSeatSafe pnr (body_flightId body)) db in
      (auto_assign_safe_reply r, db')
  end.

(** The [try]/[catch] of [POST /checkin/select-seat-unsafe], app.ts lines
    243-251. *)
Definition select_seat_unsafe_reply (r : Err + Assignment) : Reply :=
  match r with
  | inr result => json (AssignmentBody result)
  | inl e => status_json 400 (ErrorBody (getErrorMessage (thrown e)))
  end.

(** [POST /checkin/select-seat-unsafe], app.ts lines 230-252: the service
    is called with the PNR alone. *)
Definition post_checkin_select_seat_unsafe (body : Body) : Handler := λ db,
  match given_string (body_pnr body), given_number (body_seatId body) with
  | Some pnr, Some seatId =>
      let '(r, db') := exec (selectNextAvailableSeatUnsafe pnr None) db in
      (select_seat_unsafe_reply r, db')
  | _, _ => (status_json 400 (ErrorBody "PNR and seatId are required"), db)
  end.

(** The [try]/[catch] of [POST /checkin/select-seat-safe], app.ts lines
    268-284. *)
Definition select_seat_safe_reply (r : Err + Assignment) : Reply :=
  match r with
  | inr result => json (AssignmentBody result)
  | inl e =>
      let error := thrown e in
      if errorContains error "already taken" ||
         errorContains error "being processed"
      then status_json 409 (ErrorBody "Seat is no longer available")
      else status_json 400 (ErrorBody (getErrorMessage error))
  end.

(** [POST /checkin/select-seat-safe], app.ts lines 255-285. *)
Definition post_checkin_select_seat_safe (body : Body) : Handler := λ db,
  match given_string (body_pnr body), given_number (body_seatId body) with
  | Some pnr, Some seatId =>
      let '(r, db') := exec (selectNextAvailableSeatSafe pnr None) db in
      (select_seat_safe_reply r, db')
  | _, _ => (status_json 400 (ErrorBody "PNR and seatId are required"), db)
  end.

(** [GET /flights/:flightNumber/seats], app.ts lines 288-309. *)
Definition seat_map_reply (r : Err + SeatMap) : Reply :=
  match r with
  | inr seatMap => json (SeatMapBody seatMap)
  | inl e =>
      let error := thrown e in
      if decide (getErrorMessage error = "Flight not found")
      then status_json 404 (ErrorBody "Flight not found")
      else status_json 400 (ErrorBody (getErrorMessage error))
  end.

Definition get_flights_seats (flightNumber : string) : Handler := λ db,
  let '(r, db') := exec (getFlightSeatMap flightNumber) db in
  (seat_map_reply r, db').

(** The transaction of [POST /admin/reset-seat], app.ts lines 324-334:
    [tx.seat.update] throws P2025 when no seat has the id, and the
    transaction ends there. *)
Definition reset_seat_transaction (seatId : Z) (db : DB) : Err + DB :=
  match seat_update seatId None true db with
  | inl e => inl e
  | inr db1 => inr (booking_updateMany_where seatId db1)
  end.

(** [`Seat ${seatId} reset to available`] *)
Definition reset_seat_message (seatId : Z) : string :=
  "Seat " +:+ pretty seatId +:+ " reset to available".

(** [POST /admin/reset-seat], app.ts lines 314-342. *)
Definition post_admin_reset_seat (body : Body) : Handler := λ db,
  match given_number (body_seatId body) with
  | None => (status_json 400 (ErrorBody "seatId is required"), db)
  | Some seatId =>
      match reset_seat_transaction seatId db with
      | inr db' => (json (SuccessBody (reset_seat_message seatId)), db')
      | inl e => (status_json 500 (ErrorBody (getErrorMessage (thrown e))), db)
      end
  end.

(** [`Reset ${result} seats to available state`] *)
Definition reset_all_message (result : nat) : string :=
  "Reset " +:+ pretty result +:+ " seats to available state".

(** [POST /admin/reset-all-seats], app.ts lines 345-371. *)
Definition post_admin_reset_all_seats : Handler := λ db,
  match exec resetAllSeats db with
  | (inr result, db') => (json (SuccessBody (reset_all_message result)), db')
  | (inl e, db') =>
      (status_json 500 (ErrorBody (getErrorMessage (thrown e))), db')
  end.

(** The counts of [GET /admin/seats-status], app.ts lines 376-383. *)
Definition seats_status (db : DB) : SeatsStatus :=
  let totalSeats := seat_count db in
  let availableSeats := seat_count_available db in
  let bookedSeats := Z.of_nat totalSeats - Z.of_nat availableSeats in
  let checkedInPassengers := booking_count_checkedIn db in
  mkSeatsStatus totalSeats availableSeats bookedSeats checkedInPassengers.

(** [GET /admin/seats-status], app.ts lines 374-397. *)
Definition get_admin_seats_status : Handler := λ db,
  (json (StatusBody (seats_status db)), db).

(** ** The range of the [flightId] column *)

(** [INTEGER] of the migrations, [Int] of the Prisma schema: 32 bits,
    signed. *)
Definition int4 (n : Z) : Prop := -2147483648 ≤ n ≤ 2147483647.

Global Instance int4_dec n : Decision (int4 n).
Proof. unfold int4. apply _. Defined.

(** A flight selector that the [flightId] column can hold.  The service
    declares [flightId?: number]; here it is an integer, and [fits] says
    that it is one of 32 bits.  Both policies pass
    [flightId || booking.flightId] to a query on the column, and for a
    number that the column cannot hold the client throws its own error:
    from [findMany], before the loop, in the unsafe policy and from the
    raw query in the safe one.  The programs above have no such failure;
    what is said below of how a call ends is said of selectors that
    fit. *)
Definition fits (flightId : option Z) : Prop :=
  match flightId with
  | Some f => int4 f
  | None => True
  end.

Global Instance fits_dec flightId : Decision (fits flightId).
Proof. unfold fits. destruct flightId; apply _. Defined.

(** What other requests commit leaves seat [id] unavailable when it
    finds it so: true of the check-ins, which only clear flags, and of the
    reading endpoints, not of the resets. *)
Definition keeps_unavailable (id : Z) (f : DB → DB) : Prop :=
  ∀ d, all_unavailable id d → all_unavailable id (f d).

(** ** Vocabulary of the properties *)

(** What an assignment made at the first attempt carries as
    [attemptsNeeded]: the safe policy reports none. *)
Definition attempts_of (m : Method) : option nat :=
  match m with unsafe => Some 1%nat | safe => None end.

(** What each policy throws on an empty pool. *)
Definition pool_exhausted (m : Method) : Err :=
  match m with unsafe => NoSeatsAvailable | safe => NoSeatsOrLocked end.

(** The handlers by policy. *)
Definition auto_assign_handler (m : Method) : Body → Handler :=
  match m with
  | unsafe => post_checkin_auto_assign_seat_unsafe
  | safe => post_checkin_auto_assign_seat_safe
  end.

Definition select_seat_handler (m : Method) : Body → Handler :=
  match m with
  | unsafe => post_checkin_select_seat_unsafe
  | safe => post_checkin_select_seat_safe
  end.

(** [bookings_seatId_fkey]: a seat id in a booking is the id of a seat
    row. *)
Definition bookings_seatId_fkey (db : DB) : Prop :=
  Forall (λ id, id ∈ seat_id <$> seats db) (omap seatId (bookings db)).

Global Instance bookings_seatId_fkey_dec db : Decision (bookings_seatId_fkey db).
Proof. unfold bookings_seatId_fkey. apply _. Defined.

(** The two columns that a check-in writes go together: a booking is
    checked in exactly when it has a seat. *)
Definition checkedIn_with_seat (db : DB) : Prop :=
  Forall (λ b, checkedIn b = true ↔ is_Some (seatId b)) (bookings db).

Global Instance checkedIn_with_seat_dec db : Decision (checkedIn_with_seat db).
Proof. unfold checkedIn_with_seat. apply _. Defined.

(** ** Interleaved requests on the shared client *)

Module Auto.

Section machine.
Context {A : Type}.

(** Requests in flight whose calls go to the shared [prisma] client: each
    call is a statement committed on its own, and the statements of the
    requests interleave at the [await]s.  A thread is what is left of the
    program of its request. *)
Record Sys := mkSys {
  store : DB;
  threads : list (Prog A);
}.

(** The next statement of a program, run against the store as [run_env]
    runs it; [None] when the program has returned or thrown. *)
Definition stmt (p : Prog A) (db : DB) : option (Prog A * DB) :=
  match p with
  | Ret _ | Throw _ => None
  | BookingFindUnique pn k => Some (k (booking_findUnique pn db), db)
  | SeatFindMany fid n k => Some (k (seat_findMany fid n db), db)
  | SeatFindUnique id k => Some (k (seat_findUnique id db), db)
  | SeatLockNext fid k => Some (k (seat_findMany fid 1 db), db)
  | Delay k => Some (k (), db)
  | SeatUpdate id g a k =>
      match seat_update id g a db with
      | inr db' => Some (k (inr ()), db')
      | inl e => Some (k (inl e), db)
      end
  | BookingUpdate pn sid ci k =>
      match booking_update pn sid ci db with
      | inr db' => Some (k (inr ()), db')
      | inl e => Some (k (inl e), db)
      end
  | SeatUpdateMany a k => Some (k (), seat_updateMany a db)
  | BookingUpdateMany ci k => Some (k (), booking_updateMany ci db)
  | SeatCount k => Some (k (seat_count db), db)
  | FlightFindUnique fn k => Some (k (flight_findUnique fn db), db)
  end.

(** Thread [i] runs its next statement; a thread that has ended, or that
    is not there, changes nothing. *)
Definition step (i : nat) (σ : Sys) : Sys :=
  match threads σ !! i with
  | Some p =>
      match stmt p (store σ) with
      | Some (p', db') => mkSys db' (<[i:=p']> (threads σ))
      | None => σ
      end
  | None => σ
  end.

Definition run_schedule (sched : list nat) (σ : Sys) : Sys :=
  foldl (λ σ i, step i σ) σ sched.

Definition start (bodies : list (Prog A)) (db : DB) : Sys := mkSys db bodies.

(** How a thread ended, if it has. *)
Definition result_of (p : Prog A) : option (Err + A) :=
  match p with
  | Ret a => Some (inr a)
  | Throw e => Some (inl e)
  | _ => None
  end.

Definition success_of (p : Prog A) : option A :=
  match p with Ret a => Some a | _ => None end.

(** What the calls that have returned resolved to, in thread order. *)
Definition successes (σ : Sys) : list A := omap success_of (threads σ).

(** A program run to its end with nothing in between, at most [n]
    statements. *)
Fixpoint run_alone (n : nat) (p : Prog A) (db : DB) : Prog A * DB :=
  match n with
  | O => (p, db)
  | S n =>
      match stmt p db with
      | Some (p', db') => run_alone n p' db'
      | None => (p, db)
      end
  end.

End machine.

Arguments Sys : clear implicits.

(** [N] concurrent calls of the unsafe policy. *)
Definition unsafe_calls (reqs : list (string * option Z)) (db : DB)
  : Sys Assignment :=
  start ((λ r, body_of (selectNextAvailableSeatUnsafe r.1 r.2)) <$> reqs) db.

(** What the rest of the program of a request of [p] can still do to the
    bookings: it writes the booking of [p] and no other, writes no table
    wholesale, and when it returns an assignment then its last write that
    went through bound the seat of that assignment to [p].  [cur] is the
    seat of that last write, if there was one. *)
Inductive writes_own (p : string) : option Z → Prog Assignment → Prop :=
| wo_Ret a : writes_own p (Some (a_seatId a)) (Ret a)
| wo_Throw cur e : writes_own p cur (Throw e)
| wo_BookingFindUnique cur q k :
    (∀ r, writes_own p cur (k r)) → writes_own p cur (BookingFindUnique q k)
| wo_SeatFindMany cur fid n k :
    (∀ r, writes_own p cur (k r)) → writes_own p cur (SeatFindMany fid n k)
| wo_SeatFindUnique cur id k :
    (∀ r, writes_own p cur (k r)) → writes_own p cur (SeatFindUnique id k)
| wo_SeatLockNext cur fid k :
    (∀ r, writes_own p cur (k r)) → writes_own p cur (SeatLockNext fid k)
| wo_Delay cur k :
    (∀ r, writes_own p cur (k r)) → writes_own p cur (Delay k)
| wo_SeatUpdate cur id g a k :
    (∀ r, writes_own p cur (k r)) → writes_own p cur (SeatUpdate id g a k)
| wo_BookingUpdate cur sid ci k :
    (∀ e, writes_own p cur (k (inl e))) → writes_own p sid (k (inr ())) →
    writes_own p cur (BookingUpdate p sid ci k)
| wo_SeatCount cur k :
    (∀ r, writes_own p cur (k r)) → writes_own p cur (SeatCount k)
| wo_FlightFindUnique cur fn k :
    (∀ r, writes_own p cur (k r)) → writes_own p cur (FlightFindUnique fn k).

(** What holds at every point of every interleaving of the requests
    [reqs]: the two unique indexes of [bookings], and for every thread that
    its booking carries the seat of the last write of the thread that went
    through. *)
Record inv (reqs : list (string * option Z)) (σ : Sys Assignment) : Prop :=
  mkInv {
  inv_length : length (threads σ) = length reqs;
  inv_pnr_key : bookings_pnr_key (store σ);
  inv_seatId_key : bookings_seatId_key (store σ);
  inv_threads : ∀ i r c,
    reqs !! i = Some r → threads σ !! i = Some c →
    ∃ cur, writes_own r.1 cur c ∧
           ∀ s, cur = Some s →
                ∃ b, booking_findUnique r.1 (store σ) = Some b ∧
                     seatId b = Some s;
}.

End Auto.

(** What a call of policy [m] that is bound to [seat] at its first attempt
    resolves to. *)
Definition assignment_of (m : Method) (seat : Seat) : Assignment :=
  mkAssignment (seatNumber seat) (seat_id seat) m (attempts_of m).

(** Calls of one policy made one after the other, each finished before the
    next starts. *)
Fixpoint select_sequence (m : Method) (reqs : list (string * option Z))
    (db : DB) : list (Err + Assignment) * DB :=
  match reqs with
  | [] => ([], db)
  | (p, fid) :: reqs' =>
      let '(r, db1) := exec (select m p fid) db in
      let '(rs, db2) := select_sequence m reqs' db1 in
      (r :: rs, db2)
  end.

(** ** [POST /admin/seed-database] *)

(** The sequences behind the [SERIAL] id columns of [flights] and [seats]:
    the value each hands out next.  ([deleteMany] does not reset them.) *)
Record Serial := mkSerial {
  flights_id_seq : Z;
  seats_id_seq : Z;
}.

(** [booking.deleteMany()], [seat.deleteMany()], [flight.deleteMany()] *)
Definition booking_deleteMany (db : DB) : DB := with_bookings (λ _, []) db.
Definition seat_deleteMany (db : DB) : DB := with_seats (λ _, []) db.
Definition flight_deleteMany (db : DB) : DB :=
  mkDB [] (seats db) (bookings db).

(** [flight.create({ data: { flightNumber, totalSeats, ... } })]: the row
    created, with the id the sequence hands out. *)
Definition flight_create (fn : string) (total : Z) (q : Serial) (db : DB)
  : Flight * Serial * DB :=
  let flight := mkFlight (flights_id_seq q) fn total in
  (flight, mkSerial (flights_id_seq q + 1) (seats_id_seq q),
   mkDB (flights db ++ [flight]) (seats db) (bookings db)).

(** [seat.createMany({ data })] for rows [{ flightId, seatNumber, ... }]:
    [isAvailable] defaults to true, the ids are handed out in the order of
    the rows. *)
Definition seat_createMany (data : list (Z * string)) (q : Serial) (db : DB)
  : Serial * DB :=
  (mkSerial (flights_id_seq q) (seats_id_seq q + Z.of_nat (length data)),
   with_seats (λ l, l ++ imap (λ i d, mkSeat (seats_id_seq q + Z.of_nat i)
                                        d.1 d.2 true) data) db).

(** [booking.create({ data: { pnr, flightId, ... } })]: [seatId] is null
    and [checkedIn] defaults to false. *)
Definition booking_create (p : string) (fid : Z) (db : DB) : DB :=
  with_bookings (λ l, l ++ [mkBooking p fid None false]) db.

(** [s.padStart(n, pad)]: [pad] repeated, and cut, to bring [s] to length
    [n]; [s] itself when it is that long already. *)
Definition padStart (n : nat) (pad : string) (s : string) : string :=
  let k := (n - String.length s)%nat in
  String.string_of_list_ascii
    (take k (mjoin (replicate k (String.list_ascii_of_string pad)))) +:+ s.

(** [`PNR${String(i).padStart(3, "0")}`] *)
Definition pnr_of (i : nat) : string := "PNR" +:+ padStart 3 "0" (pretty i).

(** The [seats] array of the handler: rows 10 to 25, letters A to F. *)
Definition seed_seats (flightId : Z) : list (Z * string) :=
  row ← seq 10 16;
  letter ← ["A"; "B"; "C"; "D"; "E"; "F"];
  [(flightId, pretty row +:+ letter)].

(** The body of the handler, app.ts lines 76-128; the passengers it
    creates live in a table that is not modelled. *)
Definition seedDatabase (q : Serial) (db : DB) : Serial * DB :=
  let db := booking_deleteMany db in
  let db := seat_deleteMany db in
  let db := flight_deleteMany db in
  let '(flight, q, db) := flight_create "AA123" 96 q db in
  let '(q, db) := seat_createMany (seed_seats (flight_id flight)) q db in
  (q, foldl (λ db i, booking_create (pnr_of i) (flight_id flight) db)
        db (seq 1 100)).

(** ** The load test, [tests/loadTest.cjs] *)

Module LoadTest.

(** [[...new Set(xs)]]: the distinct values, in the order they first
    appear. *)
Definition uniqueSeats (seatAssignments : list string) : list string :=
  foldl (λ set seat, if decide (seat ∈ set) then set else set ++ [seat])
    [] seatAssignments.

(** The property names that an object literal inherits from
    [Object.prototype]. *)
Definition Object_prototype : list string :=
  ["constructor"; "__defineGetter__"; "__defineSetter__"; "hasOwnProperty";
   "__lookupGetter__"; "__lookupSetter__"; "isPrototypeOf";
   "propertyIsEnumerable"; "toString"; "valueOf"; "__proto__";
   "toLocaleString"].

(** A value of [seatCounts]: a number, or a text that is no number, which
    is what [+ 1] makes of an inherited function or object and of such a
    text. *)
Inductive Count := Number (n : nat) | Text.

Global Instance Count_eq_dec : EqDecision Count.
Proof. solve_decision. Defined.

(** [(seatCounts[seat] || 0) + 1]: the own property when there is one,
    else what [seat] names in [Object.prototype], else [undefined]. *)
Definition incremented (counts : gmap string Count) (seat : string) : Count :=
  match counts !! seat with
  | Some (Number n) => Number (n + 1)
  | Some Text => Text
  | None => if decide (seat ∈ Object_prototype) then Text else Number 1
  end.

(** [seatCounts[seat] = v]: an own property, except for [__proto__], whose
    inherited setter ignores a value that is not an object. *)
Definition assign (seat : string) (v : Count) (counts : gmap string Count)
  : gmap string Count :=
  if decide (seat = "__proto__") then counts else <[seat := v]> counts.

(** [const seatCounts = {}; seatAssignments.forEach((seat) => {
    seatCounts[seat] = (seatCounts[seat] || 0) + 1; })], lines 93-96. *)
Definition seatCounts (seatAssignments : list string) : gmap string Count :=
  foldl (λ counts seat, assign seat (incremented counts seat) counts)
    ∅ seatAssignments.

(** [([seat, count]) => count > 1]: false for a text that is no number,
    so that the entries that pass carry numbers. *)
Definition more_than_one (entry : string * Count) : option (string * nat) :=
  match entry.2 with
  | Number n => if decide (1 < n)%nat then Some (entry.1, n) else None
  | Text => None
  end.

(** [Object.entries(seatCounts).filter(([seat, count]) => count > 1)],
    lines 98-100. *)
Definition duplicatedSeats (seatAssignments : list string)
  : list (string * nat) :=
  omap more_than_one (map_to_list (seatCounts seatAssignments)).

(** [duplicatedSeats.reduce((sum, [seat, count]) => sum + (count - 1), 0)],
    lines 103-106: the number in "RACE CONDITION DETECTED: n users got
    duplicate seats!". *)
Definition totalDuplicates (seatAssignments : list string) : nat :=
  foldl (λ sum entry, (sum + (entry.2 - 1))%nat) 0%nat
    (duplicatedSeats seatAssignments).

(** What an entry adds to that sum. *)
Definition surplus (entry : string * Count) : nat :=
  match entry.2 with
  | Number n => (n - 1)%nat
  | Text => 0%nat
  end.

(** The seat numbers that name nothing in [Object.prototype], and the
    others. *)
Definition plain (seatAssignments : list string) : list string :=
  filter (λ seat, seat ∉ Object_prototype) seatAssignments.

Definition inherited (seatAssignments : list string) : list string :=
  filter (λ seat, seat ∈ Object_prototype) seatAssignments.

(** The [duplicates] field of what [testAutoSeatAssignment] returns, lines
    180-184. *)
Definition duplicates (seatAssignments : list string) : nat :=
  if decide (0 < length seatAssignments)%nat
  then (length seatAssignments - length (uniqueSeats seatAssignments))%nat
  else 0%nat.

(** The failure analysis, lines 155-161. *)
Inductive ErrorType := DatabaseConstraint | ConcurrentAccess | Timeout | Other.

Definition errorType (error : string) : ErrorType :=
  if includes "constraint" error then DatabaseConstraint
  else if includes "concurrent" error then ConcurrentAccess
  else if includes "timeout" error then Timeout
  else Other.

(** [error.response?.data?.error || error.message], line 58, for a reply
    with an error status: the [error] field of its body when there is one
    and it is not empty, the message of the HTTP client otherwise. *)
Definition failure_text (reply : Reply) (client_message : string) : string :=
  match payload reply with
  | ErrorBody error => if decide (error = "") then client_message else error
  | _ => client_message
  end.

End LoadTest.

(** ** First check-ins under the safe policy *)

(** What the schedules of calls of the safe policy keep, besides
    [Conc.inv], when no requester has a seat at the start: every seat
    flagged unavailable is referenced by a booking, and the booking of a
    call that has not committed has no seat. *)
Record first_checkins (reqs : list (string * option Z))
    (σ : Conc.Sys Assignment) : Prop := mkFirstCheckins {
  fc_flagged_bound :
    Forall (λ s, isAvailable s = false → bound (seat_id s) (Conc.store σ))
      (seats (Conc.store σ));
  fc_unbound : ∀ i r th,
    reqs !! i = Some r → Conc.threads σ !! i = Some th →
    Conc.success_of th = None →
    ∃ b, booking_findUnique r.1 (Conc.store σ) = Some b ∧ seatId b = None;
}.

(** ** How many calls a program makes *)

(** [ends_within n c]: whatever its calls resolve to, the program [c]
    returns or throws after at most [n] of them.  A [findMany] with
    [take: m] resolves to at most [m] rows. *)
Inductive ends_within {A : Type} : nat → Prog A → Prop :=
| ew_Ret n a : ends_within n (Ret a)
| ew_Throw n e : ends_within n (Throw e)
| ew_BookingFindUnique n q k :
    (∀ r, ends_within n (k r)) → ends_within (S n) (BookingFindUnique q k)
| ew_SeatFindMany n fid m k :
    (∀ r, (length r ≤ m)%nat → ends_within n (k r)) →
    ends_within (S n) (SeatFindMany fid m k)
| ew_SeatFindUnique n id k :
    (∀ r, ends_within n (k r)) → ends_within (S n) (SeatFindUnique id k)
| ew_SeatLockNext n fid k :
    (∀ r, ends_within n (k r)) → ends_within (S n) (SeatLockNext fid k)
| ew_Delay n k :
    (∀ r, ends_within n (k r)) → ends_within (S n) (Delay k)
| ew_SeatUpdate n id g a k :
    (∀ r, ends_within n (k r)) → ends_within (S n) (SeatUpdate id g a k)
| ew_BookingUpdate n q sid ci k :
    (∀ r, ends_within n (k r)) → ends_within (S n) (BookingUpdate q sid ci k)
| ew_SeatUpdateMany n a k :
    (∀ r, ends_within n (k r)) → ends_within (S n) (SeatUpdateMany a k)
| ew_BookingUpdateMany n ci k :
    (∀ r, ends_within n (k r)) → ends_within (S n) (BookingUpdateMany ci k)
| ew_SeatCount n k :
    (∀ r, ends_within n (k r)) → ends_within (S n) (SeatCount k)
| ew_FlightFindUnique n fn k :
    (∀ r, ends_within n (k r)) → ends_within (S n) (FlightFindUnique fn k).

(** All threads have returned or thrown. *)
Definition all_ended {A} (σ : Auto.Sys A) : Prop :=
  Forall (λ c, is_Some (Auto.result_of c)) (Auto.threads σ).

(** ** Flags and bindings under interleaved calls of the unsafe policy *)

(** What is left of a program that binds only seats it has flagged:
    [flagged] are the seats it has cleared the flag of so far; it clears
    flags and sets none, binds only a seat among those, and returns only
    such a seat. *)
Inductive binds_flagged : list Z → Prog Assignment → Prop :=
| bf_Ret flagged a : a_seatId a ∈ flagged → binds_flagged flagged (Ret a)
| bf_Throw flagged e : binds_flagged flagged (Throw e)
| bf_BookingFindUnique flagged q k :
    (∀ r, binds_flagged flagged (k r)) →
    binds_flagged flagged (BookingFindUnique q k)
| bf_SeatFindMany flagged fid n k :
    (∀ r, binds_flagged flagged (k r)) →
    binds_flagged flagged (SeatFindMany fid n k)
| bf_SeatFindUnique flagged id k :
    (∀ r, binds_flagged flagged (k r)) →
    binds_flagged flagged (SeatFindUnique id k)
| bf_SeatLockNext flagged fid k :
    (∀ r, binds_flagged flagged (k r)) →
    binds_flagged flagged (SeatLockNext fid k)
| bf_Delay flagged k :
    (∀ r, binds_flagged flagged (k r)) → binds_flagged flagged (Delay k)
| bf_SeatUpdate flagged id k :
    (∀ e, binds_flagged flagged (k (inl e))) →
    binds_flagged (id :: flagged) (k (inr ())) →
    binds_flagged flagged (SeatUpdate id (Some true) false k)
| bf_BookingUpdate flagged q s ci k :
    s ∈ flagged → (∀ r, binds_flagged flagged (k r)) →
    binds_flagged flagged (BookingUpdate q (Some s) ci k)
| bf_SeatCount flagged k :
    (∀ r, binds_flagged flagged (k r)) → binds_flagged flagged (SeatCount k)
| bf_FlightFindUnique flagged fn k :
    (∀ r, binds_flagged flagged (k r)) →
    binds_flagged flagged (FlightFindUnique fn k).

(** What holds of the flags at every point of every interleaving of calls
    that bind only seats they have flagged, started on [db]. *)
Record flags_kept (db : DB) (σ : Auto.Sys Assignment) : Prop := mkFlagsKept {
  fk_cleared : flags_cleared db (Auto.store σ);
  fk_bound : bound_seats_unavailable (Auto.store σ);
  fk_threads : ∀ i c,
    Auto.threads σ !! i = Some c →
    ∃ flagged, binds_flagged flagged c ∧
               Forall (λ id, all_unavailable id (Auto.store σ)) flagged;
}.

(** * Properties *)

(** ** The seat queries *)

Global Instance seat_le_trans : Transitive seat_le.
Proof. intros x y z. unfold seat_le. apply transitivity. Qed.

Global Instance seat_le_total : Total seat_le.
Proof. intros x y. unfold seat_le. apply total, _. Qed.

Lemma available_seats_perm fid db :
  available_seats fid db ≡ₚ filter (open_on fid) (seats db).
Proof. apply merge_sort_Permutation. Qed.

Lemma elem_of_available_seats fid db s :
  s ∈ available_seats fid db ↔ s ∈ seats db ∧ open_on fid s.
Proof. rewrite available_seats_perm, list_elem_of_filter. tauto. Qed.

Lemma available_seats_sorted fid db :
  StronglySorted seat_le (available_seats fid db).
Proof. apply StronglySorted_merge_sort; apply _. Qed.

Lemma length_available_seats fid db :
  length (available_seats fid db) = length (filter (open_on fid) (seats db)).
Proof. by rewrite available_seats_perm. Qed.

Lemma elem_of_seat_findMany fid n db s :
  s ∈ seat_findMany fid n db → s ∈ seats db ∧ open_on fid s.
Proof.
  unfold seat_findMany. intros Hs. apply elem_of_available_seats.
  apply elem_of_take in Hs as (i & Hi & _). by eapply list_elem_of_lookup_2.
Qed.

Lemma seat_findMany_one fid n db :
  seat_findMany fid 1 db = take 1 (seat_findMany fid (S n) db).
Proof.
  unfold seat_findMany. by destruct (available_seats fid db).
Qed.

(** The first row of the ordered query is the least available seat. *)
Lemma seat_findMany_least fid n db s rest s' :
  seat_findMany fid n db = s :: rest →
  s' ∈ seats db → open_on fid s' → seat_le s s'.
Proof.
  unfold seat_findMany. intros Hq Hin Hopen.
  assert (s' ∈ available_seats fid db) as Hs'
    by by apply elem_of_available_seats.
  pose proof (available_seats_sorted fid db) as Hsorted.
  destruct (available_seats fid db) as [|x l]; [by destruct n|].
  destruct n as [|n]; [done|]. simpl in Hq. simplify_eq.
  apply StronglySorted_cons in Hsorted as [Hall _].
  apply elem_of_cons in Hs' as [->|Hs'].
  - unfold seat_le. done.
  - by eapply Forall_forall in Hall.
Qed.

(** ** Running the service functions *)

Lemma run_safe_body p fid db :
  run (body_of (selectNextAvailableSeatSafe p fid)) db =
  match booking_findUnique p db with
  | None => (inl InvalidPNR, db)
  | Some b =>
      match seat_findMany (or_else fid (booking_flightId b)) 1 db with
      | [] => (inl NoSeatsOrLocked, db)
      | seat :: _ =>
          match seat_update (seat_id seat) None false db with
          | inl e => (inl e, db)
          | inr db1 =>
              match booking_update p (Some (seat_id seat)) true db1 with
              | inl e => (inl e, db1)
              | inr db2 =>
                  (inr (mkAssignment (seatNumber seat) (seat_id seat) safe None),
                   db2)
              end
          end
      end
  end.
Proof.
  unfold run. simpl.
  destruct (booking_findUnique p db) as [b|]; [|done]. simpl.
  destruct (seat_findMany _ 1 db) as [|seat l]; [done|]. simpl.
  destruct (seat_update _ _ _ db) as [e|db1]; [done|]. simpl.
  destruct (booking_update _ _ _ db1) as [e|db2]; done.
Qed.

(** One turn of the unsafe loop, with what arrives from the other
    requests at each of its four calls. *)
Lemma run_for_seats_cons p i seat rest env db :
  run_env (for_seats p i (seat :: rest)) env db =
  let '(db1, env1) := intrude env db in
  let '(db2, env2) := intrude env1 db1 in
  if not_available (seat_findUnique (seat_id seat) db2)
  then run_env (for_seats p (S i) rest) env2 db2
  else
    let '(db3, env3) := intrude env2 db2 in
    match seat_update (seat_id seat) (Some true) false db3 with
    | inl _ => run_env (for_seats p (S i) rest) env3 db3
    | inr db4 =>
        let '(db5, env4) := intrude env3 db4 in
        match booking_update p (Some (seat_id seat)) true db5 with
        | inl _ => run_env (for_seats p (S i) rest) env4 db5
        | inr db6 =>
            (inr (mkAssignment (seatNumber seat) (seat_id seat) unsafe
                    (Some (S i))), db6)
        end
    end.
Proof.
  simpl.
  destruct (intrude env db) as [db1 env1].
  destruct (intrude env1 db1) as [db2 env2].
  destruct (not_available _); [done|]. simpl.
  destruct (intrude env2 db2) as [db3 env3].
  destruct (seat_update _ _ _ db3) as [e|db4]; [done|]. simpl.
  destruct (intrude env3 db4) as [db5 env4].
  destruct (booking_update _ _ _ db5) as [e|db6]; done.
Qed.

Lemma run_unsafe_body p fid env db :
  run_env (body_of (selectNextAvailableSeatUnsafe p fid)) env db =
  let '(db1, env1) := intrude env db in
  match booking_findUnique p db1 with
  | None => (inl InvalidPNR, db1)
  | Some b =>
      let '(db2, env2) := intrude env1 db1 in
      let availableSeats := seat_findMany (or_else fid (booking_flightId b)) 5 db2 in
      if decide (length availableSeats = 0%nat) then (inl NoSeatsAvailable, db2)
      else run_env (for_seats p 0 availableSeats) env2 db2
  end.
Proof.
  simpl. destruct (intrude env db) as [db1 env1].
  destruct (booking_findUnique p db1) as [b|]; [|done]. simpl.
  destruct (intrude env1 db1) as [db2 env2].
  by destruct (decide _).
Qed.

Lemma exec_reset db :
  exec resetAllSeats db =
  (inr (length (seats db)), booking_updateMany false (seat_updateMany true db)).
Proof.
  unfold exec, transaction, run. simpl. unfold seat_count. simpl.
  by rewrite length_fmap.
Qed.

(** ** Small facts on lists *)

Lemma filter_all {A} (P : A → Prop) `{∀ x, Decision (P x)} (l : list A) :
  Forall P l → filter P l = l.
Proof.
  induction 1 as [|x l Hx _ IH]; [done|].
  by rewrite filter_cons_True, IH.
Qed.

Lemma filter_fmap_commute {A} (P : A → Prop) `{∀ x, Decision (P x)}
    (f : A → A) (l : list A) :
  (∀ x, P (f x) ↔ P x) → filter P (f <$> l) = f <$> filter P l.
Proof.
  intros HP. induction l as [|x l IH]; [done|]. csimpl.
  rewrite !filter_cons.
  destruct (decide (P (f x))) as [Hfx|Hfx], (decide (P x)) as [Hx|Hx];
    csimpl; rewrite ?IH; try done.
  - destruct Hx. by apply HP.
  - destruct Hfx. by apply HP.
Qed.

(** ** Administrative reset *)

(** C7. After the reset-all transaction every seat is available and every
    booking has a null seat and [checkedIn = false]; the transaction
    resolves to the number of seats, which is then also the number of
    available seats, and the seat map of any flight counts as available
    every seat the flight has. *)
Theorem reset_all_seats_restores db fn flight flight_seats :
  flight_findUnique fn db = Some (flight, flight_seats) →
  ∃ db' m,
    exec resetAllSeats db = (inr (length (seats db)), db') ∧
    Forall (λ s, isAvailable s = true) (seats db') ∧
    length (seats db') = length (seats db) ∧
    length (filter (λ s, isAvailable s = true) (seats db'))
      = length (seats db) ∧
    Forall (λ b, seatId b = None ∧ checkedIn b = false) (bookings db') ∧
    length (bookings db') = length (bookings db) ∧
    exec (getFlightSeatMap fn) db' = (inr m, db') ∧
    availableCount m = length (sm_seats m) ∧
    length (sm_seats m) = length flight_seats.
Proof.
  intros Hfl. rewrite exec_reset.
  set (db' := booking_updateMany false (seat_updateMany true db)).
  assert (Forall (λ s, isAvailable s = true) (seats db')) as Hall.
  { subst db'. simpl. apply Forall_fmap, Forall_true. done. }
  unfold flight_findUnique in Hfl.
  destruct (head (filter _ (flights db))) as [f|] eqn:Hf; [|done].
  simplify_eq.
  eexists db', _. split_and!; [done|done| | |..].
  - subst db'. simpl. by rewrite length_fmap.
  - rewrite (filter_all _ _ Hall). subst db'. simpl. by rewrite length_fmap.
  - subst db'. simpl. apply Forall_fmap, Forall_true. done.
  - subst db'. simpl. by rewrite length_fmap.
  - unfold exec, run. simpl. unfold flight_findUnique.
    replace (flights db') with (flights db) by done. rewrite Hf. done.
  - simpl. f_equal. apply filter_all.
    rewrite merge_sort_Permutation.
    apply Forall_forall. intros s [_ Hs]%list_elem_of_filter.
    by eapply Forall_forall in Hall.
  - simpl. rewrite !merge_sort_Permutation. subst db'. simpl.
    rewrite (filter_fmap_commute _ (set_available true)) by done.
    by rewrite length_fmap.
Qed.

(** Reset after PNR001 and PNR002 have checked in. *)
Lemma reset_all_seats_restores_witness :
  let db := (safe_sequence [("PNR001", None); ("PNR002", None)] Sample.db0).2 in
  ∃ db' m,
    exec resetAllSeats db = (inr 4%nat, db') ∧
    Forall (λ s, isAvailable s = true) (seats db') ∧
    length (seats db') = 4%nat ∧
    length (filter (λ s, isAvailable s = true) (seats db')) = 4%nat ∧
    Forall (λ b, seatId b = None ∧ checkedIn b = false) (bookings db') ∧
    length (bookings db') = 4%nat ∧
    exec (getFlightSeatMap "AA123") db' = (inr m, db') ∧
    availableCount m = length (sm_seats m) ∧
    length (sm_seats m) = 3%nat.
Proof.
  cbv zeta.
  apply (reset_all_seats_restores
           (safe_sequence [("PNR001", None); ("PNR002", None)] Sample.db0).2
           "AA123" (mkFlight 1 "AA123" 3)
           [set_available false Sample.s10A; set_available false Sample.s10B;
            Sample.s10C]).
  vm_compute. reflexivity.
Defined.

(** ** What the two writes change *)

Lemma seat_update_inv id g a db db' :
  seat_update id g a db = inr db' →
  db' = seat_write id g a db ∧ Exists (seat_matches id g) (seats db).
Proof. unfold seat_update. case_decide; naive_solver. Qed.

Lemma booking_update_inv p sid ci db db' :
  booking_update p sid ci db = inr db' →
  db' = booking_write p sid ci db ∧
  Exists (λ b, pnr b = p) (bookings db) ∧ unique_ok p sid db.
Proof. unfold booking_update. repeat case_decide; naive_solver. Qed.

Lemma booking_update_err p sid ci db e :
  booking_update p sid ci db = inl e →
  (e = RecordNotFound ∧ booking_findUnique p db = None) ∨
  (e = UniqueConstraintFailed ∧ ∃ s, sid = Some s ∧ seat_taken_by_other p s db).
Proof.
  unfold booking_update. destruct (decide (Exists _ _)) as [Hex|Hex].
  - case_decide as Hu; [done|]. intros ?; simplify_eq. right. split; [done|].
    destruct sid as [s|]; [|by destruct Hu]. exists s. split; [done|].
    unfold unique_ok in Hu. by apply dec_stable.
  - intros ?; simplify_eq. left. split; [done|].
    unfold booking_findUnique.
    destruct (filter _ _) as [|b l] eqn:Hf; [done|].
    destruct Hex. apply Exists_exists. exists b.
    assert (b ∈ filter (λ b, pnr b = p) (bookings db)) as Hb
      by (rewrite Hf; left).
    apply list_elem_of_filter in Hb as [Hp Hin]. eauto.
Qed.

Lemma seats_booking_write p sid ci db :
  seats (booking_write p sid ci db) = seats db.
Proof. done. Qed.

Lemma booking_findUnique_seat_write p id g a db :
  booking_findUnique p (seat_write id g a db) = booking_findUnique p db.
Proof. done. Qed.

Lemma head_filter_fmap {A} (P : A → Prop) `{∀ x, Decision (P x)}
    (f : A → A) (l : list A) :
  (∀ x, P (f x) ↔ P x) →
  head (filter P (f <$> l)) = f <$> head (filter P l).
Proof.
  intros HP. rewrite (filter_fmap_commute P f l HP).
  by destruct (filter P l).
Qed.

(** The booking a write addresses carries the new binding afterwards; the
    other bookings are as before. *)
Lemma booking_findUnique_booking_write p sid ci q db :
  booking_findUnique q (booking_write p sid ci db) =
  (λ b, if decide (pnr b = p) then set_binding sid ci b else b)
    <$> booking_findUnique q db.
Proof.
  unfold booking_findUnique, booking_write. simpl.
  apply head_filter_fmap. intros b. by case_decide.
Qed.

Lemma booking_findUnique_pnr p db b :
  booking_findUnique p db = Some b → pnr b = p ∧ b ∈ bookings db.
Proof.
  unfold booking_findUnique. intros Hh.
  apply head_Some_elem_of, list_elem_of_filter in Hh. done.
Qed.

Lemma booking_findUnique_bound p sid ci db b :
  booking_findUnique p db = Some b →
  booking_findUnique p (booking_write p sid ci db) = Some (set_binding sid ci b).
Proof.
  intros Hb. rewrite booking_findUnique_booking_write, Hb. simpl.
  apply booking_findUnique_pnr in Hb as [-> _]. by rewrite decide_True.
Qed.

Lemma booking_findUnique_other p q sid ci db :
  p ≠ q →
  booking_findUnique q (booking_write p sid ci db) = booking_findUnique q db.
Proof.
  intros Hne. rewrite booking_findUnique_booking_write.
  destruct (booking_findUnique q db) as [b|] eqn:Hb; [|done]. simpl.
  apply booking_findUnique_pnr in Hb as [Hq _]. rewrite decide_False; congruence.
Qed.

Lemma booking_update_ok p sid ci db :
  Exists (λ b, pnr b = p) (bookings db) → unique_ok p sid db →
  booking_update p sid ci db = inr (booking_write p sid ci db).
Proof. intros. unfold booking_update. by rewrite !decide_True. Qed.

Lemma seat_update_ok id g a db :
  Exists (seat_matches id g) (seats db) →
  seat_update id g a db = inr (seat_write id g a db).
Proof. intros. unfold seat_update. by rewrite decide_True. Qed.

Lemma booking_findUnique_Exists p db b :
  booking_findUnique p db = Some b → Exists (λ b, pnr b = p) (bookings db).
Proof.
  intros [? ?]%booking_findUnique_pnr. apply Exists_exists. eauto.
Qed.

Lemma free_seat_unique_ok p db seat :
  bound_seats_unavailable db → seat ∈ seats db → isAvailable seat = true →
  unique_ok p (Some (seat_id seat)) db.
Proof.
  intros Hb Hin Hav (b & Hbin & _ & Hsid)%Exists_exists.
  eapply Forall_forall in Hb; [|exact Hin].
  rewrite Hb in Hav; [done|]. apply Exists_exists. eauto.
Qed.

(** ** The unsafe loop run alone *)

Lemma flags_cleared_refl db : flags_cleared db db.
Proof. apply Forall2_same_length_lookup_2; [done|]. intros; simplify_eq. by left. Qed.

Lemma flags_cleared_trans db1 db2 db3 :
  flags_cleared db1 db2 → flags_cleared db2 db3 → flags_cleared db1 db3.
Proof.
  unfold flags_cleared. intros H12 H23.
  eapply Forall2_trans; [|done..].
  intros s1 s2 s3 [->| ->] [->| ->]; auto.
Qed.

Lemma flags_cleared_seat_write id g db :
  flags_cleared db (seat_write id g false db).
Proof.
  unfold flags_cleared, seat_write, with_seats. cbn [seats].
  apply Forall2_fmap_r, Forall_Forall2_diag.
  apply Forall_true. intros s. unfold compose. case_decide; auto.
Qed.

(** Where a call of the loop that meets no interference ends: bound to
    one of the candidates, or out of candidates. *)
Lemma run_for_seats_alone p cands i db :
  match run (for_seats p i cands) db with
  | (inr a, db') =>
      ∃ seat db1,
        seat ∈ cands ∧ a_seatId a = seat_id seat ∧
        a_seatNumber a = seatNumber seat ∧ a_method a = unsafe ∧
        bookings db1 = bookings db ∧ flags_cleared db db1 ∧
        booking_update p (Some (seat_id seat)) true db1 = inr db'
  | (inl e, db') =>
      e = AllAttemptsFailed ∧ bookings db' = bookings db ∧ flags_cleared db db'
  end.
Proof.
  unfold run. revert i db. induction cands as [|seat rest IH]; intros i db.
  { simpl. eauto using flags_cleared_refl. }
  rewrite run_for_seats_cons. simpl.
  assert (∀ db1, bookings db1 = bookings db → flags_cleared db db1 →
    match run_env (for_seats p (S i) rest) [] db1 with
    | (inr a, db') =>
        ∃ seat0 db2,
          seat0 ∈ seat :: rest ∧ a_seatId a = seat_id seat0 ∧
          a_seatNumber a = seatNumber seat0 ∧ a_method a = unsafe ∧
          bookings db2 = bookings db ∧ flags_cleared db db2 ∧
          booking_update p (Some (seat_id seat0)) true db2 = inr db'
    | (inl e, db') =>
        e = AllAttemptsFailed ∧ bookings db' = bookings db ∧ flags_cleared db db'
    end) as Hrest.
  { intros db1 Hb Hfc. specialize (IH (S i) db1).
    destruct (run_env _ [] db1) as [[e|a] db'].
    - destruct IH as (-> & Hb' & Hfc'). split_and!; [done|congruence|].
      by eapply flags_cleared_trans.
    - destruct IH as (seat0 & db2 & ? & ? & ? & ? & Hb' & Hfc' & ?).
      exists seat0, db2. split_and!; try done.
      + by right.
      + congruence.
      + by eapply flags_cleared_trans. }
  destruct (not_available _).
  { apply Hrest; [done|apply flags_cleared_refl]. }
  destruct (seat_update _ _ _ db) as [e|db4] eqn:Hsu.
  { apply Hrest; [done|apply flags_cleared_refl]. }
  apply seat_update_inv in Hsu as [-> _].
  destruct (booking_update _ _ _ _) as [e|db6] eqn:Hbu.
  { apply Hrest; [done|apply flags_cleared_seat_write]. }
  exists seat, (seat_write (seat_id seat) (Some true) false db).
  split_and!; try done; [by left|apply flags_cleared_seat_write].
Qed.

(** ** One call, alone *)

Lemma exec_safe p fid db :
  exec (selectNextAvailableSeatSafe p fid) db =
  transaction (body_of (selectNextAvailableSeatSafe p fid)) db.
Proof. done. Qed.

Lemma exec_unsafe p fid db :
  exec (selectNextAvailableSeatUnsafe p fid) db =
  run_env (body_of (selectNextAvailableSeatUnsafe p fid)) [] db.
Proof. done. Qed.

Lemma or_else_cases fid d :
  (∀ f, fid = Some f → f ≠ 0 → or_else fid d = f) ∧
  (fid = None ∨ fid = Some 0 → or_else fid d = d).
Proof.
  split.
  - intros f -> Hf. unfold or_else. by rewrite decide_False.
  - intros [-> | ->]; done.
Qed.

(** ** Failure of the safe policy *)

(** A transaction whose callback throws leaves the store as it was. *)
Lemma transaction_failure {A} (c : Prog A) db e db' :
  exec (InTransaction c) db = (inl e, db') → db' = db.
Proof.
  unfold exec, transaction.
  destruct (run c db) as [[e'|a] db1]; intros ?; by simplify_eq.
Qed.

(** C3. A call of the safe policy that fails, with whatever error, leaves
    the store as it found it: every seat's flag and the requester's
    booking are unchanged. *)
Theorem safe_failure_leaves_store p fid db e db' :
  exec (selectNextAvailableSeatSafe p fid) db = (inl e, db') →
  db' = db ∧
  isAvailable <$> seats db' = isAvailable <$> seats db ∧
  booking_findUnique p db' = booking_findUnique p db ∧
  (e = InvalidPNR ∨ e = NoSeatsOrLocked ∨
   e = RecordNotFound ∨ e = UniqueConstraintFailed).
Proof.
  intros Hex. pose proof (transaction_failure _ _ _ _ Hex) as ->.
  split_and!; [done..|].
  rewrite exec_safe in Hex. unfold transaction in Hex.
  rewrite run_safe_body in Hex.
  destruct (booking_findUnique p db) as [b|]; [|simplify_eq; auto].
  destruct (seat_findMany _ 1 db) as [|seat l]; [simplify_eq; auto|].
  destruct (seat_update _ _ _ db) as [e1|db1] eqn:Hsu.
  { unfold seat_update in Hsu. case_decide; simplify_eq. auto. }
  destruct (booking_update _ _ _ db1) as [e2|db2] eqn:Hbu; [|done].
  apply booking_update_err in Hbu as [[-> _]|[-> _]]; simplify_eq; auto.
Qed.

(** How the stale store comes about: PNR002 calls the unsafe policy on
    [db_two]; a reset-all goes through after its seat update and before
    its binding write. *)
Lemma db_stale_arises :
  run_env (body_of (selectNextAvailableSeatUnsafe "PNR002" None))
          [id; id; id; id; id; λ db, (exec resetAllSeats db).2] Sample.db_two
  = (inr (mkAssignment "10A" 1 unsafe (Some 1%nat)), Sample.db_stale).
Proof. by vm_compute. Qed.

(** The rollback matters: the callback alone has flipped the seat by the
    time the binding write is rejected. *)
Lemma safe_callback_partial_state :
  run (body_of (selectNextAvailableSeatSafe "PNR001" None)) Sample.db_stale
    = (inl UniqueConstraintFailed,
       seat_write 1 None false Sample.db_stale) ∧
  seat_write 1 None false Sample.db_stale ≠ Sample.db_stale.
Proof. split; [by vm_compute|]. by vm_compute. Qed.

Lemma safe_failure_leaves_store_witness :
  Sample.db_stale = Sample.db_stale ∧
  isAvailable <$> seats Sample.db_stale = isAvailable <$> seats Sample.db_stale ∧
  booking_findUnique "PNR001" Sample.db_stale
    = booking_findUnique "PNR001" Sample.db_stale ∧
  (UniqueConstraintFailed = InvalidPNR ∨
   UniqueConstraintFailed = NoSeatsOrLocked ∨
   UniqueConstraintFailed = RecordNotFound ∨
   UniqueConstraintFailed = UniqueConstraintFailed).
Proof.
  apply (safe_failure_leaves_store "PNR001" None Sample.db_stale
           UniqueConstraintFailed Sample.db_stale).
  vm_compute. reflexivity.
Defined.

(** ** The invariant of the design *)

Lemma reset_establishes_invariant db :
  state_invariant (exec resetAllSeats db).2.
Proof.
  rewrite exec_reset. simpl.
  assert (∀ id, ¬ bound id (booking_updateMany false (seat_updateMany true db)))
    as Hnb.
  { intros id. unfold bound. simpl. rewrite Exists_fmap.
    intros (b & _ & Hb)%Exists_exists. done. }
  split.
  - unfold bookings_seatId_key. simpl.
    replace (omap seatId (set_binding None false <$> bookings db))
      with (@nil Z); [constructor|].
    induction (bookings db) as [|b l IH]; [done|]. by csimpl.
  - apply Forall_fmap, Forall_true. intros s. split; [done|].
    intros Hb. by apply Hnb in Hb.
Qed.

(** C2 (the code breaks it). PNR001 holds seat 10A and the invariant
    holds; PNR001 then calls either policy again.  The call succeeds with
    seat 10B, and seat 10A is left unavailable with no binding that
    references it: the invariant no longer holds. *)
Theorem rebinding_orphans_seat :
  let db1 := (exec (selectNextAvailableSeatSafe "PNR001" None) Sample.db0).2 in
  state_invariant Sample.db0 ∧
  state_invariant db1 ∧
  bound 1 db1 ∧
  ∀ m, ∃ a db2,
    exec (select m "PNR001" None) db1 = (inr a, db2) ∧
    a_seatNumber a = "10B" ∧
    seat_findUnique 1 db2 = Some (mkSeat 1 1 "10A" false) ∧
    ¬ bound 1 db2 ∧
    ¬ state_invariant db2.
Proof.
  cbv zeta. split_and!.
  - apply (bool_decide_eq_true_1 _). by vm_compute.
  - apply (bool_decide_eq_true_1 _). by vm_compute.
  - apply (bool_decide_eq_true_1 _). by vm_compute.
  - intros [|]; eexists _, _; (split_and!; [by vm_compute|done|done|..]);
      apply (bool_decide_eq_false_1 _); by vm_compute.
Qed.

(** ** The unsafe policy under interference *)

(** Whatever the other requests do, the loop binds one of its candidates
    or runs out of them: no error of a turn leaves the loop.  A call bound
    to the candidate at position [k] has lost the [k] turns before it. *)
Lemma run_env_for_seats p cands i env db :
  match (run_env (for_seats p i cands) env db).1 with
  | inr a =>
      ∃ k seat, cands !! k = Some seat ∧
                a = mkAssignment (seatNumber seat) (seat_id seat) unsafe
                      (Some (S (i + k)))
  | inl e => e = AllAttemptsFailed
  end.
Proof.
  revert i env db. induction cands as [|seat rest IH]; intros i env db; [done|].
  assert (∀ env' db',
    match (run_env (for_seats p (S i) rest) env' db').1 with
    | inr a =>
        ∃ k seat0, (seat :: rest) !! k = Some seat0 ∧
                   a = mkAssignment (seatNumber seat0) (seat_id seat0) unsafe
                         (Some (S (i + k)))
    | inl e => e = AllAttemptsFailed
    end) as Hrest.
  { intros env' db'. specialize (IH (S i) env' db').
    destruct (run_env _ env' db').1 as [e|a]; [done|].
    destruct IH as (k & seat0 & Hk & ->). exists (S k), seat0.
    split; [done|]. by rewrite Nat.add_succ_r. }
  rewrite run_for_seats_cons.
  destruct (intrude env db) as [db1 env1].
  destruct (intrude env1 db1) as [db2 env2].
  destruct (not_available _); [apply Hrest|].
  destruct (intrude env2 db2) as [db3 env3].
  destruct (seat_update _ _ _ db3) as [e|db4]; [apply Hrest|].
  destruct (intrude env3 db4) as [db5 env4].
  destruct (booking_update _ _ _ db5) as [e|db6]; [apply Hrest|].
  simpl. exists 0%nat, seat. split; [done|]. by rewrite Nat.add_0_r.
Qed.

(** A call of the unsafe policy fails in one of three ways only. *)
Lemma unsafe_errors p fid env db e db' :
  run_env (body_of (selectNextAvailableSeatUnsafe p fid)) env db = (inl e, db') →
  e = InvalidPNR ∨ e = NoSeatsAvailable ∨ e = AllAttemptsFailed.
Proof.
  rewrite run_unsafe_body.
  destruct (intrude env db) as [db1 env1].
  destruct (booking_findUnique p db1) as [b|]; [|intros ?; simplify_eq; auto].
  destruct (intrude env1 db1) as [db2 env2]. cbv zeta.
  case_decide; [intros ?; simplify_eq; auto|]. intros Hrun.
  pose proof (run_env_for_seats p
    (seat_findMany (or_else fid (booking_flightId b)) 5 db2) 0 env2 db2)
    as Hloop.
  rewrite Hrun in Hloop. auto.
Qed.

Lemma seat_findMany_window fid n db :
  (length (seat_findMany fid n db) ≤ n)%nat ∧
  StronglySorted seat_le (seat_findMany fid n db) ∧
  Forall (λ s, s ∈ seats db ∧ open_on fid s) (seat_findMany fid n db).
Proof.
  split_and!.
  - unfold seat_findMany. rewrite length_take. lia.
  - unfold seat_findMany.
    pose proof (available_seats_sorted fid db) as Hs.
    rewrite <-(take_drop n (available_seats fid db)) in Hs.
    by apply StronglySorted_app_1_l in Hs.
  - apply Forall_forall. intros s. apply elem_of_seat_findMany.
Qed.

Lemma list_find_cons_shift {A} (P : A → Prop) `{∀ x, Decision (P x)} x (l : list A) :
  list_find P (x :: l) =
  if decide (P x) then Some (0%nat, x)
  else prod_map S id <$> list_find P l.
Proof. done. Qed.

(** The loop run with nothing else going on, on a store whose bound seats
    are flagged and that holds the requester's booking: it binds the
    first candidate that is still available, at the attempt that its
    position gives, and fails when none is. *)
Lemma run_for_seats_first_free p d :
  bound_seats_unavailable d → is_Some (booking_findUnique p d) →
  ∀ cands i,
  run (for_seats p i cands) d =
  match list_find (λ s, not_available (seat_findUnique (seat_id s) d) = false)
          cands with
  | None => (inl AllAttemptsFailed, d)
  | Some (k, seat) =>
      (inr (mkAssignment (seatNumber seat) (seat_id seat) unsafe
              (Some (S (i + k)))),
       booking_write p (Some (seat_id seat)) true
         (seat_write (seat_id seat) (Some true) false d))
  end.
Proof.
  intros Hbd [b Hb]. induction cands as [|seat rest IH]; intros i; [done|].
  unfold run in *. rewrite run_for_seats_cons. cbn [intrude].
  rewrite list_find_cons_shift.
  destruct (not_available (seat_findUnique (seat_id seat) d)) eqn:Hav.
  - rewrite decide_False by done. rewrite IH.
    destruct (list_find _ rest) as [[k s]|]; [|done]. cbn.
    by rewrite Nat.add_succ_r.
  - rewrite decide_True by done. rewrite Nat.add_0_r.
    unfold not_available in Hav.
    destruct (seat_findUnique (seat_id seat) d) as [s|] eqn:Hs; [|done].
    apply negb_false_iff in Hav.
    unfold seat_findUnique in Hs. apply head_Some_elem_of in Hs.
    apply list_elem_of_filter in Hs as [Hid Hin].
    rewrite seat_update_ok
      by (apply Exists_exists; exists s; by repeat split).
    rewrite booking_update_ok; [done| |].
    + by eapply booking_findUnique_Exists.
    + rewrite <-Hid. exact (free_seat_unique_ok p d s Hbd Hin Hav).
Qed.

(** What arrives during the first sleep of a loop that has a candidate
    might as well have been there before. *)
Lemma run_env_for_seats_one p i seat rest g db :
  run_env (for_seats p i (seat :: rest)) [g] db
  = run (for_seats p i (seat :: rest)) (g db).
Proof. unfold run. by rewrite !run_for_seats_cons. Qed.

(** C5. The unsafe policy reads a window of at most 5 available seats of
    the pool, those with the least seat numbers, in ascending order
    ([f1] and [f2] are what the other requests commit before the booking
    and the window are read, [env] what they commit later).  An empty
    window fails the call with "No seats available" (pool exhausted).
    With a non-empty window the call is the loop over the window, and,
    whatever the other requests do, it ends bound to a candidate, at the
    attempt that the candidate's position gives, or with "Unable to
    assign any seat" (exhausted candidates), a different kind with a
    different message.  When the other requests take seats while the
    call sleeps before its first check ([g]), the call passes over the
    candidates that are gone and binds the first one still available, and
    fails with exhausted candidates when all are gone.  A turn is lost, and
    the loop goes on with the next candidate, when the candidate is found
    unavailable, when its seat update is rejected and when its binding
    write is rejected. *)
Theorem unsafe_window_and_failures p fid b f1 f2 g db :
  let pool := or_else fid (booking_flightId b) in
  let db2 := f2 (f1 db) in
  let window := seat_findMany pool 5 db2 in
  let call := λ env,
    run_env (body_of (selectNextAvailableSeatUnsafe p fid)) (f1 :: f2 :: env) db in
  fits fid →
  booking_findUnique p (f1 db) = Some b →
  bound_seats_unavailable (g db2) →
  is_Some (booking_findUnique p (g db2)) →
  (window = take 5 (available_seats pool db2) ∧
   (length window ≤ 5)%nat ∧
   StronglySorted seat_le window ∧
   Forall (λ s, s ∈ seats db2 ∧ open_on pool s) window ∧
   ∀ w s, w ∈ window → s ∈ seats db2 → open_on pool s → s ∉ window →
          seat_le w s) ∧
  (∀ env, window = [] →
     call env = (inl NoSeatsAvailable, db2) ∧
     kind NoSeatsAvailable = PoolExhausted) ∧
  (∀ env, window ≠ [] →
     call env = run_env (for_seats p 0 window) env db2 ∧
     match (call env).1 with
     | inr a =>
         ∃ k seat, window !! k = Some seat ∧
                   a = mkAssignment (seatNumber seat) (seat_id seat) unsafe
                         (Some (S k))
     | inl e =>
         e = AllAttemptsFailed ∧ kind e = ExhaustedCandidates ∧
         kind e ≠ PoolExhausted ∧ message e ≠ message NoSeatsAvailable
     end) ∧
  (window ≠ [] →
     match list_find
             (λ s, not_available (seat_findUnique (seat_id s) (g db2)) = false)
             window with
     | None => call [g] = (inl AllAttemptsFailed, g db2)
     | Some (k, seat) =>
         call [g] =
         (inr (mkAssignment (seatNumber seat) (seat_id seat) unsafe
                 (Some (S k))),
          booking_write p (Some (seat_id seat)) true
            (seat_write (seat_id seat) (Some true) false (g db2)))
     end) ∧
  (∀ i seat rest g1 g2 g3 g4 env d,
     let d2 := g2 (g1 d) in
     let d3 := g3 d2 in
     let turn :=
       run_env (for_seats p i (seat :: rest)) (g1 :: g2 :: g3 :: g4 :: env) d in
     let next := run_env (for_seats p (S i) rest) in
     (not_available (seat_findUnique (seat_id seat) d2) = true →
      turn = next (g3 :: g4 :: env) d2) ∧
     (not_available (seat_findUnique (seat_id seat) d2) = false →
      (∀ e, seat_update (seat_id seat) (Some true) false d3 = inl e →
            turn = next (g4 :: env) d3) ∧
      (∀ d4, seat_update (seat_id seat) (Some true) false d3 = inr d4 →
         (∀ e, booking_update p (Some (seat_id seat)) true (g4 d4) = inl e →
               turn = next env (g4 d4)) ∧
         (∀ d6, booking_update p (Some (seat_id seat)) true (g4 d4) = inr d6 →
                turn = (inr (mkAssignment (seatNumber seat) (seat_id seat)
                               unsafe (Some (S i))), d6)))) ∧
     run_env (for_seats p i []) env d = (inl AllAttemptsFailed, d)).
Proof.
  intros pool db2 window call _ Hb Hbd Hstill.
  assert (∀ env, call env =
    if decide (length window = 0%nat) then (inl NoSeatsAvailable, db2)
    else run_env (for_seats p 0 window) env db2) as Hcall.
  { intros env. unfold call. rewrite run_unsafe_body. cbn [intrude].
    by rewrite Hb. }
  destruct (seat_findMany_window pool 5 db2) as (Hlen & Hsort & Hall).
  split_and!.
  - done.
  - done.
  - done.
  - done.
  - intros w s Hw Hs Hopen Hout.
    assert (s ∈ available_seats pool db2) as Hs'
      by by apply elem_of_available_seats.
    pose proof (available_seats_sorted pool db2) as Hsorted.
    rewrite <-(take_drop 5 (available_seats pool db2)) in Hs', Hsorted.
    apply elem_of_app in Hs' as [Hs'|Hs']; [done|].
    by eapply (StronglySorted_app_1_elem_of seat_le).
  - intros env Hw. rewrite Hcall, Hw. done.
  - intros env Hw. rewrite Hcall.
    rewrite decide_False by (by destruct window).
    split; [done|].
    pose proof (run_env_for_seats p window 0 env db2) as Hloop.
    destruct (run_env _ env db2).1 as [e|a]; [by subst e|done].
  - intros Hw. rewrite Hcall.
    rewrite decide_False by (by destruct window).
    destruct window as [|seat rest] eqn:Hwin; [done|].
    rewrite run_env_for_seats_one.
    rewrite (run_for_seats_first_free p (g db2) Hbd Hstill).
    by destruct (list_find _ (seat :: rest)) as [[k s]|].
  - intros i seat rest g1 g2 g3 g4 env d d2 d3 turn next.
    unfold turn. rewrite run_for_seats_cons. cbn [intrude]. fold d2 d3.
    split_and!.
    + by intros ->.
    + intros ->. split.
      * by intros e ->.
      * intros d4 ->. split; [by intros e ->|by intros d6 ->].
    + done.
Qed.

(** PNR001 reads the window 10A, 10B, 10C; while it sleeps before its
    first check, PNR002 and PNR003 take 10A and 10B: the call passes over
    both and binds 10C at its third attempt. *)
Lemma unsafe_window_and_failures_witness :
  let p := "PNR001" in
  let fid : option Z := None in
  let b := mkBooking "PNR001" 1 None false in
  let g : DB → DB := λ db,
    (safe_sequence [("PNR002", None); ("PNR003", None)] db).2 in
  let db := Sample.db0 in
  let pool := or_else fid (booking_flightId b) in
  let db2 := db in
  let window := seat_findMany pool 5 db2 in
  let call := λ env,
    run_env (body_of (selectNextAvailableSeatUnsafe p fid)) (id :: id :: env) db in
  (fits fid ∧
   booking_findUnique p db = Some b ∧
   bound_seats_unavailable (g db2) ∧
   is_Some (booking_findUnique p (g db2))) ∧
  (window = take 5 (available_seats pool db2) ∧
   (length window ≤ 5)%nat ∧
   StronglySorted seat_le window ∧
   Forall (λ s, s ∈ seats db2 ∧ open_on pool s) window ∧
   ∀ w s, w ∈ window → s ∈ seats db2 → open_on pool s → s ∉ window →
          seat_le w s) ∧
  (∀ env, window = [] →
     call env = (inl NoSeatsAvailable, db2) ∧
     kind NoSeatsAvailable = PoolExhausted) ∧
  (∀ env, window ≠ [] →
     call env = run_env (for_seats p 0 window) env db2 ∧
     match (call env).1 with
     | inr a =>
         ∃ k seat, window !! k = Some seat ∧
                   a = mkAssignment (seatNumber seat) (seat_id seat) unsafe
                         (Some (S k))
     | inl e =>
         e = AllAttemptsFailed ∧ kind e = ExhaustedCandidates ∧
         kind e ≠ PoolExhausted ∧ message e ≠ message NoSeatsAvailable
     end) ∧
  (window ≠ [] →
     call [g] =
     (inr (mkAssignment "10C" 3 unsafe (Some 3%nat)),
      booking_write p (Some 3) true (seat_write 3 (Some true) false (g db2)))) ∧
  (∀ i seat rest g1 g2 g3 g4 env d,
     let d2 := g2 (g1 d) in
     let d3 := g3 d2 in
     let turn :=
       run_env (for_seats p i (seat :: rest)) (g1 :: g2 :: g3 :: g4 :: env) d in
     let next := run_env (for_seats p (S i) rest) in
     (not_available (seat_findUnique (seat_id seat) d2) = true →
      turn = next (g3 :: g4 :: env) d2) ∧
     (not_available (seat_findUnique (seat_id seat) d2) = false →
      (∀ e, seat_update (seat_id seat) (Some true) false d3 = inl e →
            turn = next (g4 :: env) d3) ∧
      (∀ d4, seat_update (seat_id seat) (Some true) false d3 = inr d4 →
         (∀ e, booking_update p (Some (seat_id seat)) true (g4 d4) = inl e →
               turn = next env (g4 d4)) ∧
         (∀ d6, booking_update p (Some (seat_id seat)) true (g4 d4) = inr d6 →
                turn = (inr (mkAssignment (seatNumber seat) (seat_id seat)
                               unsafe (Some (S i))), d6)))) ∧
     run_env (for_seats p i []) env d = (inl AllAttemptsFailed, d)).
Proof.
  cbv zeta.
  set (g := λ db : DB,
    (safe_sequence [("PNR002", None); ("PNR003", None)] db).2).
  assert (bound_seats_unavailable (g Sample.db0)) as Hbd
    by (apply (bool_decide_eq_true_1 _); by vm_compute).
  assert (is_Some (booking_findUnique "PNR001" (g Sample.db0))) as Hstill
    by (apply (bool_decide_eq_true_1 _); by vm_compute).
  split; [split_and!; [done|by vm_compute|done|done]|].
  exact (unsafe_window_and_failures "PNR001" None
           (mkBooking "PNR001" 1 None false) id id g Sample.db0
           I eq_refl Hbd Hstill).
Defined.

(** ** A binding write that the store rejects *)

Lemma flags_cleared_all_unavailable id db db' :
  flags_cleared db db' → all_unavailable id db → all_unavailable id db'.
Proof.
  unfold flags_cleared, all_unavailable. intros Hfc Hall.
  induction Hfc as [|s s' l l' Hs _ IH]; [done|].
  apply Forall_cons in Hall as [Hs0 Hall].
  constructor; [|by apply IH].
  destruct Hs as [->| ->]; done.
Qed.

Lemma seat_write_all_unavailable id db :
  all_unavailable id (seat_write id (Some true) false db).
Proof.
  unfold all_unavailable, seat_write, with_seats. cbn [seats].
  apply Forall_fmap, Forall_true. intros s. unfold compose.
  case_decide as Hm; [done|]. intros Hid.
  unfold seat_matches in Hm. destruct (isAvailable s) eqn:Hs; [|done].
  destruct Hm. done.
Qed.

Lemma run_for_seats_rejected_env p i seat rest f1 f2 f3 f4 env db db4 e :
  not_available (seat_findUnique (seat_id seat) (f2 (f1 db))) = false →
  seat_update (seat_id seat) (Some true) false (f3 (f2 (f1 db))) = inr db4 →
  booking_update p (Some (seat_id seat)) true (f4 db4) = inl e →
  run_env (for_seats p i (seat :: rest)) (f1 :: f2 :: f3 :: f4 :: env) db =
  run_env (for_seats p (S i) rest) env (f4 db4).
Proof.
  intros Hav Hsu Hbu. rewrite run_for_seats_cons. cbn [intrude].
  by rewrite Hav, Hsu, Hbu.
Qed.

(** The loop binds a later candidate or runs out of them. *)
Lemma run_env_for_seats_later p rest i env db :
  match (run_env (for_seats p (S i) rest) env db).1 with
  | inr a =>
      ∃ k seat', rest !! k = Some seat' ∧
                 a = mkAssignment (seatNumber seat') (seat_id seat') unsafe
                       (Some (S (S i + k)))
  | inl e' => e' = AllAttemptsFailed
  end.
Proof. apply run_env_for_seats. Qed.

(** C4 (as the code has it). A binding write that the store rejects does
    not end the call, whatever the other requests do between its
    statements ([f1] to [f4] are what they commit before the four calls
    of the turn, [env] what they commit later): the [catch] of the loop
    takes the error and the loop goes on with the next candidate, from the
    store of the rejected write; the seat update that went before is not
    undone; and the call ends bound to a later candidate or with "Unable
    to assign any seat".  With a flight selector that fits the column, a
    call of the unsafe policy that fails does so with "Invalid PNR", "No
    seats available" or "Unable to assign any seat", never with the
    storage error. *)
Theorem rejected_binding_is_caught p fid i seat rest f1 f2 f3 f4 env db db4 e :
  let db3 := f3 (f2 (f1 db)) in
  let out :=
    run_env (for_seats p i (seat :: rest)) (f1 :: f2 :: f3 :: f4 :: env) db in
  fits fid →
  not_available (seat_findUnique (seat_id seat) (f2 (f1 db))) = false →
  seat_update (seat_id seat) (Some true) false db3 = inr db4 →
  booking_update p (Some (seat_id seat)) true (f4 db4) = inl e →
  out = run_env (for_seats p (S i) rest) env (f4 db4) ∧
  db4 = seat_write (seat_id seat) (Some true) false db3 ∧
  all_unavailable (seat_id seat) db4 ∧
  match out.1 with
  | inr a =>
      ∃ k seat', rest !! k = Some seat' ∧
                 a = mkAssignment (seatNumber seat') (seat_id seat') unsafe
                       (Some (S (S i + k)))
  | inl e' => e' = AllAttemptsFailed
  end ∧
  ∀ env0 db0,
    match (run_env (body_of (selectNextAvailableSeatUnsafe p fid)) env0 db0).1
    with
    | inr _ => True
    | inl e' =>
        kind e' ≠ StorageConstraintViolation ∧
        (e' = InvalidPNR ∨ e' = NoSeatsAvailable ∨ e' = AllAttemptsFailed)
    end.
Proof.
  intros db3 out _ Hav Hsu Hbu.
  assert (out = run_env (for_seats p (S i) rest) env (f4 db4)) as Hout
    by by eapply run_for_seats_rejected_env.
  apply seat_update_inv in Hsu as [Hdb4 _].
  split_and!; [done..| | |].
  - rewrite Hdb4. apply seat_write_all_unavailable.
  - rewrite Hout. apply run_env_for_seats_later.
  - intros env0 db0.
    destruct (run_env _ env0 db0) as [[e'|a] db'] eqn:Hrun; [|done].
    apply unsafe_errors in Hrun as Hk. split; [|done].
    destruct Hk as [->|[->| ->]]; done.
Qed.

(** PNR001 has flagged 10A; before its binding write a reset-all and a
    complete call of PNR002 go through, which binds 10A to PNR002. *)
Lemma rejected_binding_is_caught_witness :
  let others : DB → DB := λ db,
    (exec (selectNextAvailableSeatSafe "PNR002" None)
          (exec resetAllSeats db).2).2 in
  let cands := [Sample.s10B; Sample.s10C] in
  let db4 := seat_write 1 (Some true) false Sample.db0 in
  let out :=
    run_env (for_seats "PNR001" 0 (Sample.s10A :: cands))
            [id; id; id; others] Sample.db0 in
  (fits (Some 1) ∧
   not_available (seat_findUnique 1 Sample.db0) = false ∧
   seat_update 1 (Some true) false Sample.db0 = inr db4 ∧
   booking_update "PNR001" (Some 1) true (others db4)
   = inl UniqueConstraintFailed) ∧
  out = run_env (for_seats "PNR001" 1 cands) [] (others db4) ∧
  db4 = seat_write 1 (Some true) false Sample.db0 ∧
  all_unavailable 1 db4 ∧
  match out.1 with
  | inr a =>
      ∃ k seat', cands !! k = Some seat' ∧
                 a = mkAssignment (seatNumber seat') (seat_id seat') unsafe
                       (Some (S (1 + k)))
  | inl e' => e' = AllAttemptsFailed
  end ∧
  ∀ env0 db0,
    match (run_env (body_of (selectNextAvailableSeatUnsafe "PNR001" (Some 1)))
             env0 db0).1
    with
    | inr _ => True
    | inl e' =>
        kind e' ≠ StorageConstraintViolation ∧
        (e' = InvalidPNR ∨ e' = NoSeatsAvailable ∨ e' = AllAttemptsFailed)
    end.
Proof.
  cbv zeta.
  assert (fits (Some 1)) as Hfits by (apply (bool_decide_eq_true_1 _); by vm_compute).
  split; [split_and!; [done|by vm_compute..]|].
  apply (rejected_binding_is_caught "PNR001" (Some 1) 0%nat Sample.s10A
           [Sample.s10B; Sample.s10C] id id id
           (λ db, (exec (selectNextAvailableSeatSafe "PNR002" None)
                        (exec resetAllSeats db).2).2)
           [] Sample.db0 (seat_write 1 (Some true) false Sample.db0)
           UniqueConstraintFailed Hfits); by vm_compute.
Defined.

(** C4 (as stated, refuted). From the sample store, PNR001 calls the
    unsafe policy and flags 10A unavailable; before its binding write, a
    reset-all and a complete unsafe call of PNR002 go through, which binds
    10A to PNR002.  PNR001's binding write is then rejected by the unique
    index, and its call resolves to a success on 10B at the second
    attempt: the storage error reaches no caller. *)
Lemma constraint_violation_masked_as_success :
  let others : DB → DB := λ db,
    (exec (selectNextAvailableSeatUnsafe "PNR002" None)
          (exec resetAllSeats db).2).2 in
  let at_write := others (seat_write 1 (Some true) false Sample.db0) in
  booking_update "PNR001" (Some 1) true at_write = inl UniqueConstraintFailed ∧
  kind UniqueConstraintFailed = StorageConstraintViolation ∧
  run_env (for_seats "PNR001" 0 [Sample.s10A; Sample.s10B; Sample.s10C])
          [id; id; id; others] Sample.db0 =
    run_env (for_seats "PNR001" 1 [Sample.s10B; Sample.s10C]) [] at_write ∧
  (run_env (body_of (selectNextAvailableSeatUnsafe "PNR001" None))
           [id; id; id; id; id; others] Sample.db0).1 =
    inr (mkAssignment "10B" 2 unsafe (Some 2%nat)).
Proof. cbv zeta. split_and!; by vm_compute. Qed.

(** ** The seat of a failed binding *)

Lemma intrude_keeps (P : DB → Prop) (K : (DB → DB) → Prop) env db :
  (∀ f d, K f → P d → P (f d)) → Forall K env → P db →
  P (intrude env db).1 ∧ Forall K (intrude env db).2.
Proof.
  intros HK Henv Hdb. destruct env as [|f env]; [done|].
  apply Forall_cons in Henv as [Hf Henv]. cbn. split; [by apply HK|done].
Qed.

(** The loop sets no flag: a seat that is unavailable stays so to the end
    of the call, unless another request makes it available. *)
Lemma run_env_for_seats_keeps_unavailable id p cands : ∀ i env db,
  Forall (keeps_unavailable id) env → all_unavailable id db →
  all_unavailable id (run_env (for_seats p i cands) env db).2.
Proof.
  induction cands as [|seat rest IH]; intros i env db Henv Hdb; [done|].
  rewrite run_for_seats_cons.
  assert (∀ env db, Forall (keeps_unavailable id) env → all_unavailable id db →
    all_unavailable id (intrude env db).1 ∧
    Forall (keeps_unavailable id) (intrude env db).2) as Hin.
  { intros env0 db0. apply intrude_keeps. intros f d Hf. apply Hf. }
  destruct (Hin env db Henv Hdb) as [Hdb1 Henv1].
  destruct (intrude env db) as [db1 env1]. cbn [fst snd] in *.
  destruct (Hin env1 db1 Henv1 Hdb1) as [Hdb2 Henv2].
  destruct (intrude env1 db1) as [db2 env2]. cbn [fst snd] in *.
  destruct (not_available _); [by apply IH|].
  destruct (Hin env2 db2 Henv2 Hdb2) as [Hdb3 Henv3].
  destruct (intrude env2 db2) as [db3 env3]. cbn [fst snd] in *.
  destruct (seat_update _ _ _ db3) as [e|db4] eqn:Hsu; [by apply IH|].
  apply seat_update_inv in Hsu as [-> _].
  assert (all_unavailable id (seat_write (seat_id seat) (Some true) false db3))
    as Hdb4.
  { eapply flags_cleared_all_unavailable; [|exact Hdb3].
    apply flags_cleared_seat_write. }
  destruct (Hin env3 _ Henv3 Hdb4) as [Hdb5 Henv4].
  destruct (intrude env3 _) as [db5 env4]. cbn [fst snd] in *.
  destruct (booking_update _ _ _ db5) as [e|db6] eqn:Hbu; [by apply IH|].
  apply booking_update_inv in Hbu as (-> & _ & _). done.
Qed.

(** C9 (as the code has it). When the binding write for a candidate fails
    after its seat update went through, whatever the other requests do
    between the statements of that turn: the loop goes on with the next
    candidate from the store of the failed write; the seat, available
    before the update, is unavailable after it, and the call never sets
    it available again, so that it is unavailable when the call ends,
    bound to a later candidate or failed, provided no other request has
    made it available meanwhile.  The write fails because another booking
    references the seat (unique index) or because the requester's booking
    is gone. *)
Theorem failed_binding_leaves_seat_flagged
    p i seat rest f1 f2 f3 f4 env db db4 e :
  let db3 := f3 (f2 (f1 db)) in
  let out :=
    run_env (for_seats p i (seat :: rest)) (f1 :: f2 :: f3 :: f4 :: env) db in
  not_available (seat_findUnique (seat_id seat) (f2 (f1 db))) = false →
  seat_update (seat_id seat) (Some true) false db3 = inr db4 →
  booking_update p (Some (seat_id seat)) true (f4 db4) = inl e →
  all_unavailable (seat_id seat) (f4 db4) →
  Forall (keeps_unavailable (seat_id seat)) env →
  out = run_env (for_seats p (S i) rest) env (f4 db4) ∧
  Exists (λ s, seat_id s = seat_id seat ∧ isAvailable s = true) (seats db3) ∧
  all_unavailable (seat_id seat) db4 ∧
  all_unavailable (seat_id seat) out.2 ∧
  match out.1 with
  | inr a =>
      ∃ k seat', rest !! k = Some seat' ∧
                 a = mkAssignment (seatNumber seat') (seat_id seat') unsafe
                       (Some (S (S i + k)))
  | inl e' => e' = AllAttemptsFailed
  end ∧
  ((e = UniqueConstraintFailed ∧ seat_taken_by_other p (seat_id seat) (f4 db4)) ∨
   (e = RecordNotFound ∧ booking_findUnique p (f4 db4) = None)).
Proof.
  intros db3 out Hav Hsu Hbu Hdb5 Henv.
  assert (out = run_env (for_seats p (S i) rest) env (f4 db4)) as Hout
    by by eapply run_for_seats_rejected_env.
  apply seat_update_inv in Hsu as [Hdb4 Hex].
  split_and!; [done| | | | |].
  - eapply Exists_impl; [exact Hex|]. by intros s [? ?].
  - rewrite Hdb4. apply seat_write_all_unavailable.
  - rewrite Hout. by apply run_env_for_seats_keeps_unavailable.
  - rewrite Hout. apply run_env_for_seats_later.
  - apply booking_update_err in Hbu as [[-> ?]|[-> (s & ? & ?)]];
      [right|left]; by simplify_eq.
Qed.

(** PNR003 has flagged 10A; before its binding write a reset-all and a
    complete call of PNR004 go through, which binds 10A to PNR004: the
    write of PNR003 is rejected, its call ends bound to 10B, and 10A is
    unavailable. *)
Lemma failed_binding_leaves_seat_flagged_witness :
  let others : DB → DB := λ db,
    (exec (selectNextAvailableSeatUnsafe "PNR004" None)
          (exec resetAllSeats db).2).2 in
  let db4 := seat_write 1 (Some true) false Sample.db0 in
  let out :=
    run_env (for_seats "PNR003" 0 [Sample.s10A; Sample.s10B])
            [id; id; id; others] Sample.db0 in
  (not_available (seat_findUnique 1 Sample.db0) = false ∧
   seat_update 1 (Some true) false Sample.db0 = inr db4 ∧
   booking_update "PNR003" (Some 1) true (others db4)
   = inl UniqueConstraintFailed ∧
   all_unavailable 1 (others db4) ∧
   Forall (keeps_unavailable 1) []) ∧
  out = run_env (for_seats "PNR003" 1 [Sample.s10B]) [] (others db4) ∧
  Exists (λ s, seat_id s = 1 ∧ isAvailable s = true) (seats Sample.db0) ∧
  all_unavailable 1 db4 ∧
  all_unavailable 1 out.2 ∧
  match out.1 with
  | inr a =>
      ∃ k seat', [Sample.s10B] !! k = Some seat' ∧
                 a = mkAssignment (seatNumber seat') (seat_id seat') unsafe
                       (Some (S (1 + k)))
  | inl e' => e' = AllAttemptsFailed
  end ∧
  ((UniqueConstraintFailed = UniqueConstraintFailed
    ∧ seat_taken_by_other "PNR003" 1 (others db4)) ∨
   (UniqueConstraintFailed = RecordNotFound
    ∧ booking_findUnique "PNR003" (others db4) = None)).
Proof.
  cbv zeta.
  set (others := λ db : DB,
    (exec (selectNextAvailableSeatUnsafe "PNR004" None)
          (exec resetAllSeats db).2).2).
  set (db4 := seat_write 1 (Some true) false Sample.db0).
  assert (all_unavailable 1 (others db4)) as Hdb5
    by (apply (bool_decide_eq_true_1 _); by vm_compute).
  split; [split_and!; [by vm_compute..|done|constructor]|].
  apply (failed_binding_leaves_seat_flagged "PNR003" 0%nat Sample.s10A
           [Sample.s10B] id id id others [] Sample.db0 db4
           UniqueConstraintFailed);
    [by vm_compute..|done|constructor].
Defined.

(** C9 (as stated, refuted). On the stale store the binding write for
    10A fails after the seat update went through, and 10A is then
    unavailable while a binding does reference it: PNR002's, the very
    binding the unique index protected. *)
Lemma failed_binding_seat_is_referenced :
  let db4 := seat_write 1 (Some true) false Sample.db_stale in
  not_available (seat_findUnique 1 Sample.db_stale) = false ∧
  seat_update 1 (Some true) false Sample.db_stale = inr db4 ∧
  booking_update "PNR001" (Some 1) true db4 = inl UniqueConstraintFailed ∧
  run (for_seats "PNR001" 0 [Sample.s10A; Sample.s10B]) Sample.db_stale =
    run (for_seats "PNR001" 1 [Sample.s10B]) db4 ∧
  seat_findUnique 1 db4 = Some (mkSeat 1 1 "10A" false) ∧
  all_unavailable 1 db4 ∧
  bound 1 db4.
Proof.
  cbv zeta. split_and!; try by vm_compute.
  - apply seat_write_all_unavailable.
  - apply (bool_decide_eq_true_1 _). by vm_compute.
Qed.

(** ** Order of allocation *)

Lemma NoDup_fmap_eq {A B} (f : A → B) (l : list A) x y :
  NoDup (f <$> l) → x ∈ l → y ∈ l → f x = f y → x = y.
Proof.
  induction l as [|z l IH]; csimpl; [by intros _ ?%elem_of_nil|].
  intros [Hz Hnd]%NoDup_cons [->|Hx]%elem_of_cons [->|Hy]%elem_of_cons Hf;
    [done| | |by apply IH].
  - destruct Hz. rewrite Hf. by apply list_elem_of_fmap_2.
  - destruct Hz. rewrite <-Hf. by apply list_elem_of_fmap_2.
Qed.

Lemma seat_findUnique_pkey db s :
  seats_pkey db → s ∈ seats db → seat_findUnique (seat_id s) db = Some s.
Proof.
  unfold seats_pkey, seat_findUnique. intros Hnd Hs.
  induction (seats db) as [|x l IH]; [by apply elem_of_nil in Hs|].
  csimpl in Hnd. apply NoDup_cons in Hnd as [Hx Hnd].
  rewrite filter_cons. apply elem_of_cons in Hs as [->|Hs].
  - by rewrite decide_True.
  - rewrite decide_False; [by apply IH|].
    intros Heq. destruct Hx. rewrite Heq. by apply list_elem_of_fmap_2.
Qed.

Lemma seat_ids_seat_write id g a db :
  seat_id <$> seats (seat_write id g a db) = seat_id <$> seats db.
Proof.
  unfold seat_write, with_seats. cbn [seats]. rewrite <-list_fmap_compose.
  apply list_fmap_ext. intros _ s _. unfold compose. by case_decide.
Qed.

Lemma seat_keys_seat_write id g a db :
  (λ s, (seat_flightId s, seatNumber s)) <$> seats (seat_write id g a db)
  = (λ s, (seat_flightId s, seatNumber s)) <$> seats db.
Proof.
  unfold seat_write, with_seats. cbn [seats]. rewrite <-list_fmap_compose.
  apply list_fmap_ext. intros _ s _. unfold compose. by case_decide.
Qed.

(** A seat still available after the write was there before, and is not
    the seat written. *)
Lemma open_after_seat_write id fid db s :
  s ∈ seats (seat_write id None false db) → open_on fid s →
  s ∈ seats db ∧ seat_id s ≠ id.
Proof.
  unfold seat_write, with_seats. cbn [seats].
  intros (s0 & -> & Hs0)%list_elem_of_fmap [_ Hav].
  case_decide as Hm; [done|]. split; [done|].
  intros Hid. destruct Hm. done.
Qed.

(** What a successful call of the safe policy did. *)
Lemma exec_safe_success p fid db a db' :
  exec (selectNextAvailableSeatSafe p fid) db = (inr a, db') →
  ∃ b seat,
    booking_findUnique p db = Some b ∧
    seat ∈ seats db ∧ open_on (or_else fid (booking_flightId b)) seat ∧
    (∀ s, s ∈ seats db → open_on (or_else fid (booking_flightId b)) s →
          seat_le seat s) ∧
    a = mkAssignment (seatNumber seat) (seat_id seat) safe None ∧
    unique_ok p (Some (seat_id seat)) db ∧
    db' = booking_write p (Some (seat_id seat)) true
            (seat_write (seat_id seat) None false db).
Proof.
  rewrite exec_safe. unfold transaction. rewrite run_safe_body.
  destruct (booking_findUnique p db) as [b|] eqn:Hb; [|done].
  destruct (seat_findMany _ 1 db) as [|seat l] eqn:Hq; [done|].
  destruct (seat_update _ _ _ db) as [e|db1] eqn:Hsu; [done|].
  destruct (booking_update _ _ _ db1) as [e|db2] eqn:Hbu; [done|].
  intros ?; simplify_eq.
  assert (seat ∈ seat_findMany (or_else fid (booking_flightId b)) 1 db)
    as [Hin Hopen]%elem_of_seat_findMany by (rewrite Hq; left).
  apply seat_update_inv in Hsu as [-> _].
  apply booking_update_inv in Hbu as (-> & _ & Hu).
  exists b, seat. split_and!; try done.
  intros s Hs Hos. by eapply seat_findMany_least.
Qed.

Lemma target_flight_after p sid ci id g a db r :
  target_flight (booking_write p sid ci (seat_write id g a db)) r
  = target_flight db r.
Proof.
  unfold target_flight. rewrite booking_findUnique_booking_write.
  rewrite booking_findUnique_seat_write.
  destruct (booking_findUnique r.1 db) as [b|]; [|done]. simpl.
  by case_decide.
Qed.


Lemma seat_write_guard db seat :
  seats_pkey db → seat ∈ seats db → isAvailable seat = true →
  seat_write (seat_id seat) (Some true) false db
  = seat_write (seat_id seat) None false db.
Proof.
  intros Hpk Hin Hav. unfold seat_write, with_seats. f_equal.
  apply list_fmap_ext. intros _ s Hs%list_elem_of_lookup_2.
  destruct (decide (seat_matches (seat_id seat) None s)) as [[Hid _]|Hn].
  - assert (s = seat) as -> by by apply (NoDup_fmap_eq seat_id (seats db)).
    by rewrite decide_True.
  - rewrite decide_False; [done|]. intros [Hid _]. by apply Hn.
Qed.

(** Run alone where the safe policy succeeds, the unsafe policy does the
    same to the store, at its first attempt. *)
Lemma unsafe_alone_like_safe p fid db a db' :
  seats_pkey db →
  exec (selectNextAvailableSeatSafe p fid) db = (inr a, db') →
  exec (selectNextAvailableSeatUnsafe p fid) db
  = (inr (mkAssignment (a_seatNumber a) (a_seatId a) unsafe (Some 1%nat)), db').
Proof.
  intros Hpk Hsafe.
  rewrite exec_safe in Hsafe. unfold transaction in Hsafe.
  rewrite run_safe_body in Hsafe.
  rewrite exec_unsafe, run_unsafe_body. simpl.
  destruct (booking_findUnique p db) as [b|] eqn:Hb; [|done].
  set (f := or_else fid (booking_flightId b)) in *.
  rewrite (seat_findMany_one f 4 db) in Hsafe.
  destruct (seat_findMany f 5 db) as [|seat w] eqn:Hw; [done|].
  rewrite decide_False by done.
  rewrite run_for_seats_cons. cbn [intrude take] in *.
  assert (seat ∈ seat_findMany f 5 db) as [Hin Hopen]%elem_of_seat_findMany
    by (rewrite Hw; left).
  destruct (seat_update _ None _ db) as [e|db1] eqn:Hsu; [done|].
  apply seat_update_inv in Hsu as [-> _].
  destruct (booking_update _ _ _ _) as [e|db2] eqn:Hbu; [done|].
  apply booking_update_inv in Hbu as (-> & Hex & Hu).
  injection Hsafe as <- <-. cbn [a_seatNumber a_seatId].
  rewrite (seat_findUnique_pkey _ _ Hpk Hin).
  destruct Hopen as [Hfl Hav]. cbn [not_available]. rewrite Hav.
  cbn [negb].
  rewrite seat_update_ok
    by (apply Exists_exists; exists seat; by repeat split).
  rewrite (booking_update_ok p (Some (seat_id seat)) true
             (seat_write (seat_id seat) (Some true) false db)) by done.
  by rewrite seat_write_guard.
Qed.

(** ** Interleaved calls of the safe policy *)

Import Conc.

Lemma elem_of_of_others {A B} (g : Thread A → list B) i ts x :
  x ∈ of_others g i ts ↔ ∃ j th, ts !! j = Some th ∧ j ≠ i ∧ x ∈ g th.
Proof.
  unfold of_others. rewrite list_elem_of_join. split.
  - intros (l & Hx & (j & th & -> & Hj)%elem_of_lookup_imap).
    case_decide; [by apply elem_of_nil in Hx|]. eauto.
  - intros (j & th & Hj & Hne & Hx). exists (g th). split; [done|].
    apply elem_of_lookup_imap. exists j, th. by rewrite decide_False.
Qed.

(** One statement at each stage. *)
Lemma tx_step_begin p fid fl fc db :
  tx_step fl fc db (mkTx (body_of (selectNextAvailableSeatSafe p fid)) [] []) =
  Some (db, Running (mkTx
    match booking_findUnique p db with
    | None => Throw InvalidPNR
    | Some b => safe_pick p (or_else fid (booking_flightId b))
    end [] [])).
Proof.
  unfold tx_step. simpl. by destruct (booking_findUnique p db).
Qed.

Lemma tx_step_picking p f fl fc db :
  tx_step fl fc db (mkTx (safe_pick p f) [] []) =
  Some (db, match lock_next f fl db with
            | [] => thread_at p None f Failing
            | seat :: _ => thread_at p None f (Sleeping seat)
            end).
Proof.
  unfold tx_step, lock_next. simpl.
  by destruct (filter _ (available_seats f db)).
Qed.

Lemma tx_step_sleeping p fid f seat fl fc db :
  tx_step fl fc db (mkTx (safe_sleep p seat) [] [SeatRow (seat_id seat)]) =
  Some (db, thread_at p fid f (Flipping seat)).
Proof. done. Qed.

Lemma tx_step_flipping p fid f seat fl fc db :
  SeatRow (seat_id seat) ∉ fl → seat ∈ seats db →
  tx_step fl fc db (mkTx (safe_flip p seat) [] [SeatRow (seat_id seat)]) =
  Some (db, thread_at p fid f (Binding seat)).
Proof.
  intros Hfl Hin. unfold tx_step. simpl. rewrite decide_False by done.
  rewrite seat_update_ok; [done|].
  apply Exists_exists. exists seat. by split.
Qed.

Lemma tx_step_binding p fid f seat fl fc db :
  BookingRow p ∉ fl → seat_id seat ∉ fc →
  Exists (λ b, pnr b = p) (bookings db) →
  unique_ok p (Some (seat_id seat)) db →
  tx_step fl fc db (mkTx (safe_bind p seat)
                      [WSeat (seat_id seat) None false]
                      [SeatRow (seat_id seat); SeatRow (seat_id seat)]) =
  Some (db, thread_at p fid f (Committing seat)).
Proof.
  intros Hfl Hfc Hex Hu. unfold tx_step. simpl.
  rewrite decide_False by done.
  rewrite decide_False by (by intros [? | []%Exists_nil]%Exists_cons).
  rewrite booking_update_ok; done.
Qed.

Lemma tx_step_committing p seat fl fc db :
  tx_step fl fc db (mkTx (safe_commit seat)
                      [WSeat (seat_id seat) None false;
                       WBooking p (Some (seat_id seat)) true]
                      [BookingRow p; SeatRow (seat_id seat);
                       SeatRow (seat_id seat)]) =
  Some (booking_write p (Some (seat_id seat)) true
          (seat_write (seat_id seat) None false db),
        thread_at p None 0 (Done seat)).
Proof. done. Qed.

Lemma tx_step_failing fl fc db :
  tx_step fl fc db (mkTx (Throw NoSeatsOrLocked) [] []) =
  Some (db, thread_at "" None 0 Failed).
Proof. done. Qed.

(** *** Lists updated at one index *)

Lemma omap_insert_same {A B} (g : A → option B) (l : list A) i x y :
  l !! i = Some x → g y = g x → omap g (<[i:=y]> l) = omap g l.
Proof.
  revert i. induction l as [|z l IH]; intros [|i] Hi Hg; simplify_eq/=.
  - by rewrite Hg.
  - by rewrite (IH i).
Qed.

Lemma omap_insert_gain {A B} (g : A → option B) (l : list A) i x y z :
  l !! i = Some x → g x = None → g y = Some z →
  length (omap g (<[i:=y]> l)) = S (length (omap g l)).
Proof.
  revert i. induction l as [|w l IH]; intros [|i] Hi Hx Hy; simplify_eq/=.
  - by rewrite Hx, Hy.
  - destruct (g w); simpl; by rewrite (IH i).
Qed.

(** *** The committed writes of a successful call *)

Lemma pnrs_booking_write p sid ci db :
  pnr <$> bookings (booking_write p sid ci db) = pnr <$> bookings db.
Proof.
  unfold booking_write, with_bookings. cbn [bookings].
  rewrite <-list_fmap_compose.
  apply list_fmap_ext. intros _ b _. unfold compose. by case_decide.
Qed.

Lemma seat_kept_seat_write id g a db s :
  s ∈ seats db → seat_id s ≠ id → s ∈ seats (seat_write id g a db).
Proof.
  intros Hs Hne. unfold seat_write, with_seats. cbn [seats].
  apply list_elem_of_fmap. exists s. split; [|done].
  rewrite decide_False; [done|]. by intros [? _].
Qed.

Lemma seat_write_none_all_unavailable id db :
  all_unavailable id (seat_write id None false db).
Proof.
  unfold all_unavailable, seat_write, with_seats. cbn [seats].
  apply Forall_fmap, Forall_true. intros s. unfold compose.
  case_decide as Hm; [done|]. intros Hid. destruct Hm. done.
Qed.

(** Flagging an available seat takes exactly one seat out of its pool. *)
Lemma open_count_seat_write f db s :
  seats_pkey db → s ∈ seats db → open_on f s →
  (length (filter (open_on f) (seats (seat_write (seat_id s) None false db))) + 1
   = length (filter (open_on f) (seats db)))%nat.
Proof.
  unfold seats_pkey, seat_write, with_seats. cbn [seats].
  intros Hnd Hs Hopen.
  induction (seats db) as [|x l IH]; [by apply elem_of_nil in Hs|].
  csimpl in *. apply NoDup_cons in Hnd as [Hx Hnd].
  rewrite !filter_cons. apply elem_of_cons in Hs as [->|Hs].
  - rewrite (decide_True (P:=seat_matches _ _ _)) by done.
    rewrite (decide_False (P:=open_on f (set_available false x)))
      by (by intros [_ ?]).
    rewrite (decide_True (P:=open_on f x)) by done. simpl.
    rewrite Nat.add_1_r. f_equal. f_equal.
    clear IH Hnd. induction l as [|y l IH]; [done|]. csimpl.
    apply not_elem_of_cons in Hx as [Hy Hx].
    rewrite decide_False by (intros [? _]; congruence).
    rewrite !filter_cons. case_decide; [f_equal|]; by apply IH.
  - rewrite (decide_False (P:=seat_matches _ _ _)).
    + case_decide; simpl; rewrite <-(IH Hnd Hs); lia.
    + intros [Hid _]. destruct Hx. rewrite Hid. by apply list_elem_of_fmap_2.
Qed.

(** The unique index on [seatId] survives a binding to a seat that no
    booking references. *)
Lemma seatId_key_booking_write p x ci db :
  bookings_pnr_key db → bookings_seatId_key db → ¬ bound x db →
  bookings_seatId_key (booking_write p (Some x) ci db).
Proof.
  unfold bookings_pnr_key, bookings_seatId_key, bound, booking_write,
    with_bookings. cbn [bookings].
  induction (bookings db) as [|b l IH]; [done|]. csimpl.
  intros [Hb Hpnr]%NoDup_cons Hsid Hnb.
  assert (seatId b ≠ Some x) as Hbx by (intros ?; apply Hnb; by left).
  assert (¬ Exists (λ b, seatId b = Some x) l) as Hnb'
    by (intros ?; apply Hnb; by right).
  assert (NoDup (omap seatId l)) as Hsid'.
  { destruct (seatId b); [by apply NoDup_cons in Hsid as [_ ?]|done]. }
  assert (∀ y, y ∈ omap seatId
                 ((λ b, if decide (pnr b = p) then set_binding (Some x) ci b
                        else b) <$> l) →
               y = x ∨ y ∈ omap seatId l) as Hel.
  { intros y (b' & (b0 & -> & Hb0)%list_elem_of_fmap & Hy)%list_elem_of_omap.
    case_decide; simplify_eq/=; [by left|].
    right. apply list_elem_of_omap. eauto. }
  case_decide as Hp.
  - simpl. apply NoDup_cons. split.
    + intros Hx. assert (∀ b', b' ∈ l → pnr b' ≠ p) as Hl.
      { intros b' Hb' Heq. apply Hb. rewrite Hp, <-Heq.
        by apply list_elem_of_fmap_2. }
      apply list_elem_of_omap in Hx
        as (b' & (b0 & -> & Hb0)%list_elem_of_fmap & Hy).
      rewrite decide_False in Hy by by apply Hl.
      apply Hnb'. apply Exists_exists. eauto.
    + by apply IH.
  - destruct (seatId b) as [y|] eqn:Hy; simpl; [|by apply IH].
    apply NoDup_cons. split; [|by apply IH].
    intros [->|Hin]%Hel; [done|].
    by apply NoDup_cons in Hsid as [? _].
Qed.

Lemma bound_after_bind p x ci id g a db y :
  bound y (booking_write p (Some x) ci (seat_write id g a db)) →
  y = x ∨ bound y db.
Proof.
  unfold bound, booking_write, with_bookings. cbn [bookings].
  rewrite Exists_fmap. intros (b & Hb & Hy)%Exists_exists. simpl in Hy.
  case_decide; simplify_eq/=; [by left|].
  right. apply Exists_exists. eauto.
Qed.

(** *** The invariant along a schedule *)

Section safe_calls.
Context (reqs : list (string * option Z)) (f : Z) (M : nat).
Context (Hdistinct : NoDup reqs.*1).

(** A thread moves on without a commit. *)
Lemma inv_restage db stg i st st' :
  inv reqs f M db stg →
  stg !! i = Some st →
  got st = None → got st' = None →
  (∀ s, holds st = Some s → holds st' = Some s) →
  (∀ s, holds st' = Some s →
        holds st = Some s ∨
        (s ∈ seats db ∧ open_on f s ∧
         ∀ j sj s', stg !! j = Some sj → holds sj = Some s' →
                    seat_id s' ≠ seat_id s)) →
  (gave_up st' →
   gave_up st ∨
   ∀ s, s ∈ seats db → open_on f s →
        ∃ j sj, j ≠ i ∧ stg !! j = Some sj ∧ holds sj = Some s) →
  inv reqs f M db (<[i:=st']> stg).
Proof.
  intros [] Hi Hg Hg' Hkeep Hnew Hup.
  assert (i < length stg)%nat as Hlt by by eapply lookup_lt_Some.
  assert (∀ j sj s, stg !! j = Some sj → holds sj = Some s →
                    ∃ sj', <[i:=st']> stg !! j = Some sj' ∧ holds sj' = Some s)
    as Hstill.
  { intros j sj s Hj Hs. destruct (decide (i = j)) as [<-|Hne].
    - exists st'. rewrite list_lookup_insert_eq by done. simplify_eq. auto.
    - exists sj. by rewrite list_lookup_insert_ne. }
  split; try done.
  - by rewrite length_insert.
  - intros j sj s [(<- & <- & _)|[Hne Hj]]%list_lookup_insert_Some Hs; [|eauto].
    destruct (Hnew s Hs) as [?|(? & ? & _)]; eauto.
  - intros j1 j2 s1 s2 x1 x2
      [(<- & <- & _)|[Hne1 Hj1]]%list_lookup_insert_Some
      [(<- & <- & _)|[Hne2 Hj2]]%list_lookup_insert_Some Hx1 Hx2 Hid;
      [done| | |by eauto].
    + destruct (Hnew x1 Hx1) as [?|(_ & _ & Hfresh)]; [by eauto|].
      destruct (Hfresh _ _ _ Hj2 Hx2). done.
    + destruct (Hnew x2 Hx2) as [?|(_ & _ & Hfresh)]; [by eauto|].
      destruct (Hfresh _ _ _ Hj1 Hx1). done.
  - erewrite omap_insert_same; [done..|congruence].
  - intros j s r [(<- & Heq & _)|[Hne Hj]]%list_lookup_insert_Some Hr;
      [|eauto]. by rewrite Heq in Hg'.
  - intros j1 j2 s1 s2
      [(<- & Heq1 & _)|[Hne1 Hj1]]%list_lookup_insert_Some
      [(<- & Heq2 & _)|[Hne2 Hj2]]%list_lookup_insert_Some;
      try done; try (by rewrite Heq1 in Hg'); try (by rewrite Heq2 in Hg').
    eauto.
  - intros j sj s [(<- & <- & _)|[Hne Hj]]%list_lookup_insert_Some
      Hgu Hs Hopen.
    + destruct (Hup Hgu) as [Hst|Hall].
      * destruct (inv_gave_up0 _ _ _ Hi Hst Hs Hopen) as (j' & sj' & ? & ?).
        eauto.
      * destruct (Hall s Hs Hopen) as (j' & sj' & ? & ? & ?). eauto.
    + destruct (inv_gave_up0 _ _ _ Hj Hgu Hs Hopen) as (j' & sj' & ? & ?).
      eauto.
Qed.

(** A thread commits. *)
Lemma inv_commit db stg i p fid seat :
  inv reqs f M db stg →
  stg !! i = Some (Committing seat) →
  reqs !! i = Some (p, fid) →
  inv reqs f M
    (booking_write p (Some (seat_id seat)) true
       (seat_write (seat_id seat) None false db))
    (<[i:=Done seat]> stg).
Proof.
  intros [] Hi Hr.
  assert (i < length stg)%nat as Hlt by by eapply lookup_lt_Some.
  destruct (inv_held0 i _ seat Hi eq_refl) as [Hseat Hopen].
  assert (¬ bound (seat_id seat) db) as Hfree.
  { intros Hb. eapply Forall_forall in inv_bound0; [|exact Hseat].
    destruct Hopen as [_ Hav]. rewrite inv_bound0 in Hav; done. }
  set (db' := booking_write _ _ _ _).
  assert (∀ j r, j ≠ i → reqs !! j = Some r → r.1 ≠ p) as Hother.
  { intros j r Hne Hj Heq. apply Hne.
    eapply (NoDup_lookup reqs.*1 j i p); [done|..].
    - by rewrite list_lookup_fmap, Hj, <-Heq.
    - by rewrite list_lookup_fmap, Hr. }
  assert (flags_cleared db db') as Hfc.
  { eapply flags_cleared_trans; [apply flags_cleared_seat_write|].
    exact (flags_cleared_refl _). }
  split.
  - by rewrite length_insert.
  - unfold seats_pkey. subst db'.
    by rewrite seats_booking_write, seat_ids_seat_write.
  - unfold bookings_pnr_key. subst db'. by rewrite pnrs_booking_write.
  - by apply seatId_key_booking_write.
  - unfold bound_seats_unavailable. subst db'.
    rewrite seats_booking_write. unfold seat_write, with_seats. cbn [seats].
    apply Forall_fmap, Forall_forall. intros s Hs. unfold compose.
    case_decide as Hm; [done|]. intros [Heq|Hb]%bound_after_bind.
    + destruct Hm. done.
    + eapply Forall_forall in inv_bound0; [|exact Hs]. auto.
  - eapply Forall_impl; [done|]. intros r Hk. subst db'.
    by rewrite target_flight_after.
  - intros j sj s [(<- & <- & _)|[Hne Hj]]%list_lookup_insert_Some Hs; [done|].
    destruct (inv_held0 _ _ _ Hj Hs) as [Hin Hos]. split; [|done].
    subst db'. rewrite seats_booking_write.
    apply seat_kept_seat_write; [done|]. intros Hid. apply Hne.
    eapply (inv_held_once0 i j); eauto.
  - intros j1 j2 s1 s2 x1 x2
      [(<- & <- & _)|[Hne1 Hj1]]%list_lookup_insert_Some
      [(<- & <- & _)|[Hne2 Hj2]]%list_lookup_insert_Some; try done. eauto.
  - erewrite omap_insert_gain; [|done..].
    subst db'. rewrite seats_booking_write.
    pose proof (open_count_seat_write f db seat inv_pkey0 Hseat Hopen). lia.
  - intros j s r [(<- & Heq & _)|[Hne Hj]]%list_lookup_insert_Some Hrj.
    + simplify_eq/=. split.
      * subst db'. exact (seat_write_none_all_unavailable _ _).
      * eapply Forall_forall in inv_known0;
          [|by eapply list_elem_of_lookup_2].
        unfold target_flight in inv_known0. simpl in inv_known0.
        destruct (booking_findUnique p db) as [b|] eqn:Hb; [|done].
        exists (set_binding (Some (seat_id s)) true b). split; [|done].
        subst db'. apply booking_findUnique_bound.
        by rewrite booking_findUnique_seat_write.
    + destruct (inv_got0 _ _ _ Hj Hrj) as [Hun (b & Hb & ? & ?)]. split.
      * by eapply flags_cleared_all_unavailable.
      * exists b. split; [|done]. subst db'.
        rewrite booking_findUnique_other by (symmetry; eauto).
        by rewrite booking_findUnique_seat_write.
  - intros j1 j2 s1 s2
      [(<- & Heq1 & _)|[Hne1 Hj1]]%list_lookup_insert_Some
      [(<- & Heq2 & _)|[Hne2 Hj2]]%list_lookup_insert_Some Hid;
      [done| | |by eauto]; simplify_eq/=.
    + assert (is_Some (reqs !! j2)) as [r Hrj].
      { apply lookup_lt_is_Some. rewrite <-inv_length0.
        by eapply lookup_lt_Some. }
      destruct (inv_got0 _ _ _ Hj2 Hrj) as [Hun _].
      eapply Forall_forall in Hun; [|exact Hseat].
      destruct Hopen as [_ Hav]. rewrite Hun in Hav; done.
    + assert (is_Some (reqs !! j1)) as [r Hrj].
      { apply lookup_lt_is_Some. rewrite <-inv_length0.
        by eapply lookup_lt_Some. }
      destruct (inv_got0 _ _ _ Hj1 Hrj) as [Hun _].
      eapply Forall_forall in Hun; [|exact Hseat].
      destruct Hopen as [_ Hav]. rewrite Hun in Hav; done.
  - intros j sj s [(<- & <- & _)|[Hne Hj]]%list_lookup_insert_Some
      Hgu Hs Hos; [by destruct Hgu|].
    subst db'. rewrite seats_booking_write in Hs.
    destruct (open_after_seat_write _ _ _ _ Hs Hos) as [Hs0 Hid].
    destruct (inv_gave_up0 _ _ _ Hj Hgu Hs0 Hos) as (j' & sj' & Hj' & Hh).
    exists j', sj'. split; [|done].
    rewrite list_lookup_insert_ne; [done|].
    intros <-. by simplify_eq/=.
Qed.

(** *** Threads and their stages *)

Lemma at_stages_lookup ts stg j th :
  at_stages reqs f ts stg → ts !! j = Some th →
  ∃ r st, reqs !! j = Some r ∧ stg !! j = Some st ∧
          th = thread_at r.1 r.2 f st.
Proof.
  intros [Hlen Hat] Hj.
  assert (is_Some (reqs !! j)) as [r Hr].
  { apply lookup_lt_is_Some. rewrite <-Hlen. by eapply lookup_lt_Some. }
  destruct (Hat j r Hr) as (st & Hst & Hth). exists r, st.
  split_and!; [done..|congruence].
Qed.

Lemma at_stages_insert ts stg i r st' :
  at_stages reqs f ts stg → reqs !! i = Some r →
  at_stages reqs f (<[i:=thread_at r.1 r.2 f st']> ts) (<[i:=st']> stg).
Proof.
  intros [Hlen Hat] Hr. split; [by rewrite length_insert|].
  intros j rj Hrj. destruct (Hat j rj Hrj) as (st & Hst & Hth).
  destruct (decide (i = j)) as [->|Hne].
  - exists st'. simplify_eq.
    rewrite !list_lookup_insert_eq; [done|by eapply lookup_lt_Some..].
  - exists st. by rewrite !list_lookup_insert_ne.
Qed.

Lemma locks_thread_at p fid st row :
  row ∈ locks_of (thread_at p fid f st) →
  (∃ s, holds st = Some s ∧ row = SeatRow (seat_id s)) ∨ row = BookingRow p.
Proof.
  destruct st; simpl; intros Hin;
    repeat match goal with
           | H : _ ∈ _ :: _ |- _ => apply elem_of_cons in H as [->|H]
           | H : _ ∈ [] |- _ => by apply elem_of_nil in H
           end; eauto.
Qed.

Lemma claims_thread_at p fid st x :
  x ∈ claims_of (thread_at p fid f st) →
  ∃ s, holds st = Some s ∧ x = seat_id s.
Proof.
  destruct st; simpl; intros Hin;
    repeat match goal with
           | H : _ ∈ _ :: _ |- _ => apply elem_of_cons in H as [->|H]
           | H : _ ∈ [] |- _ => by apply elem_of_nil in H
           end; eauto.
Qed.

Lemma holds_locks p fid st s :
  holds st = Some s → SeatRow (seat_id s) ∈ locks_of (thread_at p fid f st).
Proof.
  destruct st; simpl; intros ?; simplify_eq;
    rewrite ?elem_of_cons; auto.
Qed.

Lemma others_seat_lock ts stg i x :
  at_stages reqs f ts stg → SeatRow x ∈ of_others locks_of i ts →
  ∃ j sj s, j ≠ i ∧ stg !! j = Some sj ∧ holds sj = Some s ∧ seat_id s = x.
Proof.
  intros Hat (j & th & Hj & Hne & Hx)%elem_of_of_others.
  destruct (at_stages_lookup _ _ _ _ Hat Hj) as (r & st & Hr & Hst & ->).
  apply locks_thread_at in Hx as [(s & Hs & Heq)|?]; [|done].
  simplify_eq. eauto 10.
Qed.

Lemma others_seat_lock_2 ts stg i j sj s :
  at_stages reqs f ts stg → j ≠ i → stg !! j = Some sj → holds sj = Some s →
  length stg = length reqs →
  SeatRow (seat_id s) ∈ of_others locks_of i ts.
Proof.
  intros [Hlen Hat] Hne Hj Hs Hl.
  assert (is_Some (reqs !! j)) as [r Hr].
  { apply lookup_lt_is_Some. rewrite <-Hl. by eapply lookup_lt_Some. }
  destruct (Hat j r Hr) as (st & Hst & Hth). simplify_eq.
  apply elem_of_of_others. exists j, (thread_at r.1 r.2 f sj).
  split_and!; [done..|]. by apply holds_locks.
Qed.

Lemma others_booking_lock ts stg i p :
  at_stages reqs f ts stg → BookingRow p ∈ of_others locks_of i ts →
  ∃ j r, j ≠ i ∧ reqs !! j = Some r ∧ r.1 = p.
Proof.
  intros Hat (j & th & Hj & Hne & Hx)%elem_of_of_others.
  destruct (at_stages_lookup _ _ _ _ Hat Hj) as (r & st & Hr & Hst & ->).
  apply locks_thread_at in Hx as [(s & Hs & Heq)|?]; [done|].
  simplify_eq. eauto.
Qed.

Lemma others_claims ts stg i x :
  at_stages reqs f ts stg → x ∈ of_others claims_of i ts →
  ∃ j sj s, j ≠ i ∧ stg !! j = Some sj ∧ holds sj = Some s ∧ seat_id s = x.
Proof.
  intros Hat (j & th & Hj & Hne & Hx)%elem_of_of_others.
  destruct (at_stages_lookup _ _ _ _ Hat Hj) as (r & st & Hr & Hst & ->).
  apply claims_thread_at in Hx as (s & Hs & ->). eauto 10.
Qed.

Lemma take_1_nil {A} (l : list A) : take 1 l = [] → l = [].
Proof. by destruct l. Qed.

Lemma take_1_cons {A} (l : list A) x k : take 1 l = x :: k → x ∈ l.
Proof. destruct l; intros; simplify_eq/=. left. Qed.

(** One statement of thread [i], or none when it has finished: the
    invariant is kept, the other threads stay where they are, and thread
    [i] has one statement less to run. *)
Lemma step_safe σ stg i :
  at_stages reqs f (threads σ) stg → inv reqs f M (store σ) stg →
  ∃ stg',
    at_stages reqs f (threads (default σ (step i σ))) stg' ∧
    inv reqs f M (store (default σ (step i σ))) stg' ∧
    (∀ j, j ≠ i → stg' !! j = stg !! j) ∧
    (∀ st, stg !! i = Some st →
           ∃ st', stg' !! i = Some st' ∧ (todo st' ≤ pred (todo st))%nat).
Proof.
  intros Hat Hinv.
  destruct (threads σ !! i) as [th|] eqn:Hth; cycle 1.
  { unfold step. rewrite Hth. simpl. exists stg. split_and!; try done.
    intros st Hst. apply lookup_lt_Some in Hst.
    apply lookup_ge_None in Hth. destruct Hat as [Hlen _].
    pose proof (inv_length _ _ _ _ _ Hinv). lia. }
  destruct (at_stages_lookup _ _ _ _ Hat Hth) as ([p fid] & st & Hr & Hst & ->).
  cbn [fst snd] in Hth.
  assert (i < length stg)%nat as Hlt by by eapply lookup_lt_Some.
  assert (∀ db' st',
    step i σ = Some (mkSys db' (<[i:=thread_at p fid f st']> (threads σ))) →
    inv reqs f M db' (<[i:=st']> stg) →
    (todo st' ≤ pred (todo st))%nat →
    ∃ stg',
      at_stages reqs f (threads (default σ (step i σ))) stg' ∧
      inv reqs f M (store (default σ (step i σ))) stg' ∧
      (∀ j, j ≠ i → stg' !! j = stg !! j) ∧
      (∀ st, stg !! i = Some st →
             ∃ st', stg' !! i = Some st' ∧ (todo st' ≤ pred (todo st))%nat))
    as Hmoved.
  { intros db' st' -> Hinv' Htodo. simpl. exists (<[i:=st']> stg).
    split_and!; [|done| |].
    - exact (at_stages_insert _ _ i (p, fid) st' Hat Hr).
    - intros j Hne. by rewrite list_lookup_insert_ne.
    - intros st0 Hst0. simplify_eq. exists st'.
      by rewrite list_lookup_insert_eq. }
  assert (∀ j sj s, j ≠ i → stg !! j = Some sj → holds sj = Some s →
            SeatRow (seat_id s) ∈ of_others locks_of i (threads σ)) as Hlocked.
  { intros j sj s Hne Hj Hs. eapply others_seat_lock_2; [done..|].
    by eapply inv_length. }
  pose proof (inv_pkey _ _ _ _ _ Hinv) as Hpk.
  destruct st.
  - (* Begin *)
    apply (Hmoved (store σ) Picking); [| |simpl; lia].
    + unfold step. rewrite Hth. cbn [thread_at]. rewrite tx_step_begin.
      pose proof (inv_known _ _ _ _ _ Hinv) as Hk.
      eapply Forall_forall in Hk; [|by eapply list_elem_of_lookup_2].
      unfold target_flight in Hk. simpl in Hk.
      destruct (booking_findUnique p (store σ)) as [b|]; [|done].
      by simplify_eq/=.
    + eapply inv_restage; try done; try (by intros [?|?]).
  - (* Picking *)
    destruct (lock_next f (of_others locks_of i (threads σ)) (store σ))
      as [|seat l] eqn:Hnext.
    + apply (Hmoved (store σ) Failing); [| |simpl; lia].
      * unfold step. rewrite Hth. cbn [thread_at].
        by rewrite tx_step_picking, Hnext.
      * eapply inv_restage; try done; try (by intros [?|?]).
        intros _. right. intros s Hs Hopen.
        apply take_1_nil in Hnext.
        assert (s ∈ available_seats f (store σ)) as Hav
          by by apply elem_of_available_seats.
        destruct (decide (SeatRow (seat_id s)
                            ∈ of_others locks_of i (threads σ))) as [Hl|Hl].
        -- apply (others_seat_lock _ _ _ _ Hat) in Hl
             as (j & sj & s' & Hne & Hj & Hs' & Hid).
           exists j, sj. split_and!; [done..|]. rewrite Hs'. f_equal.
           destruct (inv_held _ _ _ _ _ Hinv _ _ _ Hj Hs') as [Hin' _].
           by apply (NoDup_fmap_eq seat_id (seats (store σ))).
        -- assert (s ∈ filter (λ s, SeatRow (seat_id s)
                                     ∉ of_others locks_of i (threads σ))
                          (available_seats f (store σ))) as Hin
             by by apply list_elem_of_filter.
           rewrite Hnext in Hin. by apply elem_of_nil in Hin.
    + assert (seat ∈ filter (λ s, SeatRow (seat_id s)
                                   ∉ of_others locks_of i (threads σ))
                        (available_seats f (store σ)))
        as [Hfree [Hin Hopen]%elem_of_available_seats]%list_elem_of_filter
        by by eapply take_1_cons.
      apply (Hmoved (store σ) (Sleeping seat)); [| |simpl; lia].
      * unfold step. rewrite Hth. cbn [thread_at].
        by rewrite tx_step_picking, Hnext.
      * eapply inv_restage; try done; try (by intros [?|?]).
        intros s Hs. simpl in Hs. simplify_eq. right. split_and!; [done..|].
        intros j sj s' Hj Hs' Hid. destruct (decide (j = i)) as [->|Hne].
        { by simplify_eq. }
        apply Hfree. rewrite <-Hid. by eapply Hlocked.
  - (* Sleeping *)
    apply (Hmoved (store σ) (Flipping seat)); [| |simpl; lia].
    + unfold step. rewrite Hth. cbn [thread_at].
      by rewrite (tx_step_sleeping p fid f).
    + eapply inv_restage; try done; try (by intros [?|?]). by left.
  - (* Flipping *)
    destruct (inv_held _ _ _ _ _ Hinv _ _ _ Hst eq_refl) as [Hin Hopen].
    apply (Hmoved (store σ) (Binding seat)); [| |simpl; lia].
    + unfold step. rewrite Hth. cbn [thread_at].
      rewrite (tx_step_flipping p fid f); [done| |done].
      intros (j & sj & s' & Hne & Hj & Hs' & Hid)%(others_seat_lock _ _ _ _ Hat).
      apply Hne. by eapply (inv_held_once _ _ _ _ _ Hinv j i).
    + eapply inv_restage; try done; try (by intros [?|?]). by left.
  - (* Binding *)
    destruct (inv_held _ _ _ _ _ Hinv _ _ _ Hst eq_refl) as [Hin Hopen].
    apply (Hmoved (store σ) (Committing seat)); [| |simpl; lia].
    + unfold step. rewrite Hth. cbn [thread_at].
      rewrite (tx_step_binding p fid f); [done|..].
      * intros (j & r & Hne & Hj & Hp)%(others_booking_lock _ _ _ _ Hat).
        apply Hne. eapply (NoDup_lookup reqs.*1 j i p); [done|..].
        -- by rewrite list_lookup_fmap, Hj, <-Hp.
        -- by rewrite list_lookup_fmap, Hr.
      * intros (j & sj & s' & Hne & Hj & Hs' & Hid)%(others_claims _ _ _ _ Hat).
        apply Hne. by eapply (inv_held_once _ _ _ _ _ Hinv j i).
      * pose proof (inv_known _ _ _ _ _ Hinv) as Hk.
        eapply Forall_forall in Hk; [|by eapply list_elem_of_lookup_2].
        unfold target_flight in Hk. simpl in Hk.
        destruct (booking_findUnique p (store σ)) as [b|] eqn:Hb; [|done].
        by eapply booking_findUnique_Exists.
      * intros Htaken. pose proof (inv_bound _ _ _ _ _ Hinv) as Hbd.
        eapply Forall_forall in Hbd; [|exact Hin].
        destruct Hopen as [_ Hav]. rewrite Hbd in Hav; [done|].
        eapply Exists_impl; [exact Htaken|]. by intros b [_ ?].
    + eapply inv_restage; try done; try (by intros [?|?]). by left.
  - (* Committing *)
    apply (Hmoved (booking_write p (Some (seat_id seat)) true
                     (seat_write (seat_id seat) None false (store σ)))
                  (Done seat)); [| |simpl; lia].
    + unfold step. rewrite Hth. cbn [thread_at].
      by rewrite tx_step_committing.
    + by eapply inv_commit.
  - (* Failing *)
    apply (Hmoved (store σ) Failed); [| |simpl; lia].
    + unfold step. rewrite Hth. cbn [thread_at].
      by rewrite tx_step_failing.
    + eapply inv_restage; try done; try (by intros [?|?]). intros _. left. by left.
  - (* Done *)
    unfold step. rewrite Hth. simpl. exists stg. split_and!; try done.
    intros st Hst'. simplify_eq. exists (Done seat). split; [done|simpl; lia].
  - (* Failed *)
    unfold step. rewrite Hth. simpl. exists stg. split_and!; try done.
    intros st Hst'. simplify_eq. exists Failed. split; [done|simpl; lia].
Qed.

End safe_calls.

Section safe_schedules.
Context (reqs : list (string * option Z)) (f : Z) (M : nat).
Context (Hdistinct : NoDup reqs.*1).

Lemma run_schedule_cons {A} i sched (σ : Sys A) :
  run_schedule (i :: sched) σ = run_schedule sched (default σ (step i σ)).
Proof. done. Qed.

(** The invariant holds at the end of every schedule, and every thread
    is by then as many statements further as it was named. *)
Lemma run_safe sched : ∀ σ stg,
  at_stages reqs f (threads σ) stg → inv reqs f M (store σ) stg →
  ∃ stg',
    at_stages reqs f (threads (run_schedule sched σ)) stg' ∧
    inv reqs f M (store (run_schedule sched σ)) stg' ∧
    ∀ i st, stg !! i = Some st →
      ∃ st', stg' !! i = Some st' ∧
             (todo st' ≤ todo st - length (filter (λ j, j = i) sched))%nat.
Proof.
  induction sched as [|k sched IH]; intros σ stg Hat Hinv.
  { exists stg. split_and!; [done..|]. intros i st Hst. exists st.
    split; [done|simpl; lia]. }
  rewrite run_schedule_cons.
  destruct (step_safe reqs f M Hdistinct σ stg k Hat Hinv)
    as (stg1 & Hat1 & Hinv1 & Hother & Hk).
  destruct (IH _ stg1 Hat1 Hinv1) as (stg' & Hat' & Hinv' & Htodo).
  exists stg'. split_and!; [done..|].
  intros i st Hst. rewrite filter_cons.
  destruct (decide (k = i)) as [->|Hne].
  - destruct (Hk st Hst) as (st1 & Hst1 & Hle1).
    destruct (Htodo i st1 Hst1) as (st' & Hst' & Hle').
    exists st'. split; [done|]. simpl. lia.
  - rewrite <-Hother in Hst by done.
    destruct (Htodo i st Hst) as (st' & Hst' & Hle'). eauto.
Qed.

Lemma at_stages_start db :
  at_stages reqs f (threads (safe_calls reqs db))
    (replicate (length reqs) Begin).
Proof.
  unfold safe_calls, start. cbn [threads]. split; [by rewrite !length_fmap|].
  intros i r Hr. exists Begin. split.
  - apply lookup_replicate_2. by eapply lookup_lt_Some.
  - by rewrite !list_lookup_fmap, Hr.
Qed.

Lemma omap_got_replicate n : omap got (replicate n Begin) = [].
Proof. induction n; [done|]. by csimpl. Qed.

Lemma inv_start db :
  seats_pkey db → bookings_pnr_key db → bookings_seatId_key db →
  bound_seats_unavailable db →
  Forall (λ r, target_flight db r = Some f) reqs →
  M = length (filter (open_on f) (seats db)) →
  inv reqs f M db (replicate (length reqs) Begin).
Proof.
  intros ????? ->. split; try done.
  - by rewrite length_replicate.
  - intros i st s [-> _]%lookup_replicate. done.
  - intros i j si sj s s' [-> _]%lookup_replicate. done.
  - by rewrite omap_got_replicate.
  - intros i s r [? _]%lookup_replicate. done.
  - intros i j s s' [? _]%lookup_replicate. done.
  - intros i st s [-> _]%lookup_replicate [?|?]; done.
Qed.

(** What the finished threads resolved to, read off the stages. *)
Lemma successes_at_stages ts stg :
  at_stages reqs f ts stg → length stg = length reqs →
  omap success_of ts
  = (λ s, mkAssignment (seatNumber s) (seat_id s) safe None) <$> omap got stg.
Proof.
  clear Hdistinct. intros [Hlen Hat] Hl. revert ts stg Hlen Hat Hl.
  induction reqs as [|r rs IH]; intros [|th ts] [|st stg] Hlen Hat Hl;
    simplify_eq/=; [done|].
  destruct (Hat 0%nat r eq_refl) as (st0 & ? & ?). simplify_eq/=.
  rewrite (IH ts stg); [|done| |done].
  - by destruct st0.
  - intros i ri Hri. exact (Hat (S i) ri Hri).
Qed.

Lemma NoDup_got stg :
  (∀ i j s s', stg !! i = Some (Done s) → stg !! j = Some (Done s') →
               seat_id s = seat_id s' → i = j) →
  NoDup (seat_id <$> omap got stg).
Proof.
  induction stg as [|st stg IH]; intros Hinj; [constructor|].
  assert (NoDup (seat_id <$> omap got stg)) as Hnd.
  { apply IH. intros i j s s' Hi Hj Hid.
    by injection (Hinj (S i) (S j) s s' Hi Hj Hid). }
  destruct st; try done. csimpl. apply NoDup_cons. split; [|done].
  intros (s' & Hid & (st' & Hin & Hg)%list_elem_of_omap)%list_elem_of_fmap.
  destruct st'; simplify_eq/=.
  apply list_elem_of_lookup in Hin as [j Hj].
  by specialize (Hinj 0%nat (S j) seat s' eq_refl Hj Hid).
Qed.

Lemma all_got stg :
  Forall (λ st, todo st = 0%nat ∧ ¬ gave_up st) stg →
  length (omap got stg) = length stg.
Proof.
  induction 1 as [|st stg [Htodo Hgu] _ IH]; [done|].
  destruct st; simplify_eq/=; try by rewrite IH.
  destruct Hgu. by right.
Qed.

Lemma length_omap_le {A B} (g : A → option B) (l : list A) :
  (length (omap g l) ≤ length l)%nat.
Proof.
  induction l as [|x l IH]; [done|]. csimpl. destruct (g x); simpl; lia.
Qed.

End safe_schedules.

(** C1 (as the code has it). [N] calls of the safe policy by pairwise
    different, known requesters, all drawing from one pool that has [M]
    seats available, on a store that respects the schema's unique keys
    and in which no available seat is referenced by a binding.  Under
    every schedule that lets each call run to its end: every call
    finishes, with a seat or with "No seats available ... or all seats
    are being processed"; exactly [min N M] calls get a seat; no two of
    them get the same seat and no seat is referenced by two bookings;
    each requester that got a seat is bound to it, checked in, and the
    seat is flagged unavailable. *)
Theorem safe_calls_bind_min reqs db f sched :
  NoDup reqs.*1 →
  Forall (λ r, target_flight db r = Some f) reqs →
  seats_pkey db → bookings_pnr_key db → bookings_seatId_key db →
  bound_seats_unavailable db →
  names_each 6 (length reqs) sched →
  let σ := run_schedule sched (safe_calls reqs db) in
  all_finished σ ∧
  length (successes σ)
    = (length reqs `min` length (available_seats f db))%nat ∧
  NoDup (a_seatId <$> successes σ) ∧
  bookings_seatId_key (store σ) ∧
  Forall2 (λ r th,
      th = Finished (inl NoSeatsOrLocked) ∨
      ∃ a b, th = Finished (inr a) ∧
             booking_findUnique r.1 (store σ) = Some b ∧
             seatId b = Some (a_seatId a) ∧ checkedIn b = true ∧
             all_unavailable (a_seatId a) (store σ))
    reqs (threads σ).
Proof.
  intros Hnd Hknown Hpk Hpnr Hsid Hbound Hfair σ.
  set (M := length (filter (open_on f) (seats db))).
  destruct (run_safe reqs f M Hnd sched (safe_calls reqs db)
              (replicate (length reqs) Begin))
    as (stg & Hat & Hinv & Htodo).
  { apply at_stages_start. }
  { by apply inv_start. }
  fold σ in Hat, Hinv.
  pose proof (inv_length _ _ _ _ _ Hinv) as Hlen.
  assert (∀ i st, stg !! i = Some st → todo st = 0%nat) as Hend.
  { intros i st Hst.
    assert (i < length reqs)%nat as Hi
      by (rewrite <-Hlen; by eapply lookup_lt_Some).
    destruct (Htodo i Begin) as (st' & Hst' & Hle).
    { by apply lookup_replicate_2. }
    simplify_eq.
    eapply Forall_forall in Hfair; [|apply elem_of_seq; split; [|exact Hi]; lia].
    simpl in *. lia. }
  assert (∀ i st, stg !! i = Some st → ¬ gave_up st → ∃ s, st = Done s)
    as Hdone.
  { intros i st Hst Hgu. apply Hend in Hst.
    destruct st; simplify_eq/=; eauto. destruct Hgu. by right. }
  split_and!.
  - apply Forall_lookup. intros i th Hth.
    destruct (at_stages_lookup _ _ _ _ _ _ Hat Hth) as (r & st & Hr & Hst & ->).
    apply Hend in Hst. destruct st; simplify_eq/=; eauto.
  - unfold successes. rewrite (successes_at_stages reqs f _ _ Hat Hlen).
    rewrite length_fmap, length_available_seats. fold M.
    pose proof (inv_count _ _ _ _ _ Hinv) as Hcount.
    destruct (decide (Exists gave_up stg)) as [Hgu|Hgu].
    + apply Exists_exists in Hgu as (st & [i Hi]%list_elem_of_lookup & Hst).
      assert (filter (open_on f) (seats (store σ)) = []) as Hnone.
      { apply elem_of_nil_inv. intros s [Hopen Hs]%list_elem_of_filter.
        destruct (inv_gave_up _ _ _ _ _ Hinv _ _ _ Hi Hst Hs Hopen)
          as (j & sj & Hj & Hh).
        apply Hend in Hj. by destruct sj. }
      rewrite Hnone in Hcount. simpl in Hcount.
      pose proof (length_omap_le got stg). lia.
    + rewrite all_got in Hcount |- *; [lia| |].
      * apply Forall_forall. intros st Hst. split.
        -- apply list_elem_of_lookup in Hst as [i Hi]. by eapply Hend.
        -- intros Hst'. apply Hgu. apply Exists_exists. eauto.
      * apply Forall_forall. intros st Hst. split.
        -- apply list_elem_of_lookup in Hst as [i Hi]. by eapply Hend.
        -- intros Hst'. apply Hgu. apply Exists_exists. eauto.
  - unfold successes. rewrite (successes_at_stages reqs f _ _ Hat Hlen).
    rewrite <-list_fmap_compose. apply NoDup_got.
    apply (inv_got_once _ _ _ _ _ Hinv).
  - apply (inv_seatId_key _ _ _ _ _ Hinv).
  - destruct Hat as [Hl Hat]. apply Forall2_same_length_lookup_2; [done|].
    intros i r th Hr Hth. destruct (Hat i r Hr) as (st & Hst & Hth').
    simplify_eq. destruct (decide (gave_up st)) as [Hgu|Hgu].
    + left. pose proof (Hend _ _ Hst). destruct Hgu; by simplify_eq/=.
    + right. destruct (Hdone _ _ Hst Hgu) as [s ->].
      destruct (inv_got _ _ _ _ _ Hinv _ _ _ Hst Hr)
        as (Hun & b & Hb & Hsid' & Hci).
      eexists _, b. split_and!; done.
Qed.

(** Four calls, three seats: round robin, six rounds. *)
Lemma safe_calls_bind_min_witness :
  let reqs := [("PNR001", None); ("PNR002", None);
               ("PNR003", Some 0); ("PNR004", Some 1)] in
  let σ := run_schedule (round_robin 6 4) (safe_calls reqs Sample.db0) in
  all_finished σ ∧
  length (successes σ) = 3%nat ∧
  NoDup (a_seatId <$> successes σ) ∧
  bookings_seatId_key (store σ) ∧
  Forall2 (λ r th,
      th = Finished (inl NoSeatsOrLocked) ∨
      ∃ a b, th = Finished (inr a) ∧
             booking_findUnique r.1 (store σ) = Some b ∧
             seatId b = Some (a_seatId a) ∧ checkedIn b = true ∧
             all_unavailable (a_seatId a) (store σ))
    reqs (threads σ).
Proof.
  intros reqs.
  apply (safe_calls_bind_min reqs Sample.db0 1 (round_robin 6 4)).
  - apply (bool_decide_eq_true_1 _). by vm_compute.
  - apply (bool_decide_eq_true_1 _). by vm_compute.
  - apply (bool_decide_eq_true_1 _). by vm_compute.
  - apply (bool_decide_eq_true_1 _). by vm_compute.
  - apply (bool_decide_eq_true_1 _). by vm_compute.
  - apply (bool_decide_eq_true_1 _). by vm_compute.
  - apply (bool_decide_eq_true_1 _). by vm_compute.
Defined.

(** C1 (as stated, refuted).  Two concurrent calls for the same
    requester against a pool of three available seats: both calls
    succeed, two seats are flagged unavailable, and one seat is bound
    afterwards, not [min 2 3].  One call for an unknown requester against
    the same pool: it fails and no seat is bound, not [min 1 3]. *)
Lemma concurrent_calls_bind_fewer :
  let twice := run_schedule (round_robin 7 2)
                 (safe_calls [("PNR001", None); ("PNR001", None)] Sample.db0) in
  let unknown := run_schedule (round_robin 6 1)
                   (safe_calls [("PNR999", None)] Sample.db0) in
  length (available_seats 1 Sample.db0) = 3%nat ∧
  all_finished twice ∧
  a_seatNumber <$> successes twice = ["10A"; "10B"] ∧
  omap seatId (bookings (store twice)) = [2] ∧
  length (omap seatId (bookings (store twice))) ≠ (2 `min` 3)%nat ∧
  seatNumber <$> filter (λ s, isAvailable s = false) (seats (store twice))
    = ["10B"; "10A"] ∧
  all_finished unknown ∧
  threads unknown = [Finished (inl InvalidPNR)] ∧
  omap seatId (bookings (store unknown)) = [] ∧
  length (omap seatId (bookings (store unknown))) ≠ (1 `min` 3)%nat.
Proof.
  cbv zeta. split_and!; try by vm_compute.
  - apply (bool_decide_eq_true_1 _). by vm_compute.
  - apply (bool_decide_eq_true_1 _). by vm_compute.
Qed.

(** ** One transaction alone: the machine and [transaction] agree *)

Lemma view_snoc db ws w : view db (ws ++ [w]) = apply_write (view db ws) w.
Proof. unfold view. by rewrite foldl_app. Qed.

Lemma step_alone {A} db (t : Tx A) :
  step 0 (mkSys db [Running t]) =
  match tx_step [] [] db t with
  | Some (db', th') => Some (mkSys db' [th'])
  | None => None
  end.
Proof. done. Qed.

Lemma lock_next_unlocked fid db : lock_next fid [] db = seat_findMany fid 1 db.
Proof.
  unfold lock_next, seat_findMany. f_equal. apply filter_all.
  apply Forall_true. intros s. apply not_elem_of_nil.
Qed.

(** A transaction that no other transaction meets runs to its end in the
    machine, and ends as [transaction] says: committed with the result of
    the callback, or rolled back with its error. *)
Lemma alone_agrees {A} (p : Prog A) : ∀ db ws ls,
  ∃ n,
    run_schedule (replicate n 0%nat) (mkSys db [Running (mkTx p ws ls)]) =
    match run p (view db ws) with
    | (inr a, v) => mkSys v [Finished (inr a)]
    | (inl e, _) => mkSys db [Finished (inl e)]
    end.
Proof.
  unfold run.
  induction p as [a|e|pn k IH|fid n k IH|id k IH|fid k IH|k IH
                  |id g a k IH|pn sid ci k IH|a k IH|ci k IH|k IH|fn k IH];
    intros db ws ls.
  - by exists 1%nat.
  - by exists 1%nat.
  - destruct (IH (booking_findUnique pn (view db ws)) db ws ls) as [n Hn].
    exists (S n). simpl replicate. by rewrite run_schedule_cons, step_alone.
  - destruct (IH (seat_findMany fid n (view db ws)) db ws ls) as [m Hm].
    exists (S m). simpl replicate. by rewrite run_schedule_cons, step_alone.
  - destruct (IH (seat_findUnique id (view db ws)) db ws ls) as [n Hn].
    exists (S n). simpl replicate. by rewrite run_schedule_cons, step_alone.
  - destruct (IH (seat_findMany fid 1 (view db ws)) db ws
                ((SeatRow ∘ seat_id <$> seat_findMany fid 1 (view db ws)) ++ ls))
      as [n Hn].
    exists (S n). simpl replicate. rewrite run_schedule_cons, step_alone.
    unfold tx_step. cbn [code writes locks]. rewrite lock_next_unlocked.
    exact Hn.
  - destruct (IH () db ws ls) as [n Hn].
    exists (S n). simpl replicate. by rewrite run_schedule_cons, step_alone.
  - simpl run_env.
    destruct (seat_update id g a (view db ws)) as [e|v'] eqn:Hsu.
    + destruct (IH (inl e) db ws ls) as [n Hn].
      exists (S n). simpl replicate. rewrite run_schedule_cons, step_alone.
      unfold tx_step. cbn [code writes locks].
      rewrite decide_False by apply not_elem_of_nil. by rewrite Hsu.
    + destruct (IH (inr ()) db (ws ++ [WSeat id g a]) (SeatRow id :: ls))
        as [n Hn].
      exists (S n). simpl replicate. rewrite run_schedule_cons, step_alone.
      unfold tx_step. cbn [code writes locks].
      rewrite decide_False by apply not_elem_of_nil. rewrite Hsu.
      apply seat_update_inv in Hsu as [-> _].
      by rewrite view_snoc in Hn.
  - simpl run_env.
    assert (¬ Exists (λ s : Z, s ∈ @nil Z) (option_list sid)) as Hnc.
    { intros (s & _ & []%elem_of_nil)%Exists_exists. }
    destruct (booking_update pn sid ci (view db ws)) as [e|v'] eqn:Hbu.
    + destruct (IH (inl e) db ws ls) as [n Hn].
      exists (S n). simpl replicate. rewrite run_schedule_cons, step_alone.
      unfold tx_step. cbn [code writes locks].
      rewrite decide_False by apply not_elem_of_nil.
      rewrite decide_False by done. by rewrite Hbu.
    + destruct (IH (inr ()) db (ws ++ [WBooking pn sid ci])
                  (BookingRow pn :: ls)) as [n Hn].
      exists (S n). simpl replicate. rewrite run_schedule_cons, step_alone.
      unfold tx_step. cbn [code writes locks].
      rewrite decide_False by apply not_elem_of_nil.
      rewrite decide_False by done. rewrite Hbu.
      apply booking_update_inv in Hbu as [-> _].
      by rewrite view_snoc in Hn.
  - destruct (IH () db (ws ++ [WAllSeats a])
                ((SeatRow ∘ seat_id <$> seats (view db ws)) ++ ls)) as [n Hn].
    exists (S n). simpl replicate. rewrite run_schedule_cons, step_alone.
    unfold tx_step. cbn [code writes locks].
    rewrite decide_False
      by (intros (s & _ & []%elem_of_nil)%Exists_exists).
    by rewrite view_snoc in Hn.
  - destruct (IH () db (ws ++ [WAllBookings ci])
                ((BookingRow ∘ pnr <$> bookings (view db ws)) ++ ls))
      as [n Hn].
    exists (S n). simpl replicate. rewrite run_schedule_cons, step_alone.
    unfold tx_step. cbn [code writes locks].
    rewrite decide_False
      by (intros (s & _ & []%elem_of_nil)%Exists_exists).
    by rewrite view_snoc in Hn.
  - destruct (IH (seat_count (view db ws)) db ws ls) as [n Hn].
    exists (S n). simpl replicate. by rewrite run_schedule_cons, step_alone.
  - destruct (IH (flight_findUnique fn (view db ws)) db ws ls) as [n Hn].
    exists (S n). simpl replicate. by rewrite run_schedule_cons, step_alone.
Qed.

Lemma alone_is_transaction {A} (p : Prog A) db :
  ∃ n, run_schedule (replicate n 0%nat) (start [p] db) =
       mkSys (transaction p db).2 [Finished (transaction p db).1].
Proof.
  destruct (alone_agrees p db [] []) as [n Hn]. exists n.
  unfold start. cbn [fmap list_fmap]. rewrite Hn. unfold transaction, view.
  simpl. by destruct (run p db) as [[e|a] v].
Qed.

(** Nothing a transaction writes reaches the store before it commits: a
    statement either leaves the committed rows as they are or is the
    COMMIT of a callback that resolved. *)
Lemma tx_step_store {A} fl fc db (t : Tx A) db' th :
  tx_step fl fc db t = Some (db', th) →
  db' = db ∨ ∃ a, code t = Ret a ∧ th = Finished (inr a).
Proof.
  unfold tx_step. destruct (code t); intros H;
    repeat (case_match || case_decide); simplify_eq; eauto.
Qed.

(** In the machine, a step of thread [i] that is not its COMMIT leaves
    the committed rows alone; so does every step of a call that ends in
    an error. *)
Lemma step_store {A} i (σ σ' : Sys A) :
  step i σ = Some σ' →
  store σ' = store σ ∨ ∃ a, threads σ' !! i = Some (Finished (inr a)).
Proof.
  unfold step. destruct (threads σ !! i) as [[t|r]|] eqn:Hi; [|done..].
  destruct (tx_step _ _ (store σ) t) as [[db' th']|] eqn:Hstep; [|done].
  intros ?; simplify_eq. simpl.
  apply tx_step_store in Hstep as [->|(a & _ & ->)]; [by left|].
  right. exists a. apply list_lookup_insert_eq. by eapply lookup_lt_Some.
Qed.

(** ** When the invariant of the design is kept *)

(** A first check-in keeps the invariant: the requester has no seat, and
    the call of the safe policy succeeds. *)
Lemma safe_keeps_invariant_unbound p fid db a db' b :
  seats_pkey db → bookings_pnr_key db → state_invariant db →
  booking_findUnique p db = Some b → seatId b = None →
  exec (selectNextAvailableSeatSafe p fid) db = (inr a, db') →
  state_invariant db'.
Proof.
  intros Hpk Hpnr [Hkey Hiff] Hb Hnone Hex.
  apply exec_safe_success in Hex
    as (b' & seat & Hb' & Hin & [_ Hav] & _ & -> & _ & ->).
  rewrite Hb in Hb'. injection Hb' as <-.
  assert (¬ bound (seat_id seat) db) as Hfree.
  { intros Hbd. eapply Forall_forall in Hiff; [|exact Hin].
    apply Hiff in Hbd. by rewrite Hbd in Hav. }
  split; [by apply seatId_key_booking_write|].
  rewrite seats_booking_write. unfold seat_write at 1, with_seats.
  cbn [seats]. apply Forall_fmap, Forall_forall. intros s Hs. unfold compose.
  eapply Forall_forall in Hiff; [|exact Hs].
  destruct (decide (seat_matches (seat_id seat) None s)) as [[Hid _]|Hn].
  - split; [|done]. intros _. simpl. rewrite Hid.
    unfold bound, booking_write, with_bookings. cbn [bookings].
    rewrite Exists_fmap. apply Exists_exists. exists b.
    apply booking_findUnique_pnr in Hb as [Hp Hin']. split; [done|].
    simpl. by rewrite decide_True.
  - rewrite Hiff. split.
    + intros (b0 & Hb0 & Hsid)%Exists_exists.
      unfold bound, booking_write, with_bookings. cbn [bookings].
      rewrite Exists_fmap. apply Exists_exists. exists b0. split; [done|].
      simpl. rewrite decide_False; [done|]. intros Hp.
      apply booking_findUnique_pnr in Hb as [Hp' Hin'].
      assert (b0 = b) as -> by
        (apply (NoDup_fmap_eq pnr (bookings db)); [done..|congruence]).
      congruence.
    + intros [Heq|?]%bound_after_bind; [|done].
      destruct Hn. by split.
Qed.

Lemma unsafe_keeps_invariant_unbound p fid db a db' b :
  seats_pkey db → bookings_pnr_key db → state_invariant db →
  booking_findUnique p db = Some b → seatId b = None →
  exec (selectNextAvailableSeatSafe p fid) db = (inr a, db') →
  state_invariant (exec (selectNextAvailableSeatUnsafe p fid) db).2.
Proof.
  intros Hpk Hpnr Hinv Hb Hnone Hex.
  rewrite (unsafe_alone_like_safe _ _ _ _ _ Hpk Hex). simpl.
  by eapply safe_keeps_invariant_unbound.
Qed.


(** * Further properties of the service and of the handlers *)

(** ** Either policy, run alone *)

Lemma available_seats_take fid n db :
  seat_findMany fid n db = take n (available_seats fid db).
Proof. done. Qed.

(** What a call does when nothing else runs, on a store whose bound seats
    are flagged: the three ways it can end. *)
Lemma exec_alone m p fid db :
  seats_pkey db → bound_seats_unavailable db →
  exec (select m p fid) db =
  match booking_findUnique p db with
  | None => (inl InvalidPNR, db)
  | Some b =>
      match available_seats (or_else fid (booking_flightId b)) db with
      | [] => (inl (pool_exhausted m), db)
      | seat :: _ =>
          (inr (mkAssignment (seatNumber seat) (seat_id seat) m (attempts_of m)),
           booking_write p (Some (seat_id seat)) true
             (seat_write (seat_id seat) None false db))
      end
  end.
Proof.
  intros Hpk Hbd.
  assert (exec (selectNextAvailableSeatSafe p fid) db =
    match booking_findUnique p db with
    | None => (inl InvalidPNR, db)
    | Some b =>
        match available_seats (or_else fid (booking_flightId b)) db with
        | [] => (inl NoSeatsOrLocked, db)
        | seat :: _ =>
            (inr (mkAssignment (seatNumber seat) (seat_id seat) safe None),
             booking_write p (Some (seat_id seat)) true
               (seat_write (seat_id seat) None false db))
        end
    end) as Hsafe.
  { rewrite exec_safe. unfold transaction. rewrite run_safe_body.
    destruct (booking_findUnique p db) as [b|] eqn:Hb; [|done].
    rewrite available_seats_take.
    destruct (available_seats _ db) as [|seat l] eqn:Hq; [done|].
    cbn [take].
    assert (seat ∈ seats db ∧ open_on (or_else fid (booking_flightId b)) seat)
      as [Hin [Hfl Hav]].
    { apply elem_of_available_seats. rewrite Hq. left. }
    rewrite seat_update_ok
      by (apply Exists_exists; exists seat; by repeat split).
    rewrite booking_update_ok; [done| |].
    - rewrite Exists_exists. apply booking_findUnique_pnr in Hb as [? ?].
      exists b. done.
    - by apply (free_seat_unique_ok p db seat). }
  destruct m; [|exact Hsafe]. cbn [select].
  destruct (booking_findUnique p db) as [b|] eqn:Hb.
  - destruct (available_seats _ db) as [|seat l] eqn:Hq.
    + rewrite exec_unsafe, run_unsafe_body. cbn [intrude]. rewrite Hb.
      rewrite available_seats_take, Hq. done.
    + by rewrite (unsafe_alone_like_safe _ _ _ _ _ Hpk Hsafe).
  - rewrite exec_unsafe, run_unsafe_body. cbn [intrude]. by rewrite Hb.
Qed.

(** ** The seat map *)

Lemma exec_seat_map fn db :
  exec (getFlightSeatMap fn) db =
  (match flight_findUnique fn db with
   | None => inl FlightNotFound
   | Some (flight, flight_seats) =>
       inr (mkSeatMap (flightNumber flight) (totalSeats flight)
              (length (filter (λ s, isAvailable s = true) flight_seats))
              flight_seats)
   end, db).
Proof.
  unfold exec, getFlightSeatMap, run. simpl.
  by destruct (flight_findUnique fn db) as [[f l]|].
Qed.

Lemma flight_findUnique_None fn db :
  flight_findUnique fn db = None ↔ Forall (λ f, flightNumber f ≠ fn) (flights db).
Proof.
  unfold flight_findUnique.
  destruct (head _) as [f|] eqn:Hh.
  - split; [done|]. intros Hall.
    apply head_Some_elem_of, list_elem_of_filter in Hh as [Hfn Hin].
    by eapply Forall_forall in Hall.
  - split; [|done]. intros _. apply head_None in Hh.
    apply Forall_forall. intros f Hin Hfn.
    assert (f ∈ filter (λ f, flightNumber f = fn) (flights db)) as Hf
      by by apply list_elem_of_filter.
    rewrite Hh in Hf. by apply elem_of_nil in Hf.
Qed.

Lemma flight_findUnique_Some fn db f l :
  flight_findUnique fn db = Some (f, l) →
  f ∈ flights db ∧ flightNumber f = fn ∧
  l = merge_sort seat_le (filter (λ s, seat_flightId s = flight_id f) (seats db)).
Proof.
  unfold flight_findUnique.
  destruct (head _) as [f'|] eqn:Hh; [|done]. intros ?; simplify_eq.
  apply head_Some_elem_of, list_elem_of_filter in Hh as [Hfn Hin]. done.
Qed.

(** X1. [getFlightSeatMap] never writes to the store, and it throws
    exactly when no flight carries the flight number, and then "Flight not
    found" and nothing else. *)
Theorem seat_map_unknown_flight fn db :
  (exec (getFlightSeatMap fn) db).2 = db ∧
  ((exec (getFlightSeatMap fn) db).1 = inl FlightNotFound ↔
   Forall (λ f, flightNumber f ≠ fn) (flights db)) ∧
  (∀ e, (exec (getFlightSeatMap fn) db).1 = inl e → e = FlightNotFound).
Proof.
  rewrite exec_seat_map. cbn [fst snd]. split_and!; [done| |].
  - rewrite <-flight_findUnique_None.
    destruct (flight_findUnique fn db) as [[f l]|]; naive_solver.
  - intros e. destruct (flight_findUnique fn db) as [[f l]|]; naive_solver.
Qed.

Lemma filter_open_on fid (l : list Seat) :
  filter (λ s, isAvailable s = true) (filter (λ s, seat_flightId s = fid) l)
  = filter (open_on fid) l.
Proof.
  induction l as [|s l IH]; [done|].
  rewrite (filter_cons (open_on fid)), (filter_cons (λ s, seat_flightId s = fid)).
  destruct (decide (seat_flightId s = fid)) as [Hf|Hf].
  - rewrite filter_cons.
    destruct (decide (isAvailable s = true)) as [Ha|Ha].
    + rewrite decide_True by done. by rewrite IH.
    + rewrite decide_False by (by intros [_ ?]). done.
  - rewrite decide_False by (by intros [? _]). done.
Qed.

(** X2. The seat map of a known flight lists the seat rows of that flight
    and no others, each once, in ascending seat-number order; its
    [availableCount] is the size of the pool the two allocation policies
    draw from; [totalSeats] is the column of the flight row. *)
Theorem seat_map_listing fn db m :
  (exec (getFlightSeatMap fn) db).1 = inr m →
  ∃ f, f ∈ flights db ∧ flightNumber f = fn ∧
       sm_flightNumber m = fn ∧ sm_totalSeats m = totalSeats f ∧
       sm_seats m ≡ₚ filter (λ s, seat_flightId s = flight_id f) (seats db) ∧
       StronglySorted seat_le (sm_seats m) ∧
       availableCount m = length (available_seats (flight_id f) db) ∧
       (availableCount m ≤ length (sm_seats m))%nat.
Proof.
  rewrite exec_seat_map. cbn [fst].
  destruct (flight_findUnique fn db) as [[f l]|] eqn:Hf; [|done].
  intros ?; simplify_eq.
  apply flight_findUnique_Some in Hf as (Hin & Hfn & ->).
  exists f. cbn [sm_flightNumber sm_totalSeats sm_seats availableCount].
  split_and!; try done.
  - apply merge_sort_Permutation.
  - apply StronglySorted_merge_sort; apply _.
  - rewrite length_available_seats, <-filter_open_on.
    by rewrite merge_sort_Permutation.
  - apply length_filter.
Qed.

(** The seat map of flight AA123 in the sample store. *)
Lemma seat_map_listing_witness :
  let m := mkSeatMap "AA123" 3 3 [Sample.s10A; Sample.s10B; Sample.s10C] in
  (exec (getFlightSeatMap "AA123") Sample.db0).1 = inr m ∧
  ∃ f, f ∈ flights Sample.db0 ∧ flightNumber f = "AA123" ∧
       sm_flightNumber m = "AA123" ∧ sm_totalSeats m = totalSeats f ∧
       sm_seats m
         ≡ₚ filter (λ s, seat_flightId s = flight_id f) (seats Sample.db0) ∧
       StronglySorted seat_le (sm_seats m) ∧
       availableCount m = length (available_seats (flight_id f) Sample.db0) ∧
       (availableCount m ≤ length (sm_seats m))%nat.
Proof.
  cbv zeta. split; [by vm_compute|].
  apply (seat_map_listing "AA123" Sample.db0). by vm_compute.
Defined.

Lemma length_filter_fmap_on {A} (P : A → Prop) `{∀ x, Decision (P x)}
    (g : A → A) (l : list A) :
  (∀ x, x ∈ l → P (g x) ↔ P x) →
  length (filter P (g <$> l)) = length (filter P l).
Proof.
  induction l as [|x l IH]; [done|]. intros Hg. csimpl.
  rewrite !filter_cons.
  assert (P (g x) ↔ P x) as Hx by (apply Hg; left).
  assert (length (filter P (g <$> l)) = length (filter P l)) as Hl
    by (apply IH; intros y Hy; apply Hg; by right).
  destruct (decide (P (g x))), (decide (P x)); simpl; tauto || by rewrite Hl.
Qed.

(** Flagging an available seat takes one seat out of the pool of its
    flight and none out of the other pools. *)
Lemma pool_after_seat_write f db s :
  seats_pkey db → s ∈ seats db → isAvailable s = true →
  (length (available_seats f (seat_write (seat_id s) None false db))
   + (if decide (seat_flightId s = f) then 1 else 0)
   = length (available_seats f db))%nat.
Proof.
  intros Hpk Hin Hav. rewrite !length_available_seats.
  case_decide as Hf.
  - by apply open_count_seat_write.
  - rewrite Nat.add_0_r. unfold seat_write, with_seats. cbn [seats].
    apply length_filter_fmap_on. intros x Hx.
    case_decide as Hm; [|done]. destruct Hm as [Hid _].
    assert (x = s) as -> by by apply (NoDup_fmap_eq seat_id (seats db)).
    unfold open_on. simpl. split; intros [? ?]; congruence.
Qed.

Lemma seat_map_count fn db m :
  (exec (getFlightSeatMap fn) db).1 = inr m →
  ∃ f l, flight_findUnique fn db = Some (f, l) ∧
         sm_totalSeats m = totalSeats f ∧ sm_seats m = l ∧
         availableCount m = length (available_seats (flight_id f) db).
Proof.
  rewrite exec_seat_map. cbn [fst].
  destruct (flight_findUnique fn db) as [[f l]|] eqn:Hf; [|done].
  intros ?; simplify_eq. exists f, l.
  apply flight_findUnique_Some in Hf as (Hin & Hfn & ->).
  split_and!; try done. cbn [availableCount].
  rewrite length_available_seats, <-filter_open_on.
  by rewrite merge_sort_Permutation.
Qed.

(** X3. A successful check-in, under either policy and with nothing else
    running, takes exactly one seat off the [availableCount] of the seat
    map of the flight that the assigned seat is on, and leaves the
    [availableCount] of every other flight, and every [totalSeats], as
    they were. *)
Theorem checkin_lowers_available_count m p fid db a db' fn sm :
  seats_pkey db → bound_seats_unavailable db →
  exec (select m p fid) db = (inr a, db') →
  (exec (getFlightSeatMap fn) db).1 = inr sm →
  ∃ sm', (exec (getFlightSeatMap fn) db').1 = inr sm' ∧
         sm_totalSeats sm' = sm_totalSeats sm ∧
         length (sm_seats sm') = length (sm_seats sm) ∧
         (availableCount sm'
          + (if decide (a_seatId a ∈ seat_id <$> sm_seats sm) then 1 else 0)
          = availableCount sm)%nat.
Proof.
  intros Hpk Hbd Hex Hsm.
  rewrite (exec_alone m p fid db Hpk Hbd) in Hex.
  destruct (booking_findUnique p db) as [b|] eqn:Hb; [|done].
  set (t := or_else fid (booking_flightId b)) in *.
  destruct (available_seats t db) as [|seat w] eqn:Hw; [done|].
  injection Hex as <- <-.
  assert (seat ∈ seats db ∧ open_on t seat) as [Hin [Hfl Hav]]
    by (apply elem_of_available_seats; rewrite Hw; left).
  apply seat_map_count in Hsm as (f & l & Hf & Htot & Hl & Hcount).
  set (db1 := seat_write (seat_id seat) None false db).
  assert (flight_findUnique fn (booking_write p (Some (seat_id seat)) true db1)
          = Some (f, merge_sort seat_le
                       (filter (λ s, seat_flightId s = flight_id f) (seats db1))))
    as Hf'.
  { unfold flight_findUnique in *. cbn [flights booking_write with_bookings
      seats db1 seat_write with_seats] in *.
    destruct (head _) as [f'|]; [|done]. by simplify_eq. }
  eexists. rewrite exec_seat_map, Hf'. cbn [fst]. split; [done|].
  cbn [sm_totalSeats sm_seats availableCount a_seatId].
  apply flight_findUnique_Some in Hf as (_ & _ & Hl').
  split; [done|]. split.
  - rewrite Hl, Hl', !merge_sort_Permutation.
    unfold db1, seat_write, with_seats. cbn [seats].
    apply length_filter_fmap_on. intros x _. by case_decide.
  - rewrite merge_sort_Permutation, filter_open_on, <-length_available_seats.
    rewrite Hcount, <-(pool_after_seat_write (flight_id f) db seat Hpk Hin Hav).
    fold db1. f_equal.
    assert (seat_id seat ∈ seat_id <$> sm_seats sm
            ↔ seat_flightId seat = flight_id f) as Hiff.
    { rewrite Hl, Hl', merge_sort_Permutation, list_elem_of_fmap.
      split.
      - intros (s' & Hid & [Hfl' Hin']%list_elem_of_filter).
        assert (s' = seat) as -> by
          by apply (NoDup_fmap_eq seat_id (seats db)).
        done.
      - intros Hfl'. exists seat. split; [done|].
        by apply list_elem_of_filter. }
    destruct (decide (seat_id seat ∈ _)), (decide (seat_flightId seat = _));
      tauto.
Qed.

(** PNR001 checks in on the sample store: flight AA123 goes from three
    available seats to two. *)
Lemma checkin_lowers_available_count_witness :
  let db := Sample.db0 in
  let a := mkAssignment "10A" 1 safe None in
  let db' := (exec (selectNextAvailableSeatSafe "PNR001" None) db).2 in
  let sm := mkSeatMap "AA123" 3 3 [Sample.s10A; Sample.s10B; Sample.s10C] in
  (seats_pkey db ∧ bound_seats_unavailable db ∧
   exec (select safe "PNR001" None) db = (inr a, db') ∧
   (exec (getFlightSeatMap "AA123") db).1 = inr sm) ∧
  ∃ sm', (exec (getFlightSeatMap "AA123") db').1 = inr sm' ∧
         sm_totalSeats sm' = sm_totalSeats sm ∧
         length (sm_seats sm') = length (sm_seats sm) ∧
         (availableCount sm'
          + (if decide (a_seatId a ∈ seat_id <$> sm_seats sm) then 1 else 0)
          = availableCount sm)%nat.
Proof.
  cbv zeta.
  assert (seats_pkey Sample.db0) as Hpk
    by (apply (bool_decide_eq_true_1 _); by vm_compute).
  assert (bound_seats_unavailable Sample.db0) as Hbd
    by (apply (bool_decide_eq_true_1 _); by vm_compute).
  split; [split_and!; try done; by vm_compute|].
  apply (checkin_lowers_available_count safe "PNR001" None Sample.db0
           (mkAssignment "10A" 1 safe None)
           (exec (selectNextAvailableSeatSafe "PNR001" None) Sample.db0).2
           "AA123"); try done; by vm_compute.
Defined.

(** ** Login *)

Lemma or_else_None d : or_else None d = d.
Proof. done. Qed.

Lemma seats_pkey_seat_write id g a db :
  seats_pkey db → seats_pkey (seat_write id g a db).
Proof. unfold seats_pkey. by rewrite seat_ids_seat_write. Qed.

Lemma seat_written id g a db s :
  s ∈ seats db → seat_matches id g s →
  set_available a s ∈ seats (seat_write id g a db).
Proof.
  intros Hs Hm. unfold seat_write, with_seats. cbn [seats].
  apply list_elem_of_fmap. exists s. split; [|done]. by rewrite decide_True.
Qed.

(** X4. What login shows and what auto-assign then does: the available
    seats that [loginWithPNR] lists are exactly the rows of the booking's
    own flight that are flagged available, each listed once, in ascending
    seat-number order, and a call of either policy without a flight
    selector, run next with nothing in between, is bound to the first
    seat of that list, or fails as pool exhausted when the list is
    empty. *)
Theorem login_shows_next_seat m p db d :
  seats_pkey db → bound_seats_unavailable db →
  loginWithPNR p db = inr d →
  l_pnr d = p ∧
  StronglySorted seat_le (availableSeats d) ∧
  (∀ s, s ∈ availableSeats d → s ∈ seats db ∧ isAvailable s = true) ∧
  (∃ b, booking_findUnique p db = Some b ∧
        availableSeats d ≡ₚ filter (open_on (booking_flightId b)) (seats db) ∧
        NoDup (availableSeats d) ∧
        ∀ s, s ∈ availableSeats d ↔
             s ∈ seats db ∧ seat_flightId s = booking_flightId b ∧
             isAvailable s = true) ∧
  (exec (select m p None) db).1 =
    match availableSeats d with
    | [] => inl (pool_exhausted m)
    | seat :: _ =>
        inr (mkAssignment (seatNumber seat) (seat_id seat) m (attempts_of m))
    end.
Proof.
  intros Hpk Hbd. unfold loginWithPNR.
  rewrite (exec_alone m p None db Hpk Hbd).
  destruct (booking_findUnique p db) as [b|] eqn:Hb; [|done].
  intros ?; simplify_eq. cbn [l_pnr availableSeats]. rewrite or_else_None.
  split_and!.
  - by apply booking_findUnique_pnr in Hb as [? _].
  - apply available_seats_sorted.
  - intros s [? [_ ?]]%elem_of_available_seats. done.
  - exists b. split_and!; [done|apply available_seats_perm| |].
    + rewrite available_seats_perm. apply NoDup_filter. by eapply NoDup_fmap_1.
    + intros s. rewrite elem_of_available_seats. unfold open_on. tauto.
  - by destruct (available_seats _ db).
Qed.

Lemma login_shows_next_seat_witness :
  let d := mkLoginData "PNR001" false None
             [Sample.s10A; Sample.s10B; Sample.s10C] in
  (seats_pkey Sample.db0 ∧ bound_seats_unavailable Sample.db0 ∧
   loginWithPNR "PNR001" Sample.db0 = inr d) ∧
  l_pnr d = "PNR001" ∧
  StronglySorted seat_le (availableSeats d) ∧
  (∀ s, s ∈ availableSeats d → s ∈ seats Sample.db0 ∧ isAvailable s = true) ∧
  (∃ b, booking_findUnique "PNR001" Sample.db0 = Some b ∧
        availableSeats d
        ≡ₚ filter (open_on (booking_flightId b)) (seats Sample.db0) ∧
        NoDup (availableSeats d) ∧
        ∀ s, s ∈ availableSeats d ↔
             s ∈ seats Sample.db0 ∧ seat_flightId s = booking_flightId b ∧
             isAvailable s = true) ∧
  (exec (select unsafe "PNR001" None) Sample.db0).1 =
    inr (mkAssignment "10A" 1 unsafe (Some 1%nat)).
Proof.
  cbv zeta.
  assert (seats_pkey Sample.db0) as Hpk
    by (apply (bool_decide_eq_true_1 _); by vm_compute).
  assert (bound_seats_unavailable Sample.db0) as Hbd
    by (apply (bool_decide_eq_true_1 _); by vm_compute).
  split; [split_and!; try done; by vm_compute|].
  apply (login_shows_next_seat unsafe "PNR001" Sample.db0
           (mkLoginData "PNR001" false None
              [Sample.s10A; Sample.s10B; Sample.s10C]) Hpk Hbd).
  by vm_compute.
Defined.

(** X5. Check-in, then login: after a successful call of either policy
    the login of the same PNR shows the booking checked in, with the seat
    that the call reported as its current seat, flagged unavailable, and
    absent from the list of available seats. *)
Theorem login_after_checkin m p fid db a db' :
  seats_pkey db → bound_seats_unavailable db →
  exec (select m p fid) db = (inr a, db') →
  ∃ d s, loginWithPNR p db' = inr d ∧
         l_pnr d = p ∧ l_checkedIn d = true ∧
         currentSeat d = Some s ∧
         seat_id s = a_seatId a ∧ seatNumber s = a_seatNumber a ∧
         isAvailable s = false ∧
         Forall (λ s', seat_id s' ≠ a_seatId a) (availableSeats d).
Proof.
  intros Hpk Hbd Hex.
  rewrite (exec_alone m p fid db Hpk Hbd) in Hex.
  destruct (booking_findUnique p db) as [b|] eqn:Hb; [|done].
  set (t := or_else fid (booking_flightId b)) in *.
  destruct (available_seats t db) as [|seat w] eqn:Hw; [done|].
  injection Hex as <- <-.
  assert (seat ∈ seats db ∧ open_on t seat) as [Hin [Hfl Hav]]
    by (apply elem_of_available_seats; rewrite Hw; left).
  set (db1 := seat_write (seat_id seat) None false db).
  unfold loginWithPNR.
  rewrite (booking_findUnique_bound p (Some (seat_id seat)) true db1 b Hb).
  eexists _, (set_available false seat). split; [done|].
  cbn [l_pnr l_checkedIn currentSeat availableSeats set_binding pnr checkedIn
       seatId booking_flightId a_seatId a_seatNumber mbind option_bind].
  split_and!; try done.
  - by apply booking_findUnique_pnr in Hb as [? _].
  - change (seat_findUnique (seat_id (set_available false seat)) db1
            = Some (set_available false seat)).
    apply seat_findUnique_pkey; [by apply seats_pkey_seat_write|].
    by apply seat_written.
  - apply Forall_forall.
    intros s [Hs Hopen]%elem_of_available_seats.
    by apply (open_after_seat_write _ _ _ _ Hs Hopen).
Qed.

Lemma login_after_checkin_witness :
  let db' := (exec (selectNextAvailableSeatUnsafe "PNR002" None) Sample.db0).2 in
  let a := mkAssignment "10A" 1 unsafe (Some 1%nat) in
  (seats_pkey Sample.db0 ∧ bound_seats_unavailable Sample.db0 ∧
   exec (select unsafe "PNR002" None) Sample.db0 = (inr a, db')) ∧
  ∃ d s, loginWithPNR "PNR002" db' = inr d ∧
         l_pnr d = "PNR002" ∧ l_checkedIn d = true ∧
         currentSeat d = Some s ∧
         seat_id s = a_seatId a ∧ seatNumber s = a_seatNumber a ∧
         isAvailable s = false ∧
         Forall (λ s', seat_id s' ≠ a_seatId a) (availableSeats d).
Proof.
  cbv zeta.
  assert (seats_pkey Sample.db0) as Hpk
    by (apply (bool_decide_eq_true_1 _); by vm_compute).
  assert (bound_seats_unavailable Sample.db0) as Hbd
    by (apply (bool_decide_eq_true_1 _); by vm_compute).
  split; [split_and!; try done; by vm_compute|].
  apply (login_after_checkin unsafe "PNR002" None Sample.db0
           (mkAssignment "10A" 1 unsafe (Some 1%nat))
           (exec (selectNextAvailableSeatUnsafe "PNR002" None) Sample.db0).2
           Hpk Hbd).
  by vm_compute.
Defined.

(** ** The invariant under a first check-in *)

Lemma invariant_bound_seats_unavailable db :
  state_invariant db → bound_seats_unavailable db.
Proof.
  intros [_ Hiff]. unfold bound_seats_unavailable.
  eapply Forall_impl; [exact Hiff|]. intros s Hs. apply Hs.
Qed.

Lemma bookings_pnr_key_after p sid ci id g a db :
  bookings_pnr_key db →
  bookings_pnr_key (booking_write p sid ci (seat_write id g a db)).
Proof. unfold bookings_pnr_key. by rewrite pnrs_booking_write. Qed.

(** X6. A first check-in keeps the invariant of the design, however it
    ends: on a store that satisfies the schema's keys and the invariant, a
    call of either policy for a booking that has no seat yet, run with
    nothing else, leaves a store that satisfies them again (the store
    itself when the call fails). *)
Theorem first_checkin_keeps_invariant m p fid db r db' :
  seats_pkey db → bookings_pnr_key db → state_invariant db →
  (∀ b, booking_findUnique p db = Some b → seatId b = None) →
  exec (select m p fid) db = (r, db') →
  state_invariant db' ∧ seats_pkey db' ∧ bookings_pnr_key db' ∧
  (∀ e, r = inl e → db' = db).
Proof.
  intros Hpk Hpnr Hinv Hfirst Hex.
  pose proof (invariant_bound_seats_unavailable db Hinv) as Hbd.
  pose proof (exec_alone safe p fid db Hpk Hbd) as Hsafe.
  rewrite (exec_alone m p fid db Hpk Hbd) in Hex.
  destruct (booking_findUnique p db) as [b|] eqn:Hb;
    [|by simplify_eq].
  destruct (available_seats _ db) as [|seat w]; [by simplify_eq|].
  injection Hex as <- <-. split_and!.
  - eapply (safe_keeps_invariant_unbound p fid db); eauto.
  - apply seats_pkey_seat_write, Hpk.
  - by apply bookings_pnr_key_after.
  - done.
Qed.

Lemma first_checkin_keeps_invariant_witness :
  let db := Sample.db0 in
  let r := inr (mkAssignment "10A" 1 unsafe (Some 1%nat)) in
  let db' := (exec (selectNextAvailableSeatUnsafe "PNR003" None) db).2 in
  (seats_pkey db ∧ bookings_pnr_key db ∧ state_invariant db ∧
   (∀ b, booking_findUnique "PNR003" db = Some b → seatId b = None) ∧
   exec (select unsafe "PNR003" None) db = (r, db')) ∧
  state_invariant db' ∧ seats_pkey db' ∧ bookings_pnr_key db' ∧
  (∀ e, r = inl e → db' = db).
Proof.
  cbv zeta.
  assert (seats_pkey Sample.db0) as Hpk
    by (apply (bool_decide_eq_true_1 _); by vm_compute).
  assert (bookings_pnr_key Sample.db0) as Hpnr
    by (apply (bool_decide_eq_true_1 _); by vm_compute).
  assert (state_invariant Sample.db0) as Hinv
    by (apply (bool_decide_eq_true_1 _); by vm_compute).
  assert (∀ b, booking_findUnique "PNR003" Sample.db0 = Some b →
               seatId b = None) as Hfirst
    by (intros b Hb; vm_compute in Hb; by simplify_eq).
  assert (exec (select unsafe "PNR003" None) Sample.db0
          = (inr (mkAssignment "10A" 1 unsafe (Some 1%nat)),
             (exec (selectNextAvailableSeatUnsafe "PNR003" None) Sample.db0).2))
    as Hex by by vm_compute.
  split; [done|].
  exact (first_checkin_keeps_invariant unsafe "PNR003" None Sample.db0 _ _
           Hpk Hpnr Hinv Hfirst Hex).
Defined.

(** ** The handlers *)

Lemma given_string_Some s p : given_string s = Some p ↔ s = Some p ∧ p ≠ "".
Proof.
  unfold given_string. destruct s as [s|]; simpl.
  - case_decide as Hs; split.
    + done.
    + intros [? ?]; by simplify_eq.
    + intros ?; by simplify_eq.
    + intros [? ?]; by simplify_eq.
  - split; [done|]. by intros [? _].
Qed.

Lemma given_string_None s : given_string s = None ↔ s = None ∨ s = Some "".
Proof.
  unfold given_string. destruct s as [s|]; simpl.
  - case_decide as Hs; split.
    + intros _. right. by rewrite Hs.
    + done.
    + done.
    + intros [?|?]; by simplify_eq.
  - split; [by left|done].
Qed.

Lemma given_number_Some n k : given_number n = Some k ↔ n = Some k ∧ k ≠ 0.
Proof.
  unfold given_number. destruct n as [n|]; simpl.
  - case_decide as Hn; split.
    + done.
    + intros [? ?]; by simplify_eq.
    + intros ?; by simplify_eq.
    + intros [? ?]; by simplify_eq.
  - split; [done|]. by intros [? _].
Qed.

Lemma given_number_None n : given_number n = None ↔ n = None ∨ n = Some 0.
Proof.
  unfold given_number. destruct n as [n|]; simpl.
  - case_decide as Hn; split.
    + intros _. right. by rewrite Hn.
    + done.
    + done.
    + intros [?|?]; by simplify_eq.
  - split; [by left|done].
Qed.

(** X7. Requests that miss a field are answered 400 before the store is
    touched.  A PNR that is absent or the empty string is answered "PNR is
    required" by the login and the auto-assign handlers; the select-seat
    handlers answer "PNR and seatId are required" for such a PNR and also
    for a seat id that is absent or 0; reset-seat answers "seatId is
    required" for such a seat id. *)
Theorem missing_fields_rejected body db :
  (body_pnr body = None ∨ body_pnr body = Some "" →
   let reply := status_json 400 (ErrorBody "PNR is required") in
   post_checkin_login body db = (reply, db) ∧
   post_checkin_auto_assign_seat_unsafe body db = (reply, db) ∧
   post_checkin_auto_assign_seat_safe body db = (reply, db)) ∧
  (body_pnr body = None ∨ body_pnr body = Some "" ∨
   body_seatId body = None ∨ body_seatId body = Some 0 →
   let reply := status_json 400 (ErrorBody "PNR and seatId are required") in
   post_checkin_select_seat_unsafe body db = (reply, db) ∧
   post_checkin_select_seat_safe body db = (reply, db)) ∧
  (body_seatId body = None ∨ body_seatId body = Some 0 →
   post_admin_reset_seat body db
   = (status_json 400 (ErrorBody "seatId is required"), db)).
Proof.
  split_and!.
  - intros Hp%given_string_None. cbv zeta.
    unfold post_checkin_login, post_checkin_auto_assign_seat_unsafe,
      post_checkin_auto_assign_seat_safe. by rewrite Hp.
  - intros H. cbv zeta.
    unfold post_checkin_select_seat_unsafe, post_checkin_select_seat_safe.
    assert (given_string (body_pnr body) = None ∨
            given_number (body_seatId body) = None) as [Hp|Hs].
    { rewrite given_string_None, given_number_None. tauto. }
    + by rewrite Hp.
    + rewrite Hs. by destruct (given_string _).
  - intros Hs%given_number_None. unfold post_admin_reset_seat. by rewrite Hs.
Qed.

(** X8. The replies of the unsafe auto-assign handler to a request whose
    flight selector fits the column, whatever the other requests do while
    the service call runs: 200 with the assignment when the call returns;
    400 "Invalid PNR" for an unknown PNR; 409 "Flight is full" when the
    window of candidates is empty; 409 "Seat assignment conflict - please
    try again" when every candidate was lost.  No other reply follows such
    a service call, and an unknown PNR is not a 404 here. *)
Theorem auto_assign_unsafe_replies p fid env db :
  let r := (run_env (body_of (selectNextAvailableSeatUnsafe p fid)) env db).1 in
  fits fid →
  match r with
  | inr a => auto_assign_unsafe_reply r = json (AssignmentBody a) ∧
             a_method a = unsafe
  | inl e =>
      (e = InvalidPNR ∧
       auto_assign_unsafe_reply r = status_json 400 (ErrorBody "Invalid PNR")) ∨
      (e = NoSeatsAvailable ∧
       auto_assign_unsafe_reply r = status_json 409 (ErrorBody "Flight is full")) ∨
      (e = AllAttemptsFailed ∧
       auto_assign_unsafe_reply r
       = status_json 409
           (ErrorBody "Seat assignment conflict - please try again"))
  end.
Proof.
  cbv zeta. intros _.
  destruct (run_env _ env db) as [[e|a] db'] eqn:Hrun; cbn [fst].
  - apply unsafe_errors in Hrun as [->|[->| ->]]; auto.
  - split; [done|]. revert Hrun. rewrite run_unsafe_body.
    destruct (intrude env db) as [db1 env1].
    destruct (booking_findUnique p db1) as [b|]; [|done].
    destruct (intrude env1 db1) as [db2 env2]. cbv zeta.
    case_decide; [done|]. intros Hrun.
    pose proof (run_env_for_seats p
      (seat_findMany (or_else fid (booking_flightId b)) 5 db2) 0 env2 db2)
      as Hloop.
    rewrite Hrun in Hloop. destruct Hloop as (k & seat & _ & ->). done.
Qed.

(** PNR001 asks for a seat of flight 1; while it sleeps before its first
    check the three other bookings take the three seats. *)
Lemma auto_assign_unsafe_replies_witness :
  let others : DB → DB := λ db,
    (safe_sequence [("PNR002", None); ("PNR003", None); ("PNR004", None)] db).2 in
  let r := (run_env (body_of (selectNextAvailableSeatUnsafe "PNR001" (Some 1)))
              [id; id; others] Sample.db0).1 in
  fits (Some 1) ∧
  match r with
  | inr a => auto_assign_unsafe_reply r = json (AssignmentBody a) ∧
             a_method a = unsafe
  | inl e =>
      (e = InvalidPNR ∧
       auto_assign_unsafe_reply r = status_json 400 (ErrorBody "Invalid PNR")) ∨
      (e = NoSeatsAvailable ∧
       auto_assign_unsafe_reply r = status_json 409 (ErrorBody "Flight is full")) ∨
      (e = AllAttemptsFailed ∧
       auto_assign_unsafe_reply r
       = status_json 409
           (ErrorBody "Seat assignment conflict - please try again"))
  end.
Proof.
  cbv zeta.
  assert (fits (Some 1)) as Hfits
    by (apply (bool_decide_eq_true_1 _); by vm_compute).
  split; [done|].
  exact (auto_assign_unsafe_replies "PNR001" (Some 1)
           [id; id; λ db, (safe_sequence [("PNR002", None); ("PNR003", None);
                                          ("PNR004", None)] db).2]
           Sample.db0 Hfits).
Defined.

(** X9. The replies of the safe auto-assign handler to a request that
    names a PNR and whose flight selector fits the column, run with
    nothing else: 200 with the assignment; or, the store left as it was,
    400 "Invalid PNR" for an unknown PNR, 409 "Flight is full or all seats
    being processed" when the pool of the target flight is empty, and a
    400 when the unique index rejects the binding because another booking
    already references the seat that was picked. *)
Theorem auto_assign_safe_replies body p db :
  let out := post_checkin_auto_assign_seat_safe body db in
  given_string (body_pnr body) = Some p →
  fits (body_flightId body) →
  (∃ a, out.1 = json (AssignmentBody a) ∧ a_method a = safe ∧
        attemptsNeeded a = None) ∨
  (out.2 = db ∧
   ((out.1 = status_json 400 (ErrorBody "Invalid PNR") ∧
     booking_findUnique p db = None) ∨
    (out.1 = status_json 409
               (ErrorBody "Flight is full or all seats being processed") ∧
     ∃ b, booking_findUnique p db = Some b ∧
          available_seats (or_else (body_flightId body) (booking_flightId b)) db
          = []) ∨
    (status out.1 = 400 ∧
     ∃ seat, seat ∈ seats db ∧ isAvailable seat = true ∧
             seat_taken_by_other p (seat_id seat) db))).
Proof.
  intros out Hp _. unfold out, post_checkin_auto_assign_seat_safe. rewrite Hp.
  rewrite exec_safe. unfold transaction. rewrite run_safe_body.
  destruct (booking_findUnique p db) as [b|] eqn:Hb.
  2:{ right. split; [done|]. by left. }
  rewrite available_seats_take.
  destruct (available_seats _ db) as [|seat l] eqn:Hq; cbn [take].
  { right. split; [done|]. right. left. split; [done|]. eauto. }
  assert (seat ∈ seats db ∧
          open_on (or_else (body_flightId body) (booking_flightId b)) seat)
    as [Hin [Hfl Hav]].
  { apply elem_of_available_seats. rewrite Hq. left. }
  rewrite seat_update_ok
    by (apply Exists_exists; exists seat; by repeat split).
  destruct (booking_update _ _ _ _) as [e|db2] eqn:Hbu.
  - right. split; [done|]. right. right.
    apply booking_update_err in Hbu as [[_ Hnone]|[-> (s & Hs & Htaken)]].
    { rewrite booking_findUnique_seat_write, Hb in Hnone. done. }
    split; [done|]. exists seat. by simplify_eq.
  - left. eauto.
Qed.

(** PNR001 asks for a seat on the stale store, where the seat that the
    query returns is already referenced by PNR002. *)
Lemma auto_assign_safe_replies_witness :
  let body := mkBody (Some "PNR001") None None in
  let db := Sample.db_stale in
  let out := post_checkin_auto_assign_seat_safe body db in
  (given_string (body_pnr body) = Some "PNR001" ∧ fits (body_flightId body)) ∧
  ((∃ a, out.1 = json (AssignmentBody a) ∧ a_method a = safe ∧
         attemptsNeeded a = None) ∨
   (out.2 = db ∧
    ((out.1 = status_json 400 (ErrorBody "Invalid PNR") ∧
      booking_findUnique "PNR001" db = None) ∨
     (out.1 = status_json 409
                (ErrorBody "Flight is full or all seats being processed") ∧
      ∃ b, booking_findUnique "PNR001" db = Some b ∧
           available_seats (or_else (body_flightId body) (booking_flightId b))
             db = []) ∨
     (status out.1 = 400 ∧
      ∃ seat, seat ∈ seats db ∧ isAvailable seat = true ∧
              seat_taken_by_other "PNR001" (seat_id seat) db)))).
Proof.
  cbv zeta. split; [split; [by vm_compute|exact I]|].
  exact (auto_assign_safe_replies (mkBody (Some "PNR001") None None)
           "PNR001" Sample.db_stale eq_refl I).
Defined.

Lemma select_seat_handler_given m body p k db :
  given_string (body_pnr body) = Some p →
  given_number (body_seatId body) = Some k →
  select_seat_handler m body db =
  match m with
  | unsafe =>
      let '(r, db') := exec (selectNextAvailableSeatUnsafe p None) db in
      (select_seat_unsafe_reply r, db')
  | safe =>
      let '(r, db') := exec (selectNextAvailableSeatSafe p None) db in
      (select_seat_safe_reply r, db')
  end.
Proof.
  intros Hp Hk. destruct m; cbn [select_seat_handler];
    unfold post_checkin_select_seat_unsafe, post_checkin_select_seat_safe;
    by rewrite Hp, Hk.
Qed.

(** X10. The select-seat handlers do not select the seat they are asked
    for.  The [seatId] of the request only has to be present and not 0:
    two requests of one PNR that differ in [seatId] (or in [flightId]) get
    the same reply and leave the same store, and on a store whose bound
    seats are flagged the seat assigned is the first available seat of the
    booking's own flight in seat-number order. *)
Theorem select_seat_ignores_requested_seat m body body' p db :
  given_string (body_pnr body) = Some p →
  given_string (body_pnr body') = Some p →
  is_Some (given_number (body_seatId body)) →
  is_Some (given_number (body_seatId body')) →
  select_seat_handler m body db = select_seat_handler m body' db ∧
  (seats_pkey db → bound_seats_unavailable db →
   ∀ b seat rest,
     booking_findUnique p db = Some b →
     available_seats (booking_flightId b) db = seat :: rest →
     (select_seat_handler m body db).1
     = json (AssignmentBody (mkAssignment (seatNumber seat) (seat_id seat) m
                               (attempts_of m)))).
Proof.
  intros Hp Hp' [k Hk] [k' Hk'].
  rewrite (select_seat_handler_given m body p k db Hp Hk).
  rewrite (select_seat_handler_given m body' p k' db Hp' Hk').
  split; [done|]. intros Hpk Hbd b seat rest Hb Hq.
  pose proof (exec_alone m p None db Hpk Hbd) as Hex.
  rewrite Hb, or_else_None, Hq in Hex.
  destruct m; cbn [select] in Hex; by rewrite Hex.
Qed.

(** PNR001 asks for seat 3 (10C, available) and is given seat 1 (10A). *)
Lemma select_seat_ignores_requested_seat_witness :
  let body := mkBody (Some "PNR001") None (Some 3) in
  let body' := mkBody (Some "PNR001") (Some 2) (Some 1) in
  (given_string (body_pnr body) = Some "PNR001" ∧
   given_string (body_pnr body') = Some "PNR001" ∧
   is_Some (given_number (body_seatId body)) ∧
   is_Some (given_number (body_seatId body'))) ∧
  select_seat_handler safe body Sample.db0
  = select_seat_handler safe body' Sample.db0 ∧
  (seats_pkey Sample.db0 → bound_seats_unavailable Sample.db0 →
   ∀ b seat rest,
     booking_findUnique "PNR001" Sample.db0 = Some b →
     available_seats (booking_flightId b) Sample.db0 = seat :: rest →
     (select_seat_handler safe body Sample.db0).1
     = json (AssignmentBody (mkAssignment (seatNumber seat) (seat_id seat) safe
                               (attempts_of safe)))).
Proof.
  cbv zeta.
  assert (is_Some (given_number (Some 3))) as H3 by by eexists.
  assert (is_Some (given_number (Some 1))) as H1 by by eexists.
  split; [split_and!; try done; by vm_compute|].
  apply (select_seat_ignores_requested_seat safe
           (mkBody (Some "PNR001") None (Some 3))
           (mkBody (Some "PNR001") (Some 2) (Some 1)) "PNR001" Sample.db0);
    try done; by vm_compute.
Defined.

(** X11. How the select-seat handlers answer a failed call.  The unsafe
    one answers every failure with 400 and the message of the service,
    never 409.  For an empty pool the unsafe one therefore answers 400 "No
    seats available on this flight" where the safe one answers 409 "Seat
    is no longer available" (the message of the safe policy contains
    "being processed"); both answer 400 "Invalid PNR" for an unknown PNR,
    and leave the store as it was in these cases. *)
Theorem select_seat_failure_replies body p db :
  given_string (body_pnr body) = Some p →
  is_Some (given_number (body_seatId body)) →
  (status (post_checkin_select_seat_unsafe body db).1 = 200 ∨
   ∃ e, (post_checkin_select_seat_unsafe body db).1
        = status_json 400 (ErrorBody (message e)) ∧
        (e = InvalidPNR ∨ e = NoSeatsAvailable ∨ e = AllAttemptsFailed)) ∧
  (∀ b, booking_findUnique p db = Some b →
        available_seats (booking_flightId b) db = [] →
        post_checkin_select_seat_unsafe body db
        = (status_json 400 (ErrorBody "No seats available on this flight"), db) ∧
        post_checkin_select_seat_safe body db
        = (status_json 409 (ErrorBody "Seat is no longer available"), db)) ∧
  (booking_findUnique p db = None →
   post_checkin_select_seat_unsafe body db
   = (status_json 400 (ErrorBody "Invalid PNR"), db) ∧
   post_checkin_select_seat_safe body db
   = (status_json 400 (ErrorBody "Invalid PNR"), db)).
Proof.
  intros Hp [k Hk].
  pose proof (select_seat_handler_given unsafe body p k db Hp Hk) as Hun.
  pose proof (select_seat_handler_given safe body p k db Hp Hk) as Hsafe.
  cbn [select_seat_handler] in Hun, Hsafe. rewrite Hun, Hsafe.
  rewrite exec_safe, exec_unsafe. unfold transaction.
  split_and!.
  - destruct (run_env (body_of (selectNextAvailableSeatUnsafe p None)) [] db)
      as [[e|a] db'] eqn:Hrun; cbn [fst]; [|by left].
    right. exists e. split; [done|]. by eapply unsafe_errors.
  - intros b Hb Hq. rewrite run_safe_body, run_unsafe_body. cbn [intrude].
    rewrite Hb, or_else_None, !available_seats_take, Hq. done.
  - intros Hb. rewrite run_safe_body, run_unsafe_body. cbn [intrude].
    by rewrite Hb.
Qed.

(** PNR001 asks for seat 1 on a store whose only seat is taken. *)
Lemma select_seat_failure_replies_witness :
  let body := mkBody (Some "PNR001") None (Some 1) in
  let db := mkDB [mkFlight 1 "AA123" 1] [mkSeat 1 1 "10A" false]
              [mkBooking "PNR001" 1 None false;
               mkBooking "PNR002" 1 (Some 1) true] in
  (given_string (body_pnr body) = Some "PNR001" ∧
   is_Some (given_number (body_seatId body))) ∧
  (status (post_checkin_select_seat_unsafe body db).1 = 200 ∨
   ∃ e, (post_checkin_select_seat_unsafe body db).1
        = status_json 400 (ErrorBody (message e)) ∧
        (e = InvalidPNR ∨ e = NoSeatsAvailable ∨ e = AllAttemptsFailed)) ∧
  (∀ b, booking_findUnique "PNR001" db = Some b →
        available_seats (booking_flightId b) db = [] →
        post_checkin_select_seat_unsafe body db
        = (status_json 400 (ErrorBody "No seats available on this flight"), db) ∧
        post_checkin_select_seat_safe body db
        = (status_json 409 (ErrorBody "Seat is no longer available"), db)) ∧
  (booking_findUnique "PNR001" db = None →
   post_checkin_select_seat_unsafe body db
   = (status_json 400 (ErrorBody "Invalid PNR"), db) ∧
   post_checkin_select_seat_safe body db
   = (status_json 400 (ErrorBody "Invalid PNR"), db)).
Proof.
  cbv zeta.
  assert (is_Some (given_number (Some 1))) as H1 by by eexists.
  split; [split; [by vm_compute|done]|].
  apply (select_seat_failure_replies (mkBody (Some "PNR001") None (Some 1))
           "PNR001"); [by vm_compute|done].
Defined.

(** X12. The two reading handlers never write to the store, and they
    answer what is not there with 404: the login handler "Booking not
    found" when no booking carries the PNR (the auto-assign handlers answer
    the same PNR with 400 "Invalid PNR"), the seat-map handler "Flight not
    found" when no flight carries the flight number.  What is there is
    answered with 200 and the data of the service. *)
Theorem reading_handlers_replies body fn db :
  (post_checkin_login body db).2 = db ∧
  (get_flights_seats fn db).2 = db ∧
  (∀ p, given_string (body_pnr body) = Some p →
        (post_checkin_login body db).1 =
        match booking_findUnique p db with
        | None => status_json 404 (ErrorBody "Booking not found")
        | Some b =>
            json (LoginBody (mkLoginData p (checkedIn b)
                               (seatId b ≫= λ id, seat_findUnique id db)
                               (available_seats (booking_flightId b) db)))
        end) ∧
  (get_flights_seats fn db).1 =
    match (exec (getFlightSeatMap fn) db).1 with
    | inl _ => status_json 404 (ErrorBody "Flight not found")
    | inr seatMap => json (SeatMapBody seatMap)
    end ∧
  ((get_flights_seats fn db).1 = status_json 404 (ErrorBody "Flight not found")
   ↔ Forall (λ f, flightNumber f ≠ fn) (flights db)).
Proof.
  split_and!.
  - unfold post_checkin_login. by destruct (given_string _).
  - unfold get_flights_seats. rewrite exec_seat_map. done.
  - intros p Hp. unfold post_checkin_login, loginWithPNR. rewrite Hp.
    cbn [fst]. destruct (booking_findUnique p db) as [b|] eqn:Hb; [|done].
    apply booking_findUnique_pnr in Hb as [-> _]. done.
  - unfold get_flights_seats. rewrite exec_seat_map. cbn [fst].
    by destruct (flight_findUnique fn db) as [[f l]|].
  - unfold get_flights_seats. rewrite exec_seat_map. cbn [fst].
    rewrite <-flight_findUnique_None.
    destruct (flight_findUnique fn db) as [[f l]|]; [|done].
    split; [|done]. cbn. unfold json, status_json. intros ?; simplify_eq.
Qed.

(** ** Resetting one seat *)

Lemma seat_matches_id id s : seat_matches id None s ↔ seat_id s = id.
Proof. unfold seat_matches. tauto. Qed.

Lemma Exists_seat_id id db :
  Exists (seat_matches id None) (seats db) ↔ id ∈ seat_id <$> seats db.
Proof.
  rewrite Exists_exists, list_elem_of_fmap. split.
  - intros (s & Hs & [Hid _]). eauto.
  - intros (s & Hid & Hs). exists s. by repeat split.
Qed.

Lemma reset_seat_transaction_spec id db :
  reset_seat_transaction id db =
  if decide (id ∈ seat_id <$> seats db)
  then inr (booking_updateMany_where id (seat_write id None true db))
  else inl RecordNotFound.
Proof.
  unfold reset_seat_transaction, seat_update.
  destruct (decide (Exists _ _)) as [Hex|Hex]; rewrite Exists_seat_id in Hex.
  - by rewrite decide_True.
  - by rewrite decide_False.
Qed.

Lemma not_bound_after_release id db :
  ¬ bound id (booking_updateMany_where id db).
Proof.
  unfold bound, booking_updateMany_where, with_bookings. cbn [bookings].
  rewrite Exists_fmap. intros (b & _ & Hb)%Exists_exists. simpl in Hb.
  by case_decide.
Qed.

Lemma bound_after_release id db y :
  y ≠ id → bound y (booking_updateMany_where id db) ↔ bound y db.
Proof.
  intros Hy. unfold bound, booking_updateMany_where, with_bookings.
  cbn [bookings]. rewrite Exists_fmap.
  apply Exists_proper; [|done]. intros b. simpl.
  case_decide as Hb; [|done]. simpl. rewrite Hb. split; [done|].
  intros ?; simplify_eq.
Qed.

Lemma seatId_key_release id db :
  bookings_seatId_key db → bookings_seatId_key (booking_updateMany_where id db).
Proof.
  unfold bookings_seatId_key, booking_updateMany_where, with_bookings.
  cbn [bookings]. induction (bookings db) as [|b l IH]; [done|]. csimpl.
  assert (∀ y, y ∈ omap seatId
                 ((λ b, if decide (seatId b = Some id)
                        then set_binding None false b else b) <$> l) →
               y ∈ omap seatId l) as Hel.
  { intros y (b' & (b0 & -> & Hb0)%list_elem_of_fmap & Hy)%list_elem_of_omap.
    case_decide; simplify_eq/=. apply list_elem_of_omap. eauto. }
  case_decide as Hb.
  - rewrite Hb. simpl. intros [_ ?]%NoDup_cons. by apply IH.
  - destruct (seatId b) as [y|]; simpl; [|done].
    intros [Hy Hnd]%NoDup_cons. apply NoDup_cons. split; [|by apply IH].
    intros Hin. by apply Hy, Hel.
Qed.

(** X13. What reset-seat replies and does, for a seat id that is present
    and not 0.  When no seat row has the id the reply is 500 and the store
    is as it was.  Otherwise the reply is 200 "Seat <id> reset to
    available"; the seat rows with the id are flagged available and the
    others untouched, the bookings that referenced the seat have lost their
    seat and their check-in while the others are untouched, and afterwards
    no booking references the seat. *)
Theorem reset_seat_replies body id db :
  given_number (body_seatId body) = Some id →
  (id ∉ seat_id <$> seats db →
   ∃ reply, post_admin_reset_seat body db = (reply, db) ∧ status reply = 500) ∧
  (id ∈ seat_id <$> seats db →
   ∃ db', post_admin_reset_seat body db
          = (json (SuccessBody (reset_seat_message id)), db') ∧
          flights db' = flights db ∧
          seats db' = (λ s, if decide (seat_id s = id)
                            then set_available true s else s) <$> seats db ∧
          bookings db' = (λ b, if decide (seatId b = Some id)
                               then set_binding None false b else b)
                           <$> bookings db ∧
          ¬ bound id db').
Proof.
  intros Hid. unfold post_admin_reset_seat. rewrite Hid.
  rewrite reset_seat_transaction_spec. split; intros Hin.
  - rewrite decide_False by done. eauto.
  - rewrite decide_True by done. eexists. split; [done|].
    split_and!; try done.
    + unfold booking_updateMany_where, seat_write, with_bookings, with_seats.
      cbn [seats]. apply list_fmap_ext. intros _ s _.
      destruct (decide (seat_matches id None s)) as [Hm|Hm];
        rewrite seat_matches_id in Hm.
      * by rewrite decide_True.
      * by rewrite decide_False.
    + apply not_bound_after_release.
Qed.

(** PNR001 checks in and seat 1, the seat it was given, is reset. *)
Lemma reset_seat_replies_witness :
  let body := mkBody None None (Some 1) in
  let db := (exec (selectNextAvailableSeatSafe "PNR001" None) Sample.db0).2 in
  given_number (body_seatId body) = Some 1 ∧
  (1 ∉ seat_id <$> seats db →
   ∃ reply, post_admin_reset_seat body db = (reply, db) ∧ status reply = 500) ∧
  (1 ∈ seat_id <$> seats db →
   ∃ db', post_admin_reset_seat body db
          = (json (SuccessBody (reset_seat_message 1)), db') ∧
          flights db' = flights db ∧
          seats db' = (λ s, if decide (seat_id s = 1)
                            then set_available true s else s) <$> seats db ∧
          bookings db' = (λ b, if decide (seatId b = Some 1)
                               then set_binding None false b else b)
                           <$> bookings db ∧
          ¬ bound 1 db').
Proof.
  cbv zeta. split; [by vm_compute|].
  apply (reset_seat_replies (mkBody None None (Some 1)) 1). by vm_compute.
Defined.

(** X14. Reset-seat repairs the invariant at the seat it resets and
    keeps it everywhere else: if at most one booking references each seat
    and every seat other than the one reset is flagged unavailable exactly
    when a booking references it, then after the transaction the invariant
    of the design holds of every seat.  The seat reset may have been in any
    state: bound, or flagged unavailable with no booking referencing it. *)
Theorem reset_seat_restores_invariant id db db' :
  bookings_seatId_key db →
  Forall (λ s, seat_id s ≠ id → (isAvailable s = false ↔ bound (seat_id s) db))
    (seats db) →
  reset_seat_transaction id db = inr db' →
  state_invariant db' ∧ ¬ bound id db' ∧
  Forall (λ s, seat_id s = id → isAvailable s = true) (seats db').
Proof.
  intros Hkey Hiff. rewrite reset_seat_transaction_spec.
  case_decide as Hin; [|done]. intros ?; simplify_eq.
  split_and!.
  - split; [by apply seatId_key_release|].
    set (db1 := seat_write id None true db).
    change (seats (booking_updateMany_where id db1))
      with ((λ s, if decide (seat_matches id None s)
                  then set_available true s else s) <$> seats db).
    apply Forall_fmap, Forall_forall. intros s Hs. unfold compose.
    eapply Forall_forall in Hiff; [|exact Hs].
    destruct (decide (seat_matches id None s)) as [Hm|Hm];
      rewrite seat_matches_id in Hm.
    + simpl. rewrite Hm. split; [done|].
      intros Hb. by apply not_bound_after_release in Hb.
    + rewrite (bound_after_release id db1 (seat_id s) Hm). by apply Hiff.
  - apply not_bound_after_release.
  - unfold booking_updateMany_where, with_bookings, seat_write, with_seats.
    cbn [seats]. apply Forall_fmap, Forall_true. intros s. unfold compose.
    destruct (decide (seat_matches id None s)) as [Hm|Hm];
      rewrite seat_matches_id in Hm; [done|]. intros ?. by destruct Hm.
Qed.

(** PNR001 checks in twice, which leaves seat 1 flagged with no booking
    referencing it; resetting seat 1 restores the invariant. *)
Lemma reset_seat_restores_invariant_witness :
  let db := (safe_sequence [("PNR001", None); ("PNR001", None)] Sample.db0).2 in
  let db' := booking_updateMany_where 1 (seat_write 1 None true db) in
  (¬ state_invariant db ∧
   bookings_seatId_key db ∧
   Forall (λ s, seat_id s ≠ 1 → (isAvailable s = false ↔ bound (seat_id s) db))
     (seats db) ∧
   reset_seat_transaction 1 db = inr db') ∧
  state_invariant db' ∧ ¬ bound 1 db' ∧
  Forall (λ s, seat_id s = 1 → isAvailable s = true) (seats db').
Proof.
  cbv zeta. split.
  - split_and!.
    + apply (bool_decide_eq_false_1 _). by vm_compute.
    + apply (bool_decide_eq_true_1 _). by vm_compute.
    + apply (bool_decide_eq_true_1 _). by vm_compute.
    + by vm_compute.
  - apply (reset_seat_restores_invariant 1
             (safe_sequence [("PNR001", None); ("PNR001", None)] Sample.db0).2).
    + apply (bool_decide_eq_true_1 _). by vm_compute.
    + apply (bool_decide_eq_true_1 _). by vm_compute.
    + by vm_compute.
Defined.

Lemma list_fmap_fixed {A} (g : A → A) (l : list A) :
  (∀ x, x ∈ l → g x = x) → g <$> l = l.
Proof.
  intros Hg. rewrite <-(list_fmap_id l) at 2.
  apply list_fmap_ext. intros i x Hx. apply Hg. by eapply list_elem_of_lookup_2.
Qed.

(** X15. Reset-seat undoes a first check-in.  On a store with the
    schema's keys whose bound seats are flagged, after a booking with no
    seat and not checked in has been given a seat by either policy, the
    reset of that seat gives back the store as it was before the check-in:
    flights, seats and bookings, row for row. *)
Theorem reset_seat_undoes_checkin m p fid db a db' b :
  seats_pkey db → bookings_pnr_key db → bound_seats_unavailable db →
  booking_findUnique p db = Some b → seatId b = None → checkedIn b = false →
  exec (select m p fid) db = (inr a, db') →
  reset_seat_transaction (a_seatId a) db' = inr db.
Proof.
  intros Hpk Hpnr Hbd Hb Hnone Hci Hex.
  rewrite (exec_alone m p fid db Hpk Hbd), Hb in Hex.
  set (t := or_else fid (booking_flightId b)) in *.
  destruct (available_seats t db) as [|seat w] eqn:Hw; [done|].
  injection Hex as <- <-. cbn [a_seatId].
  assert (seat ∈ seats db ∧ open_on t seat) as [Hin [Hfl Hav]]
    by (apply elem_of_available_seats; rewrite Hw; left).
  rewrite reset_seat_transaction_spec.
  rewrite decide_True.
  2:{ rewrite seats_booking_write, seat_ids_seat_write.
      by apply list_elem_of_fmap_2. }
  f_equal. destruct db as [fl ss bs].
  unfold booking_updateMany_where, booking_write, seat_write, with_bookings,
    with_seats. cbn [flights seats bookings] in *. f_equal.
  - rewrite <-list_fmap_compose. apply list_fmap_fixed. intros s Hs.
    unfold compose.
    destruct (decide (seat_matches (seat_id seat) None s)) as [Hm|Hm].
    + rewrite decide_True by done.
      assert (s = seat) as ->.
      { destruct Hm as [Hid _].
        by apply (NoDup_fmap_eq seat_id ss). }
      destruct seat as [i f' n av]. simpl in *. by rewrite Hav.
    + by rewrite decide_False.
  - rewrite <-list_fmap_compose. apply list_fmap_fixed. intros b' Hb'.
    unfold compose. apply booking_findUnique_pnr in Hb as [Hp Hbin].
    cbn [bookings] in Hbin.
    destruct (decide (pnr b' = p)) as [Hp'|Hp'].
    + assert (b' = b) as ->
        by (apply (NoDup_fmap_eq pnr bs); [done..|congruence]).
      simpl. rewrite decide_True by done.
      destruct b as [q f' sid ci]. simpl in *. by rewrite Hnone, Hci.
    + rewrite decide_False; [done|]. intros Hsid.
      eapply Forall_forall in Hbd; [|exact Hin].
      rewrite Hbd in Hav; [done|]. apply Exists_exists. eauto.
Qed.

(** PNR002 checks in on the sample store and the seat is reset. *)
Lemma reset_seat_undoes_checkin_witness :
  let db := Sample.db0 in
  let a := mkAssignment "10A" 1 safe None in
  let db' := (exec (selectNextAvailableSeatSafe "PNR002" None) db).2 in
  let b := mkBooking "PNR002" 1 None false in
  (seats_pkey db ∧ bookings_pnr_key db ∧ bound_seats_unavailable db ∧
   booking_findUnique "PNR002" db = Some b ∧ seatId b = None ∧
   checkedIn b = false ∧ exec (select safe "PNR002" None) db = (inr a, db')) ∧
  reset_seat_transaction (a_seatId a) db' = inr db.
Proof.
  cbv zeta.
  assert (seats_pkey Sample.db0) as Hpk
    by (apply (bool_decide_eq_true_1 _); by vm_compute).
  assert (bookings_pnr_key Sample.db0) as Hpnr
    by (apply (bool_decide_eq_true_1 _); by vm_compute).
  assert (bound_seats_unavailable Sample.db0) as Hbd
    by (apply (bool_decide_eq_true_1 _); by vm_compute).
  split; [split_and!; try done; by vm_compute|].
  apply (reset_seat_undoes_checkin safe "PNR002" None Sample.db0
           (mkAssignment "10A" 1 safe None)
           (exec (selectNextAvailableSeatSafe "PNR002" None) Sample.db0).2
           (mkBooking "PNR002" 1 None false) Hpk Hpnr Hbd);
    try done; by vm_compute.
Defined.

(** ** The seat status *)

(** Rewriting the one row that [Q] selects moves a count by that row. *)
Lemma length_filter_rewrite_one {A} (P Q : A → Prop)
    `{∀ x, Decision (P x)} `{∀ x, Decision (Q x)} (g : A → A) (l : list A) x :
  NoDup l → x ∈ l → (∀ y, y ∈ l → Q y ↔ y = x) →
  (length (filter P ((λ y, if decide (Q y) then g y else y) <$> l))
   + (if decide (P x) then 1 else 0)
   = length (filter P l) + (if decide (P (g x)) then 1 else 0))%nat.
Proof.
  intros Hnd Hx HQ.
  induction l as [|y l IH]; [by apply elem_of_nil in Hx|].
  apply NoDup_cons in Hnd as [Hy Hnd]. csimpl. rewrite !filter_cons.
  destruct (decide (Q y)) as [Hq|Hq].
  - assert (y = x) as -> by (apply HQ; [left|done]).
    assert ((λ y, if decide (Q y) then g y else y) <$> l = l) as ->.
    { rewrite <-(list_fmap_id l) at 2. apply list_fmap_ext.
      intros i z Hz%list_elem_of_lookup_2. simpl.
      rewrite decide_False; [done|]. intros Hq'.
      apply HQ in Hq'; [|by right]. by subst. }
    destruct (decide (P (g x))), (decide (P x)); simpl; lia.
  - assert (y ≠ x) as Hne by (intros ->; apply Hq, HQ; [left|done]).
    apply elem_of_cons in Hx as [?|Hx]; [done|].
    assert (∀ z, z ∈ l → Q z ↔ z = x) as HQ'
      by (intros z Hz; apply HQ; by right).
    specialize (IH Hnd Hx HQ').
    destruct (decide (P y)); simpl; lia.
Qed.

Lemma seats_after_checkin p sid ci id g a db :
  seats (booking_write p sid ci (seat_write id g a db))
  = (λ s, if decide (seat_matches id g s) then set_available a s else s)
      <$> seats db.
Proof. done. Qed.

Lemma bookings_after_checkin p sid ci id g a db :
  bookings (booking_write p sid ci (seat_write id g a db))
  = (λ b, if decide (pnr b = p) then set_binding sid ci b else b)
      <$> bookings db.
Proof. done. Qed.

(** X16. What the seat status reports after a check-in.  A successful
    call of either policy, run with nothing else on a store with the
    schema's keys whose bound seats are flagged, leaves [total] as it was,
    takes one off [available] and adds one to [booked]; [checkedIn] goes
    up by one when the booking was not checked in and stays when it was, so
    that a second check-in of one booking makes [booked] run ahead of
    [checkedIn]. *)
Theorem status_after_checkin m p fid db a db' b :
  seats_pkey db → bookings_pnr_key db → bound_seats_unavailable db →
  booking_findUnique p db = Some b →
  exec (select m p fid) db = (inr a, db') →
  st_total (seats_status db') = st_total (seats_status db) ∧
  (st_available (seats_status db') + 1)%nat = st_available (seats_status db) ∧
  st_booked (seats_status db') = st_booked (seats_status db) + 1 ∧
  st_checkedIn (seats_status db')
  = (st_checkedIn (seats_status db) + if checkedIn b then 0 else 1)%nat.
Proof.
  intros Hpk Hpnr Hbd Hb Hex.
  rewrite (exec_alone m p fid db Hpk Hbd), Hb in Hex.
  set (t := or_else fid (booking_flightId b)) in *.
  destruct (available_seats t db) as [|seat w] eqn:Hw; [done|].
  injection Hex as <- <-.
  assert (seat ∈ seats db ∧ open_on t seat) as [Hin [Hfl Hav]]
    by (apply elem_of_available_seats; rewrite Hw; left).
  unfold seats_status, seat_count, seat_count_available,
    booking_count_checkedIn.
  cbn [st_total st_available st_booked st_checkedIn].
  rewrite seats_after_checkin, bookings_after_checkin.
  assert (length (filter (λ s, isAvailable s = true)
            ((λ s, if decide (seat_matches (seat_id seat) None s)
                   then set_available false s else s) <$> seats db)) + 1
          = length (filter (λ s, isAvailable s = true) (seats db)))%nat
    as Hseats.
  { pose proof (length_filter_rewrite_one (λ s, isAvailable s = true)
      (seat_matches (seat_id seat) None) (set_available false) (seats db) seat)
      as Hone.
    rewrite (decide_True (P:=isAvailable seat = true)) in Hone by done.
    rewrite (decide_False (P:=isAvailable (set_available false seat) = true))
      in Hone by done.
    rewrite Nat.add_0_r in Hone. apply Hone; [|done|].
    - by eapply NoDup_fmap_1.
    - intros y Hy. rewrite seat_matches_id. split; [|by intros ->].
      intros Hid. by apply (NoDup_fmap_eq seat_id (seats db)). }
  assert (length (filter (λ b, checkedIn b = true)
            ((λ b', if decide (pnr b' = p)
                    then set_binding (Some (seat_id seat)) true b' else b')
               <$> bookings db))
          = length (filter (λ b, checkedIn b = true) (bookings db))
            + (if checkedIn b then 0 else 1))%nat as Hbookings.
  { apply booking_findUnique_pnr in Hb as [Hp Hbin].
    pose proof (length_filter_rewrite_one (λ b, checkedIn b = true)
      (λ b', pnr b' = p) (set_binding (Some (seat_id seat)) true)
      (bookings db) b) as Hone.
    rewrite (decide_True
      (P:=checkedIn (set_binding (Some (seat_id seat)) true b) = true))
      in Hone by done.
    assert (NoDup (bookings db)) as Hnd by by eapply NoDup_fmap_1.
    assert (∀ y, y ∈ bookings db → pnr y = p ↔ y = b) as Hsel.
    { intros y Hy. split; [|by intros ->]. intros Hy'.
      apply (NoDup_fmap_eq pnr (bookings db)); [done..|congruence]. }
    specialize (Hone Hnd Hbin Hsel).
    destruct (checkedIn b) eqn:Hci.
    - rewrite decide_True in Hone by done. lia.
    - rewrite decide_False in Hone by done. lia. }
  rewrite length_fmap. split_and!; [done|exact Hseats| |exact Hbookings].
  lia.
Qed.

(** PNR001 checks in a second time. *)
Lemma status_after_checkin_witness :
  let db := (exec (selectNextAvailableSeatSafe "PNR001" None) Sample.db0).2 in
  let a := mkAssignment "10B" 2 unsafe (Some 1%nat) in
  let db' := (exec (selectNextAvailableSeatUnsafe "PNR001" None) db).2 in
  let b := mkBooking "PNR001" 1 (Some 1) true in
  (seats_pkey db ∧ bookings_pnr_key db ∧ bound_seats_unavailable db ∧
   booking_findUnique "PNR001" db = Some b ∧
   exec (select unsafe "PNR001" None) db = (inr a, db')) ∧
  st_total (seats_status db') = st_total (seats_status db) ∧
  (st_available (seats_status db') + 1)%nat = st_available (seats_status db) ∧
  st_booked (seats_status db') = st_booked (seats_status db) + 1 ∧
  st_checkedIn (seats_status db')
  = (st_checkedIn (seats_status db) + if checkedIn b then 0 else 1)%nat.
Proof.
  cbv zeta.
  set (db := (exec (selectNextAvailableSeatSafe "PNR001" None) Sample.db0).2).
  assert (seats_pkey db) as Hpk
    by (apply (bool_decide_eq_true_1 _); by vm_compute).
  assert (bookings_pnr_key db) as Hpnr
    by (apply (bool_decide_eq_true_1 _); by vm_compute).
  assert (bound_seats_unavailable db) as Hbd
    by (apply (bool_decide_eq_true_1 _); by vm_compute).
  split; [split_and!; try done; by vm_compute|].
  apply (status_after_checkin unsafe "PNR001" None db
           (mkAssignment "10B" 2 unsafe (Some 1%nat))
           (exec (selectNextAvailableSeatUnsafe "PNR001" None) db).2
           (mkBooking "PNR001" 1 (Some 1) true) Hpk Hpnr Hbd);
    by vm_compute.
Defined.

Lemma reset_all_handler db :
  post_admin_reset_all_seats db =
  (json (SuccessBody (reset_all_message (length (seats db)))),
   booking_updateMany false (seat_updateMany true db)).
Proof. unfold post_admin_reset_all_seats. by rewrite exec_reset. Qed.

Lemma reset_all_twice db :
  let reset db := booking_updateMany false (seat_updateMany true db) in
  reset (reset db) = reset db ∧ length (seats (reset db)) = length (seats db).
Proof.
  cbv zeta. split.
  - unfold booking_updateMany, seat_updateMany, with_bookings, with_seats.
    cbn [flights seats bookings]. f_equal.
    + rewrite <-list_fmap_compose. by apply list_fmap_ext.
    + rewrite <-list_fmap_compose. by apply list_fmap_ext.
  - unfold booking_updateMany, seat_updateMany, with_bookings, with_seats.
    cbn [seats]. by rewrite length_fmap.
Qed.

(** X17. The reset-all handler always answers 200 "Reset <n> seats to
    available state", [n] the number of seat rows; the seat status then
    reports every seat available, none booked and nobody checked in; the
    invariant of the design holds; and a second reset answers the same and
    changes nothing more. *)
Theorem status_after_reset_all db :
  let n := length (seats db) in
  let db' := (post_admin_reset_all_seats db).2 in
  (post_admin_reset_all_seats db).1 = json (SuccessBody (reset_all_message n)) ∧
  seats_status db' = mkSeatsStatus n n 0 0 ∧
  state_invariant db' ∧
  post_admin_reset_all_seats db' = post_admin_reset_all_seats db.
Proof.
  cbv zeta. rewrite !reset_all_handler. cbn [fst snd].
  pose proof (reset_establishes_invariant db) as Hinv.
  rewrite exec_reset in Hinv. cbn [snd] in Hinv.
  destruct (reset_all_twice db) as [Htwice Hlen].
  split_and!; try done.
  - unfold seats_status, seat_count, seat_count_available,
      booking_count_checkedIn, booking_updateMany, seat_updateMany,
      with_bookings, with_seats. cbn [seats bookings].
    rewrite (filter_all (λ s, isAvailable s = true))
      by (apply Forall_fmap, Forall_true; done).
    rewrite length_fmap.
    assert (filter (λ b, checkedIn b = true)
              (set_binding None false <$> bookings db) = []) as ->.
    { induction (bookings db) as [|b l IH]; [done|]. csimpl.
      by rewrite filter_cons_False. }
    f_equal. simpl. lia.
  - by rewrite Htwice, Hlen.
Qed.

(** ** A consistent store *)

Lemma NoDup_same_length {A} (l k : list A) :
  NoDup l → NoDup k → (∀ x, x ∈ l ↔ x ∈ k) → length l = length k.
Proof. intros Hl Hk Hlk. by rewrite (NoDup_Permutation l k). Qed.

Lemma length_omap_filter {A B} (g : A → option B) (l : list A) :
  length (omap g l) = length (filter (λ x, is_Some (g x)) l).
Proof.
  induction l as [|x l IH]; [done|]. csimpl. rewrite filter_cons.
  destruct (g x) as [y|] eqn:Hy.
  - rewrite decide_True by done. simpl. by rewrite IH.
  - rewrite decide_False by (by intros [? ?]). done.
Qed.

Lemma length_filter_ext_in {A} (P Q : A → Prop)
    `{∀ x, Decision (P x)} `{∀ x, Decision (Q x)} (l : list A) :
  Forall (λ x, P x ↔ Q x) l → length (filter P l) = length (filter Q l).
Proof.
  induction 1 as [|x l Hx _ IH]; [done|]. rewrite !filter_cons.
  destruct (decide (P x)), (decide (Q x)); simpl; tauto || by rewrite IH.
Qed.

Lemma length_filter_not {A} (P : A → Prop) `{∀ x, Decision (P x)} (l : list A) :
  (length (filter P l) + length (filter (λ x, ¬ P x) l) = length l)%nat.
Proof.
  induction l as [|x l IH]; [done|]. rewrite !filter_cons.
  destruct (decide (P x)).
  - rewrite decide_False by tauto. simpl. lia.
  - rewrite decide_True by done. simpl. lia.
Qed.

(** X18. In a consistent store the seat status reports as many seats
    booked as passengers checked in.  Consistent: seat ids are unique, the
    invariant of the design holds, every seat id in a booking is the id of
    a seat row (the foreign key), and a booking is checked in exactly when
    it has a seat. *)
Theorem status_booked_is_checked_in db :
  seats_pkey db → state_invariant db → bookings_seatId_fkey db →
  checkedIn_with_seat db →
  st_booked (seats_status db) = Z.of_nat (st_checkedIn (seats_status db)).
Proof.
  intros Hpk [Hkey Hiff] Hfk Hci.
  unfold seats_status, seat_count, seat_count_available,
    booking_count_checkedIn. cbn [st_booked st_checkedIn].
  rewrite (length_filter_ext_in (λ b, checkedIn b = true)
             (λ b, is_Some (seatId b)) (bookings db) Hci).
  rewrite <-length_omap_filter.
  pose proof (length_filter_not (λ s, isAvailable s = true) (seats db)) as Hsplit.
  assert (length (filter (λ s, ¬ isAvailable s = true) (seats db))
          = length (omap seatId (bookings db))) as Heq; [|lia].
  rewrite <-(length_fmap seat_id).
  apply NoDup_same_length; [|done|].
  - apply (sublist_NoDup _ (seat_id <$> seats db)); [exact Hpk|].
    apply fmap_sublist, sublist_filter.
  - intros id. rewrite list_elem_of_fmap, list_elem_of_omap. split.
    + intros (s & -> & [Hna Hs]%list_elem_of_filter).
      eapply Forall_forall in Hiff; [|exact Hs].
      assert (isAvailable s = false) as Hf by by destruct (isAvailable s).
      apply Hiff, Exists_exists in Hf as (b & Hb & Hsid). eauto.
    + intros (b & Hb & Hsid).
      assert (id ∈ omap seatId (bookings db)) as Hid
        by (apply list_elem_of_omap; eauto).
      eapply Forall_forall in Hfk; [|exact Hid].
      apply list_elem_of_fmap in Hfk as (s & -> & Hs).
      exists s. split; [done|]. apply list_elem_of_filter. split; [|done].
      eapply Forall_forall in Hiff; [|exact Hs].
      rewrite (proj2 Hiff); [done|]. apply Exists_exists. eauto.
Qed.

(** The sample store after PNR001 and PNR002 have checked in. *)
Lemma status_booked_is_checked_in_witness :
  let db := (safe_sequence [("PNR001", None); ("PNR002", None)] Sample.db0).2 in
  (seats_pkey db ∧ state_invariant db ∧ bookings_seatId_fkey db ∧
   checkedIn_with_seat db) ∧
  st_booked (seats_status db) = Z.of_nat (st_checkedIn (seats_status db)).
Proof.
  cbv zeta.
  set (db := (safe_sequence [("PNR001", None); ("PNR002", None)] Sample.db0).2).
  assert (seats_pkey db) as Hpk
    by (apply (bool_decide_eq_true_1 _); by vm_compute).
  assert (state_invariant db) as Hinv
    by (apply (bool_decide_eq_true_1 _); by vm_compute).
  assert (bookings_seatId_fkey db) as Hfk
    by (apply (bool_decide_eq_true_1 _); by vm_compute).
  assert (checkedIn_with_seat db) as Hci
    by (apply (bool_decide_eq_true_1 _); by vm_compute).
  split; [done|].
  exact (status_booked_is_checked_in db Hpk Hinv Hfk Hci).
Defined.

(** ** Interleaved calls of the unsafe policy *)

(** A thread that meets no other runs as [run] says. *)
Lemma run_alone_run {A} (p : Prog A) : ∀ db,
  ∃ n, Auto.run_alone n p db =
       (match (run p db).1 with inr a => Ret a | inl e => Throw e end,
        (run p db).2).
Proof.
  unfold run.
  induction p as [a|e|q k IH|fid n k IH|id k IH|fid k IH|k IH|id g a k IH
                  |q sid ci k IH|a k IH|ci k IH|k IH|fn k IH]; intros db.
  - by exists 0%nat.
  - by exists 0%nat.
  - destruct (IH (booking_findUnique q db) db) as [n Hn]. by exists (S n).
  - destruct (IH (seat_findMany fid n db) db) as [m Hm]. by exists (S m).
  - destruct (IH (seat_findUnique id db) db) as [n Hn]. by exists (S n).
  - destruct (IH (seat_findMany fid 1 db) db) as [n Hn]. by exists (S n).
  - destruct (IH () db) as [n Hn]. by exists (S n).
  - cbn [run_env intrude].
    destruct (seat_update id g a db) as [e|db'] eqn:Hu;
      [destruct (IH (inl e) db) as [n Hn]|destruct (IH (inr ()) db') as [n Hn]];
      exists (S n); cbn [Auto.run_alone Auto.stmt]; by rewrite Hu.
  - cbn [run_env intrude].
    destruct (booking_update q sid ci db) as [e|db'] eqn:Hu;
      [destruct (IH (inl e) db) as [n Hn]|destruct (IH (inr ()) db') as [n Hn]];
      exists (S n); cbn [Auto.run_alone Auto.stmt]; by rewrite Hu.
  - destruct (IH () (seat_updateMany a db)) as [n Hn]. by exists (S n).
  - destruct (IH () (booking_updateMany ci db)) as [n Hn]. by exists (S n).
  - destruct (IH (seat_count db) db) as [n Hn]. by exists (S n).
  - destruct (IH (flight_findUnique fn db) db) as [n Hn]. by exists (S n).
Qed.

Lemma for_seats_writes_own p cands : ∀ i,
  Auto.writes_own p None (for_seats p i cands).
Proof.
  induction cands as [|seat rest IH]; intros i; [constructor|].
  cbn. constructor. intros []. constructor. intros seatCheck.
  destruct (not_available seatCheck); cbn; [apply IH|].
  constructor. intros [e|[]]; cbn; [apply IH|].
  constructor; [intros e; cbn; apply IH|]. cbn.
  apply (Auto.wo_Ret p (mkAssignment (seatNumber seat) (seat_id seat) unsafe
                          (Some (S i)))).
Qed.

Lemma unsafe_writes_own p fid :
  Auto.writes_own p None (body_of (selectNextAvailableSeatUnsafe p fid)).
Proof.
  cbn. constructor. intros [b|]; cbn; [|constructor].
  constructor. intros cands.
  case_decide; cbn; [constructor|apply for_seats_writes_own].
Qed.

Lemma unique_ok_others p sid db b x :
  unique_ok p sid db → b ∈ bookings db → pnr b ≠ p → sid = Some x →
  seatId b ≠ Some x.
Proof.
  intros Hu Hb Hp -> Hx. apply Hu, Exists_exists. eauto.
Qed.

(** The unique index on [seatId] survives every write that
    [booking.update] lets through. *)
Lemma seatId_key_booking_update p sid ci db db' :
  bookings_pnr_key db → bookings_seatId_key db →
  booking_update p sid ci db = inr db' →
  bookings_pnr_key db' ∧ bookings_seatId_key db'.
Proof.
  intros Hpnr Hkey (-> & _ & Hu)%booking_update_inv.
  split; [unfold bookings_pnr_key; by rewrite pnrs_booking_write|].
  pose proof (λ b x, unique_ok_others p sid db b x Hu) as Hothers.
  clear Hu. revert Hpnr Hkey Hothers.
  unfold bookings_pnr_key, bookings_seatId_key, booking_write, with_bookings.
  cbn [bookings]. generalize (bookings db). clear db. intros l.
  set (h := λ b, if decide (pnr b = p) then set_binding sid ci b else b).
  induction l as [|b l IH]; [done|]. csimpl.
  intros [Hb Hpnr]%NoDup_cons Hkey Hothers.
  assert (NoDup (omap seatId l)) as Hkey'.
  { destruct (seatId b); [by apply NoDup_cons in Hkey as [_ ?]|done]. }
  assert (∀ b' x, b' ∈ l → pnr b' ≠ p → sid = Some x → seatId b' ≠ Some x)
    as Hothers' by (intros b' x Hb'; apply Hothers; by right).
  specialize (IH Hpnr Hkey' Hothers').
  assert (∀ y, y ∈ omap seatId (h <$> l) → sid = Some y ∨ y ∈ omap seatId l)
    as Hel.
  { intros y (b' & (b0 & -> & Hb0)%list_elem_of_fmap & Hy)%list_elem_of_omap.
    unfold h in Hy. case_decide; simplify_eq/=; [by left|].
    right. apply list_elem_of_omap. eauto. }
  unfold h at 1. case_decide as Hp.
  - assert (h <$> l = l) as Hl.
    { apply list_fmap_fixed. intros b' Hb'. unfold h.
      rewrite decide_False; [done|]. intros Hp'. apply Hb.
      rewrite Hp, <-Hp'. by apply list_elem_of_fmap_2. }
    rewrite Hl. simpl. destruct sid as [x|]; simpl; [|done].
    apply NoDup_cons. split; [|done].
    intros (b' & Hb' & Hx)%list_elem_of_omap.
    apply (Hothers' b' x); [done| |done..].
    intros Hp'. apply Hb. rewrite Hp, <-Hp'. by apply list_elem_of_fmap_2.
  - destruct (seatId b) as [y|] eqn:Hy; simpl; [|done].
    apply NoDup_cons. split; [|done].
    intros [Hsid|Hin]%Hel.
    + apply (Hothers b y); [left|done..].
    + by apply NoDup_cons in Hkey as [? _].
Qed.

Lemma NoDup_omap_eq {A B} (g : A → option B) (l : list A) x y s :
  NoDup (omap g l) → x ∈ l → y ∈ l → g x = Some s → g y = Some s → x = y.
Proof.
  induction l as [|z l IH]; [by intros _ ?%elem_of_nil|]. csimpl.
  intros Hnd [->|Hx]%elem_of_cons [->|Hy]%elem_of_cons Hgx Hgy; [done|..].
  - rewrite Hgx in Hnd. apply NoDup_cons in Hnd as [Hs _]. destruct Hs.
    apply list_elem_of_omap. eauto.
  - rewrite Hgy in Hnd. apply NoDup_cons in Hnd as [Hs _]. destruct Hs.
    apply list_elem_of_omap. eauto.
  - apply IH; [|done..]. destruct (g z); [by apply NoDup_cons in Hnd as [_ ?]|done].
Qed.

Section unsafe_calls.
Context (reqs : list (string * option Z)).
Context (Hdistinct : NoDup reqs.*1).

Lemma auto_inv_start db :
  bookings_pnr_key db → bookings_seatId_key db →
  Auto.inv reqs (Auto.unsafe_calls reqs db).
Proof.
  intros Hpnr Hkey. split; [|done..|].
  - unfold Auto.unsafe_calls, Auto.start. cbn. by rewrite length_fmap.
  - intros i r c Hr Hc. unfold Auto.unsafe_calls, Auto.start in Hc.
    cbn in Hc. rewrite list_lookup_fmap, Hr in Hc. simplify_eq/=.
    exists None. split; [apply unsafe_writes_own|done].
Qed.

(** A thread that moves leaves the other threads' bookings alone. *)
Lemma auto_inv_restage σ i r c' db' :
  Auto.inv reqs σ → reqs !! i = Some r →
  bookings_pnr_key db' → bookings_seatId_key db' →
  (∀ q, q ≠ r.1 → booking_findUnique q db' = booking_findUnique q (Auto.store σ)) →
  (∃ cur, Auto.writes_own r.1 cur c' ∧
          ∀ s, cur = Some s →
               ∃ b, booking_findUnique r.1 db' = Some b ∧ seatId b = Some s) →
  Auto.inv reqs (Auto.mkSys db' (<[i:=c']> (Auto.threads σ))).
Proof.
  intros [Hlen Hpnr Hkey Hth] Hr Hpnr' Hkey' Hothers Hown.
  split; cbn [Auto.store Auto.threads]; [by rewrite length_insert|done..|].
  intros j r' c Hr' Hc. destruct (decide (j = i)) as [->|Hne].
  - rewrite list_lookup_insert_eq in Hc
      by (rewrite Hlen; by eapply lookup_lt_Some).
    by simplify_eq.
  - rewrite list_lookup_insert_ne in Hc by done.
    destruct (Hth j r' c Hr' Hc) as (cur & Hwo & Hcur).
    exists cur. split; [done|]. intros s Hs. rewrite Hothers; [by apply Hcur|].
    intros Heq. apply Hne.
    apply (NoDup_lookup (reqs.*1) j i r'.1); [done|..].
    + by rewrite list_lookup_fmap, Hr'.
    + by rewrite list_lookup_fmap, Hr, Heq.
Qed.

Lemma auto_step_inv σ i :
  Auto.inv reqs σ → Auto.inv reqs (Auto.step i σ).
Proof.
  intros Hinv. unfold Auto.step.
  destruct (Auto.threads σ !! i) as [c|] eqn:Hc; [|done].
  destruct (Auto.stmt c (Auto.store σ)) as [[c' db']|] eqn:Hst; [|done].
  assert (is_Some (reqs !! i)) as [r Hr].
  { apply lookup_lt_is_Some. rewrite <-(Auto.inv_length _ _ Hinv).
    by eapply lookup_lt_Some. }
  destruct (Auto.inv_threads _ _ Hinv i r c Hr Hc) as (cur & Hwo & Hcur).
  pose proof (Auto.inv_pnr_key _ _ Hinv) as Hpnr.
  pose proof (Auto.inv_seatId_key _ _ Hinv) as Hkey.
  assert (∀ c0, Auto.writes_own r.1 cur c0 →
    Auto.inv reqs (Auto.mkSys (Auto.store σ) (<[i:=c0]> (Auto.threads σ))))
    as Hread.
  { intros c0 Hc0. apply (auto_inv_restage σ i r); eauto. }
  inversion Hwo as [a|? e|? q k Hk|? fid n k Hk|? id k Hk|? fid k Hk|? k Hk
                   |? id g a k Hk|? sid ci k Hke Hks|? k Hk|? fn k Hk];
    subst; cbn [Auto.stmt] in Hst; simplify_eq; try (apply Hread, Hk).
  - destruct (seat_update id g a (Auto.store σ)) as [e|db1] eqn:Hu;
      simplify_eq; [apply Hread, Hk|].
    apply seat_update_inv in Hu as [-> _].
    apply (auto_inv_restage σ i r); eauto.
  - destruct (booking_update r.1 sid ci (Auto.store σ)) as [e|db1] eqn:Hu;
      simplify_eq; [apply Hread, Hke|].
    destruct (seatId_key_booking_update _ _ _ _ _ Hpnr Hkey Hu) as [Hpnr' Hkey'].
    apply booking_update_inv in Hu as (-> & Hex & _).
    apply (auto_inv_restage σ i r); try done.
    + intros q Hq. by apply booking_findUnique_other.
    + exists sid. split; [done|]. intros s ->.
      apply Exists_exists in Hex as (b0 & Hb0 & Hp0).
      destruct (booking_findUnique r.1 (Auto.store σ)) as [b|] eqn:Hb.
      * exists (set_binding (Some s) ci b).
        split; [by apply booking_findUnique_bound|done].
      * unfold booking_findUnique in Hb. apply head_None in Hb.
        assert (b0 ∈ filter (λ b, pnr b = r.1) (bookings (Auto.store σ)))
          as Hin by by apply list_elem_of_filter.
        rewrite Hb in Hin. by apply elem_of_nil in Hin.
Qed.

Lemma auto_run_inv sched : ∀ σ,
  Auto.inv reqs σ → Auto.inv reqs (Auto.run_schedule sched σ).
Proof.
  induction sched as [|i sched IH]; intros σ Hinv; [done|].
  apply IH, auto_step_inv, Hinv.
Qed.

End unsafe_calls.

Lemma NoDup_omap_lookup {A B} (h : A → option B) (l : list A) :
  (∀ i j x y s, l !! i = Some x → l !! j = Some y →
                h x = Some s → h y = Some s → i = j) →
  NoDup (omap h l).
Proof.
  induction l as [|z l IH]; intros Hinj; [constructor|]. csimpl.
  assert (NoDup (omap h l)) as Hl.
  { apply IH. intros i j x y s Hi Hj Hx Hy.
    assert (S i = S j) by (by eapply (Hinj (S i) (S j))). lia. }
  destruct (h z) as [s|] eqn:Hz; [|done]. apply NoDup_cons. split; [|done].
  intros (y & Hy & Hs)%list_elem_of_omap.
  apply list_elem_of_lookup in Hy as [j Hj].
  assert (0%nat = S j) by (by eapply (Hinj 0%nat (S j) z y s)). lia.
Qed.

Lemma omap_success_seat (l : list (Prog Assignment)) :
  a_seatId <$> omap Auto.success_of l
  = omap (λ c, a_seatId <$> Auto.success_of c) l.
Proof.
  induction l as [|c l IH]; [done|]. csimpl.
  destruct (Auto.success_of c); csimpl; by rewrite IH.
Qed.

(** X19. Even the unsafe policy never binds one seat to two bookings.
    Whatever the number of concurrent calls of the unsafe policy for
    distinct PNRs, and however their statements interleave, at every point
    of the run: the two unique indexes of [bookings] hold, the calls that
    have returned name pairwise different seats, and the booking of each of
    them references the seat it was told.  (What the interleaving can cost
    is lost attempts and seats left flagged, not a seat given twice.) *)
Theorem unsafe_calls_never_share_a_seat reqs db sched :
  NoDup reqs.*1 → bookings_pnr_key db → bookings_seatId_key db →
  let σ := Auto.run_schedule sched (Auto.unsafe_calls reqs db) in
  bookings_pnr_key (Auto.store σ) ∧ bookings_seatId_key (Auto.store σ) ∧
  NoDup (a_seatId <$> Auto.successes σ) ∧
  Forall2 (λ r c, ∀ a, c = Ret a →
             ∃ b, booking_findUnique r.1 (Auto.store σ) = Some b ∧
                  seatId b = Some (a_seatId a))
    reqs (Auto.threads σ).
Proof.
  intros Hdistinct Hpnr Hkey σ.
  assert (Auto.inv reqs σ) as [Hlen Hpnr' Hkey' Hth]
    by (apply auto_run_inv, auto_inv_start; done).
  assert (∀ i r a, reqs !! i = Some r → Auto.threads σ !! i = Some (Ret a) →
            ∃ b, booking_findUnique r.1 (Auto.store σ) = Some b ∧
                 seatId b = Some (a_seatId a)) as Hbound.
  { intros i r a Hr Hc. destruct (Hth i r _ Hr Hc) as (cur & Hwo & Hcur).
    inversion Hwo; subst. by apply Hcur. }
  split_and!; [done..| |].
  - unfold Auto.successes. rewrite omap_success_seat.
    apply NoDup_omap_lookup. intros i j c c' s Hi Hj Hc Hc'.
    destruct c as [a| | | | | | | | | | | |]; simplify_eq/=.
    destruct c' as [a'| | | | | | | | | | | |]; simplify_eq/=.
    assert (is_Some (reqs !! i)) as [r Hr]
      by (apply lookup_lt_is_Some; rewrite <-Hlen; by eapply lookup_lt_Some).
    assert (is_Some (reqs !! j)) as [r' Hr']
      by (apply lookup_lt_is_Some; rewrite <-Hlen; by eapply lookup_lt_Some).
    destruct (Hbound i r a Hr Hi) as (b & Hb & Hs).
    destruct (Hbound j r' a' Hr' Hj) as (b' & Hb' & Hs').
    apply booking_findUnique_pnr in Hb as [Hp Hin].
    apply booking_findUnique_pnr in Hb' as [Hp' Hin'].
    assert (b = b') as <-
      by (apply (NoDup_omap_eq seatId (bookings (Auto.store σ)) b b' (a_seatId a));
          [done..|congruence]).
    apply (NoDup_lookup (reqs.*1) i j r.1); [done|..].
    + by rewrite list_lookup_fmap, Hr.
    + rewrite list_lookup_fmap, Hr'. simpl. congruence.
  - apply Forall2_same_length_lookup_2; [done|].
    intros i r c Hr Hc a ->. by eapply Hbound.
Qed.

(** Two calls on a store with two seats, their statements taking turns:
    both read the same candidates, PNR002 loses seat 10A to PNR001 and is
    given 10B at its second attempt. *)
Lemma unsafe_calls_never_share_a_seat_witness :
  let reqs := [("PNR001", None); ("PNR002", None)] in
  let σ := Auto.run_schedule (Conc.round_robin 9 2)
             (Auto.unsafe_calls reqs Sample.db_two) in
  (NoDup reqs.*1 ∧ bookings_pnr_key Sample.db_two ∧
   bookings_seatId_key Sample.db_two ∧
   Auto.successes σ = [mkAssignment "10A" 1 unsafe (Some 1%nat);
                       mkAssignment "10B" 2 unsafe (Some 2%nat)]) ∧
  bookings_pnr_key (Auto.store σ) ∧ bookings_seatId_key (Auto.store σ) ∧
  NoDup (a_seatId <$> Auto.successes σ) ∧
  Forall2 (λ r c, ∀ a, c = Ret a →
             ∃ b, booking_findUnique r.1 (Auto.store σ) = Some b ∧
                  seatId b = Some (a_seatId a))
    reqs (Auto.threads σ).
Proof.
  cbv zeta.
  assert (NoDup [("PNR001", @None Z); ("PNR002", None)].*1) as Hd
    by (apply (bool_decide_eq_true_1 _); by vm_compute).
  assert (bookings_pnr_key Sample.db_two) as Hpnr
    by (apply (bool_decide_eq_true_1 _); by vm_compute).
  assert (bookings_seatId_key Sample.db_two) as Hkey
    by (apply (bool_decide_eq_true_1 _); by vm_compute).
  split; [split_and!; try done; by vm_compute|].
  exact (unsafe_calls_never_share_a_seat [("PNR001", None); ("PNR002", None)]
           Sample.db_two (Conc.round_robin 9 2) Hd Hpnr Hkey).
Defined.

(** ** Calls made one after the other *)

Lemma sorted_perm_eq {A} (R : relation A) (l : list A) : ∀ k,
  (∀ x y, x ∈ l → y ∈ l → R x y → R y x → x = y) →
  StronglySorted R l → StronglySorted R k → l ≡ₚ k → l = k.
Proof.
  induction l as [|x l IH]; intros k Hanti Hl Hk Hperm.
  { by apply Permutation_nil_l in Hperm. }
  destruct k as [|y k]; [by apply Permutation_nil_r in Hperm|].
  apply StronglySorted_cons in Hl as [Hxl Hl].
  apply StronglySorted_cons in Hk as [Hyk Hk].
  assert (x = y) as ->.
  { assert (x ∈ y :: k) as [->|Hx]%elem_of_cons
      by (rewrite <-Hperm; left); [done|].
    assert (y ∈ x :: l) as [->|Hy]%elem_of_cons
      by (rewrite Hperm; left); [done|].
    apply Hanti; [left|by right|..].
    - by eapply Forall_forall in Hxl.
    - by eapply Forall_forall in Hyk. }
  f_equal. apply IH; [|done..|by apply Permutation_cons_inv in Hperm].
  intros a b Ha Hb. apply Hanti; by right.
Qed.

Lemma filter_open_after_write f id (l : list Seat) :
  filter (open_on f)
    ((λ s, if decide (seat_matches id None s) then set_available false s else s)
       <$> l)
  = filter (λ s, seat_id s ≠ id) (filter (open_on f) l).
Proof.
  induction l as [|s l IH]; [done|]. rewrite fmap_cons.
  rewrite (filter_cons _ s), (filter_cons _ (if decide _ then _ else _)).
  destruct (decide (seat_matches id None s)) as [Hm|Hm];
    rewrite seat_matches_id in Hm.
  - rewrite decide_False by (by intros [_ ?]).
    destruct (decide (open_on f s)); [|done].
    rewrite filter_cons, decide_False by (by intros ?). done.
  - destruct (decide (open_on f s)); [|done].
    rewrite filter_cons, decide_True by done. by rewrite IH.
Qed.

(** The pool after the first seat of the pool has been given away is the
    rest of the pool, in the same order. *)
Lemma available_seats_after_checkin f p ci db seat w :
  seats_pkey db → seats_flightId_seatNumber_key db →
  available_seats f db = seat :: w →
  available_seats f (booking_write p (Some (seat_id seat)) ci
                       (seat_write (seat_id seat) None false db)) = w.
Proof.
  intros Hpk Hkey Hw.
  pose proof (available_seats_sorted f db) as Hsorted. rewrite Hw in Hsorted.
  apply StronglySorted_cons in Hsorted as [_ Hsorted].
  pose proof (available_seats_perm f db) as Hperm. rewrite Hw in Hperm.
  assert (∀ s, s ∈ seat :: w → s ∈ seats db ∧ open_on f s) as Hin
    by (intros s Hs; apply elem_of_available_seats; by rewrite Hw).
  assert (NoDup (seat :: w)) as Hnd.
  { rewrite Hperm. apply NoDup_filter. by eapply NoDup_fmap_1. }
  apply NoDup_cons in Hnd as [Hseat Hnd].
  symmetry. apply (sorted_perm_eq seat_le); [|done|apply available_seats_sorted|].
  - intros x y Hx Hy Hxy Hyx.
    destruct (Hin x) as [Hx1 [Hx2 _]]; [by right|].
    destruct (Hin y) as [Hy1 [Hy2 _]]; [by right|].
    apply (NoDup_fmap_eq (λ s, (seat_flightId s, seatNumber s)) (seats db));
      [done..|].
    f_equal; [congruence|]. unfold seat_le in *.
    by apply (anti_symm String.le).
  - unfold available_seats at 1. rewrite merge_sort_Permutation.
    rewrite seats_after_checkin, filter_open_after_write, <-Hperm.
    rewrite filter_cons, decide_False by (by intros ?).
    symmetry. apply Permutation_refl', filter_all, Forall_forall.
    intros s Hs Hid. apply Hseat.
    destruct (Hin s) as [Hs1 _]; [by right|].
    destruct (Hin seat) as [Hs2 _]; [left|].
    by rewrite <-(NoDup_fmap_eq seat_id (seats db) s seat Hpk Hs1 Hs2 Hid).
Qed.

Lemma bound_seats_unavailable_after_checkin p id ci db :
  bound_seats_unavailable db →
  bound_seats_unavailable
    (booking_write p (Some id) ci (seat_write id None false db)).
Proof.
  unfold bound_seats_unavailable. intros Hbd.
  rewrite seats_after_checkin. apply Forall_fmap, Forall_forall.
  intros s Hs. unfold compose. eapply Forall_forall in Hbd; [|exact Hs].
  destruct (decide (seat_matches id None s)) as [Hm|Hm]; [done|].
  rewrite seat_matches_id in Hm.
  intros [Heq|Hb]%bound_after_bind; [done|by apply Hbd].
Qed.

Lemma select_sequence_cons m p fid reqs db :
  select_sequence m ((p, fid) :: reqs) db =
  let '(r, db1) := exec (select m p fid) db in
  let '(rs, db2) := select_sequence m reqs db1 in
  (r :: rs, db2).
Proof. done. Qed.

Lemma length_omap_assigned m (l : list Seat) k e :
  length (omap assigned ((inr ∘ assignment_of m <$> l) ++ replicate k (inl e)))
  = length l.
Proof.
  induction l as [|s l IH]; csimpl.
  - induction k as [|k IHk]; [done|]. by csimpl.
  - by rewrite IH.
Qed.

(** X20. Calls made one after the other hand out the pool in order, under
    either policy.  On a store with the schema's keys whose bound seats are
    flagged, [N] calls that all draw from the pool of one flight, each
    finished before the next starts, are given the first [min(N, M)] of the
    [M] available seats of that flight in ascending seat-number order, the
    k-th call the k-th seat; the calls after the pool has run out fail as
    pool exhausted; and what is left of the pool is its remaining seats. *)
Theorem sequential_calls_take_pool_in_order m f reqs : ∀ db rs db',
  seats_pkey db → seats_flightId_seatNumber_key db →
  bound_seats_unavailable db →
  Forall (λ r, target_flight db r = Some f) reqs →
  select_sequence m reqs db = (rs, db') →
  rs = (inr ∘ assignment_of m <$> take (length reqs) (available_seats f db))
       ++ replicate (length reqs - length (available_seats f db))
            (inl (pool_exhausted m)) ∧
  available_seats f db' = drop (length reqs) (available_seats f db) ∧
  length (omap assigned rs)
  = (length reqs `min` length (available_seats f db))%nat.
Proof.
  intros db rs db' Hpk Hkey Hbd Hreqs Hseq.
  assert (rs = (inr ∘ assignment_of m
                  <$> take (length reqs) (available_seats f db))
               ++ replicate (length reqs - length (available_seats f db))
                    (inl (pool_exhausted m)) ∧
          available_seats f db' = drop (length reqs) (available_seats f db))
    as [-> Hpool].
  2:{ split_and!; [done..|]. by rewrite length_omap_assigned, length_take. }
  revert db rs db' Hpk Hkey Hbd Hreqs Hseq.
  induction reqs as [|[p fid] reqs IH]; intros db rs db' Hpk Hkey Hbd Hreqs Hseq.
  { injection Hseq as <- <-. rewrite drop_0. done. }
  rewrite select_sequence_cons in Hseq.
  apply Forall_cons in Hreqs as [Hreq Hreqs].
  unfold target_flight in Hreq. cbn [fst snd] in Hreq.
  rewrite (exec_alone m p fid db Hpk Hbd) in Hseq.
  destruct (booking_findUnique p db) as [b|] eqn:Hb; [|done].
  injection Hreq as Hf. rewrite Hf in Hseq.
  destruct (available_seats f db) as [|seat w] eqn:Hw.
  - destruct (select_sequence m reqs db) as [rs1 db1] eqn:Hrest.
    injection Hseq as <- <-.
    destruct (IH db rs1 db1 Hpk Hkey Hbd Hreqs Hrest) as (-> & Hpool).
    rewrite Hw in *. rewrite take_nil, drop_nil in *. cbn [length].
    rewrite !Nat.sub_0_r. done.
  - set (db1 := booking_write p (Some (seat_id seat)) true
                  (seat_write (seat_id seat) None false db)) in *.
    destruct (select_sequence m reqs db1) as [rs2 db2] eqn:Hrest.
    injection Hseq as <- <-.
    assert (available_seats f db1 = w) as Hw1
      by by apply available_seats_after_checkin.
    destruct (IH db1 rs2 db2) as (-> & Hpool); try done.
    + apply seats_pkey_seat_write, Hpk.
    + unfold seats_flightId_seatNumber_key, db1.
      rewrite seats_booking_write, seat_keys_seat_write. done.
    + by apply bound_seats_unavailable_after_checkin.
    + eapply Forall_impl; [exact Hreqs|]. intros r Hr.
      unfold db1. by rewrite target_flight_after.
    + rewrite Hw1 in *. done.
Qed.

(** Four bookings ask for the three seats of flight AA123, one after the
    other, under the unsafe policy. *)
Lemma sequential_calls_take_pool_in_order_witness :
  let reqs := [("PNR001", None); ("PNR002", None); ("PNR003", None);
               ("PNR004", None)] in
  let rs := [inr (mkAssignment "10A" 1 unsafe (Some 1%nat));
             inr (mkAssignment "10B" 2 unsafe (Some 1%nat));
             inr (mkAssignment "10C" 3 unsafe (Some 1%nat));
             inl NoSeatsAvailable] in
  let db' := (select_sequence unsafe reqs Sample.db0).2 in
  (seats_pkey Sample.db0 ∧ seats_flightId_seatNumber_key Sample.db0 ∧
   bound_seats_unavailable Sample.db0 ∧
   Forall (λ r, target_flight Sample.db0 r = Some 1) reqs ∧
   select_sequence unsafe reqs Sample.db0 = (rs, db')) ∧
  rs = (inr ∘ assignment_of unsafe
          <$> take (length reqs) (available_seats 1 Sample.db0))
       ++ replicate (length reqs - length (available_seats 1 Sample.db0))
            (inl (pool_exhausted unsafe)) ∧
  available_seats 1 db' = drop (length reqs) (available_seats 1 Sample.db0) ∧
  length (omap assigned rs)
  = (length reqs `min` length (available_seats 1 Sample.db0))%nat.
Proof.
  cbv zeta.
  assert (seats_pkey Sample.db0) as Hpk
    by (apply (bool_decide_eq_true_1 _); by vm_compute).
  assert (seats_flightId_seatNumber_key Sample.db0) as Hkey
    by (apply (bool_decide_eq_true_1 _); by vm_compute).
  assert (bound_seats_unavailable Sample.db0) as Hbd
    by (apply (bool_decide_eq_true_1 _); by vm_compute).
  assert (Forall (λ r, target_flight Sample.db0 r = Some 1)
            [("PNR001", None); ("PNR002", None); ("PNR003", None);
             ("PNR004", None)]) as Hreqs
    by (apply (bool_decide_eq_true_1 _); by vm_compute).
  split; [split_and!; try done; by vm_compute|].
  apply (sequential_calls_take_pool_in_order unsafe 1 _ Sample.db0 _ _
           Hpk Hkey Hbd Hreqs).
  by vm_compute.
Defined.

(** ** What a check-in never does *)

Lemma booking_write_frame p sid ci db :
  Forall2 (λ b b', pnr b ≠ p → b' = b)
    (bookings db) (bookings (booking_write p sid ci db)).
Proof.
  unfold booking_write, with_bookings. cbn [bookings].
  apply Forall2_fmap_r, Forall_Forall2_diag, Forall_true.
  intros b Hp. by rewrite decide_False.
Qed.

Lemma bookings_frame_refl p (l : list Booking) :
  Forall2 (λ b b', pnr b ≠ p → b' = b) l l.
Proof. apply Forall_Forall2_diag, Forall_true. done. Qed.

(** No call of the service writes to [flights]. *)
Lemma run_flights {A} (c : Prog A) : ∀ db, flights (run c db).2 = flights db.
Proof.
  unfold run.
  induction c as [a|e|q k IH|fid n k IH|id k IH|fid k IH|k IH|id g a k IH
                  |q sid ci k IH|a k IH|ci k IH|k IH|fn k IH]; intros db;
    cbn [run_env intrude]; try done; try apply IH.
  - destruct (seat_update id g a db) as [e|db1] eqn:Hu; [apply IH|].
    apply seat_update_inv in Hu as [-> _]. by rewrite IH.
  - destruct (booking_update q sid ci db) as [e|db1] eqn:Hu; [apply IH|].
    apply booking_update_inv in Hu as (-> & _ & _). by rewrite IH.
  - by rewrite IH.
  - by rewrite IH.
Qed.

Lemma exec_flights {A} (c : Call A) db : flights (exec c db).2 = flights db.
Proof.
  destruct c as [c|c]; cbn [exec]; [apply run_flights|].
  unfold transaction. pose proof (run_flights c db) as Hfl.
  by destruct (run c db) as [[e|a] db1].
Qed.

(** X21. What a check-in never does.  A call of either policy, run with
    nothing else on any store and however it ends: leaves the flights as
    they are; adds, removes and renumbers no seat and never makes a seat
    available, it only clears availability flags; adds and removes no
    booking and changes no booking of another PNR; and when it fails it has
    changed no booking at all. *)
Theorem checkin_frame m p fid db r db' :
  exec (select m p fid) db = (r, db') →
  flights db' = flights db ∧
  flags_cleared db db' ∧
  Forall2 (λ b b', pnr b ≠ p → b' = b) (bookings db) (bookings db') ∧
  (∀ e, r = inl e → bookings db' = bookings db).
Proof.
  intros Hex. split.
  { pose proof (exec_flights (select m p fid) db) as Hfl.
    by rewrite Hex in Hfl. }
  revert Hex. destruct m; cbn [select].
  - rewrite exec_unsafe, run_unsafe_body. cbn [intrude].
    destruct (booking_findUnique p db) as [b|].
    2:{ intros [= <- <-]. split_and!; try done.
        - exact (flags_cleared_refl db).
        - apply bookings_frame_refl. }
    cbv zeta. case_decide.
    { intros [= <- <-]. split_and!; try done.
      - exact (flags_cleared_refl db).
      - apply bookings_frame_refl. }
    intros Hrun.
    pose proof (run_for_seats_alone p
      (seat_findMany (or_else fid (booking_flightId b)) 5 db) 0 db) as Hloop.
    unfold run in Hloop. rewrite Hrun in Hloop. destruct r as [e|a].
    + destruct Hloop as (-> & Hb & Hfc). split_and!; try done.
      rewrite Hb. apply bookings_frame_refl.
    + destruct Hloop as (seat & db1 & _ & _ & _ & _ & Hb & Hfc & Hbu).
      apply booking_update_inv in Hbu as (-> & _ & _). split_and!; try done.
      rewrite <-Hb. apply booking_write_frame.
  - rewrite exec_safe. unfold transaction. rewrite run_safe_body.
    assert (∀ r0 : Err + Assignment,
            flags_cleared db db ∧
            Forall2 (λ b b', pnr b ≠ p → b' = b) (bookings db) (bookings db) ∧
            (∀ e, r0 = inl e → bookings db = bookings db)) as Hsame.
    { intros r0. split_and!; try done; [exact (flags_cleared_refl db)|].
      apply bookings_frame_refl. }
    destruct (booking_findUnique p db) as [b|]; [|intros [= <- <-]; apply Hsame].
    destruct (seat_findMany _ 1 db) as [|seat l]; [intros [= <- <-]; apply Hsame|].
    destruct (seat_update _ _ _ db) as [e|db1] eqn:Hsu;
      [intros [= <- <-]; apply Hsame|].
    apply seat_update_inv in Hsu as [-> _].
    destruct (booking_update _ _ _ _) as [e|db2] eqn:Hbu;
      [intros [= <- <-]; apply Hsame|].
    apply booking_update_inv in Hbu as (-> & _ & _).
    intros [= <- <-]. split_and!; try done.
    + exact (flags_cleared_seat_write (seat_id seat) None db).
    + exact (booking_write_frame p (Some (seat_id seat)) true
               (seat_write (seat_id seat) None false db)).
Qed.

(** PNR001 under the unsafe policy on the stale store: the call flags seat
    10A, is refused the binding, and is bound to 10B. *)
Lemma checkin_frame_witness :
  let db := Sample.db_stale in
  let r := inr (mkAssignment "10B" 2 unsafe (Some 2%nat)) in
  let db' := (exec (selectNextAvailableSeatUnsafe "PNR001" None) db).2 in
  exec (select unsafe "PNR001" None) db = (r, db') ∧
  flights db' = flights db ∧
  flags_cleared db db' ∧
  Forall2 (λ b b', pnr b ≠ "PNR001" → b' = b) (bookings db) (bookings db') ∧
  (∀ e, r = inl e → bookings db' = bookings db).
Proof.
  cbv zeta. split; [by vm_compute|].
  apply (checkin_frame unsafe "PNR001" None Sample.db_stale). by vm_compute.
Defined.

(** ** Matching error messages *)

Lemma append_cons a (s t : string) : String a s +:+ t = String a (s +:+ t).
Proof. done. Qed.

Lemma prefix_spec t : ∀ s,
  String.prefix t s = true ↔ ∃ post, s = t +:+ post.
Proof.
  induction t as [|a t IH]; intros s.
  - destruct s; (split; [intros _; by eexists|done]).
  - destruct s as [|b s]; simpl; [split; [done|by intros [? ?]]|].
    setoid_rewrite append_cons.
    destruct (Ascii.ascii_dec a b) as [->|Hab].
    + rewrite IH. split; intros [post Hpost]; exists post; congruence.
    + split; [done|]. intros [post Hpost]. congruence.
Qed.

Lemma includes_spec t : ∀ s,
  includes t s = true ↔ ∃ pre post, s = pre +:+ t +:+ post.
Proof.
  induction s as [|a s IH]; cbn [includes]; rewrite orb_true_iff, prefix_spec.
  - split.
    + intros [[post Hpost]|?]; [|done]. by exists "", post.
    + intros (pre & post & Hs). left. destruct pre; [|done]. eauto.
  - rewrite IH. split.
    + intros [[post Hpost]|(pre & post & ->)]; [by exists "", post|].
      by exists (String a pre), post.
    + intros (pre & post & Hs). destruct pre as [|b pre]; [left; eauto|].
      right. rewrite append_cons in Hs. injection Hs as _ ->. eauto.
Qed.

(** X22. [errorContains] answers true exactly for an [Error] object whose
    message has the text somewhere inside it; a thrown value that is not an
    [Error] is never matched, whatever [getErrorMessage] then reports for
    it; and for an [Error] object [getErrorMessage] is the message. *)
Theorem errorContains_spec error text :
  (errorContains error text = true ↔
   ∃ pre post, error = ErrorObject (pre +:+ text +:+ post)) ∧
  (errorContains error text = true →
   ∃ pre post, getErrorMessage error = pre +:+ text +:+ post) ∧
  (∀ t, errorContains (NotAnError t) text = false ∧
        getErrorMessage (NotAnError t) = t) ∧
  (∀ m, getErrorMessage (ErrorObject m) = m).
Proof.
  split_and!; try done.
  - destruct error as [m|t]; cbn [errorContains].
    + rewrite includes_spec. split; intros (pre & post & Hm);
        exists pre, post; congruence.
    + split; [done|]. by intros (? & ? & ?).
  - destruct error as [m|t]; cbn [errorContains getErrorMessage]; [|done].
    by rewrite includes_spec.
Qed.

(** ** Seeding *)

Lemma foldl_booking_create fid (l : list nat) : ∀ db,
  foldl (λ db i, booking_create (pnr_of i) fid db) db l
  = with_bookings
      (λ bs, bs ++ ((λ i, mkBooking (pnr_of i) fid None false) <$> l)) db.
Proof.
  induction l as [|i l IH]; intros db; cbn [foldl].
  - unfold with_bookings. rewrite app_nil_r. by destruct db.
  - rewrite IH. unfold booking_create, with_bookings. cbn [flights seats bookings].
    by rewrite <-app_assoc.
Qed.

(** What the store holds after seeding, whatever it held before. *)
Lemma seedDatabase_store q db :
  (seedDatabase q db).2
  = mkDB [mkFlight (flights_id_seq q) "AA123" 96]
      (imap (λ i d, mkSeat (seats_id_seq q + Z.of_nat i) d.1 d.2 true)
         (seed_seats (flights_id_seq q)))
      ((λ i, mkBooking (pnr_of i) (flights_id_seq q) None false) <$> seq 1 100).
Proof.
  unfold seedDatabase, flight_create, seat_createMany. cbn [snd flight_id].
  by rewrite foldl_booking_create.
Qed.

Lemma seed_seats_numbers fid :
  seed_seats fid = (λ n, (fid, n)) <$> (seed_seats 0).*2.
Proof. by vm_compute. Qed.

Lemma seed_numbers :
  merge_sort String.le (seed_seats 0).*2 = (seed_seats 0).*2 ∧
  NoDup (seed_seats 0).*2 ∧ length (seed_seats 0).*2 = 96%nat ∧
  NoDup (pnr_of <$> seq 1 100).
Proof.
  split_and!.
  - by vm_compute.
  - apply (bool_decide_eq_true_1 _). by vm_compute.
  - by vm_compute.
  - apply (bool_decide_eq_true_1 _). by vm_compute.
Qed.

Lemma booking_findUnique_key db b :
  bookings_pnr_key db → b ∈ bookings db → booking_findUnique (pnr b) db = Some b.
Proof.
  unfold bookings_pnr_key, booking_findUnique. intros Hnd Hb.
  induction (bookings db) as [|x l IH]; [by apply elem_of_nil in Hb|].
  csimpl in Hnd. apply NoDup_cons in Hnd as [Hx Hnd].
  rewrite filter_cons. apply elem_of_cons in Hb as [->|Hb].
  - by rewrite decide_True.
  - rewrite decide_False; [by apply IH|].
    intros Heq. destruct Hx. rewrite Heq. by apply list_elem_of_fmap_2.
Qed.

(** X23. Seeding leaves a store the rest of the system can work on,
    whatever the store held before and whatever ids the sequences hand
    out: one flight AA123 whose [totalSeats], 96, is the number of its seat
    rows; seat ids, seat numbers and PNRs unique; the invariant of the
    design; the seat status 96 total, 96 available, none booked, nobody
    checked in; a seat map that lists the seats in the order they were
    created, rows 10 to 25 and letters A to F, which is ascending
    seat-number order; and for each of PNR001 to PNR100 a login that shows
    the booking without a seat and all 96 seats available. *)
Theorem seed_database_store q db :
  let db' := (seedDatabase q db).2 in
  flights db' = [mkFlight (flights_id_seq q) "AA123" 96] ∧
  seats_pkey db' ∧ seats_flightId_seatNumber_key db' ∧ bookings_pnr_key db' ∧
  state_invariant db' ∧
  seats_status db' = mkSeatsStatus 96 96 0 0 ∧
  seatNumber <$> seats db' = (seed_seats 0).*2 ∧
  exec (getFlightSeatMap "AA123") db'
  = (inr (mkSeatMap "AA123" 96 96 (seats db')), db') ∧
  Forall (λ i, loginWithPNR (pnr_of i) db'
               = inr (mkLoginData (pnr_of i) false None (seats db')))
    (seq 1 100).
Proof.
  cbv zeta. rewrite seedDatabase_store.
  set (fid := flights_id_seq q). set (sid := seats_id_seq q).
  destruct seed_numbers as (Hsorted & Hnd & Hlen & Hpnrs).
  set (ss := imap (λ i d, mkSeat (sid + Z.of_nat i) d.1 d.2 true)
               (seed_seats fid)).
  set (bs := (λ i, mkBooking (pnr_of i) fid None false) <$> seq 1 100).
  assert (seatNumber <$> ss = (seed_seats 0).*2) as Hnumbers.
  { unfold ss. rewrite fmap_imap, seed_seats_numbers, imap_fmap.
    rewrite (imap_ext _ (λ _ n, n)) by done.
    rewrite (imap_const id). apply list_fmap_id. }
  assert (Forall (λ s, seat_flightId s = fid ∧ isAvailable s = true) ss)
    as Hall.
  { unfold ss. rewrite seed_seats_numbers, imap_fmap.
    apply Forall_forall. intros s (i & n & -> & _)%elem_of_lookup_imap.
    split; reflexivity. }
  assert (NoDup (seat_id <$> ss)) as Hpk.
  { unfold ss. rewrite fmap_imap.
    rewrite (imap_ext _ (λ i _, sid + Z.of_nat i)) by done.
    rewrite imap_seq_0. apply NoDup_fmap_2; [|apply NoDup_seq].
    intros i j Hij. lia. }
  assert (merge_sort seat_le ss = ss) as Hss.
  { apply (sorted_perm_eq seat_le);
      [|apply StronglySorted_merge_sort; apply _| |apply merge_sort_Permutation].
    - intros x y Hx Hy Hxy Hyx. rewrite merge_sort_Permutation in Hx, Hy.
      assert (seatNumber x = seatNumber y) as Hn by by apply (anti_symm String.le).
      unfold ss in Hx, Hy.
      apply elem_of_lookup_imap in Hx as (i & d & -> & Hi).
      apply elem_of_lookup_imap in Hy as (j & d' & -> & Hj).
      simpl in Hn.
      assert ((seed_seats fid).*2 !! i = Some d.2) as Hi'
        by by rewrite list_lookup_fmap, Hi.
      assert ((seed_seats fid).*2 !! j = Some d.2) as Hj'
        by by rewrite list_lookup_fmap, Hj, Hn.
      assert ((seed_seats fid).*2 = (seed_seats 0).*2) as Heq
        by (rewrite seed_seats_numbers, <-list_fmap_compose; apply list_fmap_id).
      rewrite Heq in Hi', Hj'.
      assert (i = j) as -> by exact (NoDup_lookup _ i j _ Hnd Hi' Hj').
      rewrite Hi in Hj. by injection Hj as <-.
    - assert (StronglySorted String.le (seatNumber <$> ss)) as Hs.
      { rewrite Hnumbers, <-Hsorted. apply StronglySorted_merge_sort; apply _. }
      clear -Hs. induction ss as [|s l IH]; [constructor|].
      csimpl in Hs. apply StronglySorted_cons in Hs as [Hall Hs].
      constructor; [by apply IH|]. rewrite Forall_fmap in Hall. exact Hall. }
  assert (filter (open_on fid) ss = ss) as Hopen.
  { apply filter_all. eapply Forall_impl; [exact Hall|].
    intros s [Hfl Hav]. split; assumption. }
  assert (length ss = 96%nat) as Hlen'
    by by rewrite <-(length_fmap seatNumber), Hnumbers.
  assert (bookings_pnr_key (mkDB [mkFlight fid "AA123" 96] ss bs)) as Hpnr.
  { unfold bookings_pnr_key, bs. cbn [bookings].
    by rewrite <-list_fmap_compose. }
  split_and!.
  - done.
  - exact Hpk.
  - unfold seats_flightId_seatNumber_key, ss. cbn [seats].
    rewrite fmap_imap, (imap_ext _ (λ _ d, d)) by (by intros ? [? ?] ?).
    rewrite (imap_const id), list_fmap_id, seed_seats_numbers.
    apply NoDup_fmap_2; [|done]. by intros ?? [= ->].
  - exact Hpnr.
  - split.
    + unfold bookings_seatId_key, bs. cbn [bookings].
      assert (omap seatId ((λ i, mkBooking (pnr_of i) fid None false)
                             <$> seq 1 100) = []) as ->; [|constructor].
      generalize (seq 1 100). intros l. induction l as [|i l IH]; done.
    + cbn [seats]. eapply Forall_impl; [exact Hall|].
      intros s [_ Hav]. rewrite Hav. split; [done|].
      intros (b & (i & -> & _)%list_elem_of_fmap & Hb)%Exists_exists. done.
  - unfold seats_status, seat_count, seat_count_available,
      booking_count_checkedIn. cbn [seats bookings].
    rewrite (filter_all (λ s, isAvailable s = true))
      by (eapply Forall_impl; [exact Hall|]; by intros s [? ?]).
    assert (filter (λ b, checkedIn b = true) bs = []) as ->.
    { unfold bs. generalize (seq 1 100). intros l.
      induction l as [|i l IH]; [done|]. csimpl. by rewrite filter_cons_False. }
    rewrite Hlen'. done.
  - exact Hnumbers.
  - rewrite exec_seat_map. unfold flight_findUnique. cbn [flights seats].
    rewrite filter_cons_True by done. cbn [head flight_id].
    rewrite (filter_all (λ s, seat_flightId s = fid))
      by (eapply Forall_impl; [exact Hall|]; by intros s [? ?]).
    rewrite Hss. cbn [flightNumber totalSeats].
    rewrite (filter_all (λ s, isAvailable s = true))
      by (eapply Forall_impl; [exact Hall|]; by intros s [? ?]).
    by rewrite Hlen'.
  - apply Forall_forall. intros i Hi. unfold loginWithPNR.
    assert (booking_findUnique (pnr_of i)
              (mkDB [mkFlight fid "AA123" 96] ss bs)
            = Some (mkBooking (pnr_of i) fid None false)) as ->.
    { apply (booking_findUnique_key _ (mkBooking (pnr_of i) fid None false) Hpnr).
      cbn [bookings]. unfold bs. apply list_elem_of_fmap. exists i.
      split; [reflexivity|exact Hi]. }
    cbn [pnr checkedIn seatId booking_flightId mbind option_bind].
    unfold available_seats. cbn [seats]. by rewrite Hopen, Hss.
Qed.

(** ** The statistics of the load test *)

Lemma uniqueSeats_snoc xs x :
  LoadTest.uniqueSeats (xs ++ [x]) =
  if decide (x ∈ LoadTest.uniqueSeats xs) then LoadTest.uniqueSeats xs
  else LoadTest.uniqueSeats xs ++ [x].
Proof. unfold LoadTest.uniqueSeats. by rewrite foldl_snoc. Qed.

(** The set of the distinct seat numbers. *)
Lemma uniqueSeats_set xs :
  NoDup (LoadTest.uniqueSeats xs) ∧
  (∀ s, s ∈ LoadTest.uniqueSeats xs ↔ s ∈ xs) ∧
  (length (LoadTest.uniqueSeats xs) ≤ length xs)%nat ∧
  (NoDup xs ↔ length (LoadTest.uniqueSeats xs) = length xs).
Proof.
  induction xs as [|x xs (Hnd & Hel & Hle & Hiff)] using rev_ind.
  { split_and!; [constructor|done|done|]. split; [done|constructor]. }
  rewrite uniqueSeats_snoc, length_app. cbn [length].
  rewrite NoDup_app, Hiff.
  case_decide as Hx.
  - split_and!; [done| |lia|].
    + intros s. rewrite elem_of_app, Hel, list_elem_of_singleton.
      split; [tauto|]. intros [?| ->]; [done|]. by apply Hel.
    + split; [|lia]. intros (_ & Hno & _). destruct (Hno x); [by apply Hel|].
      by apply list_elem_of_singleton.
  - rewrite length_app. cbn [length]. split_and!.
    + apply NoDup_app. split_and!; [done| |apply NoDup_singleton].
      intros s Hs ->%list_elem_of_singleton. done.
    + intros s. by rewrite !elem_of_app, Hel.
    + lia.
    + split.
      * intros (-> & _ & _). done.
      * intros Hlen. split_and!; [lia| |apply NoDup_singleton].
        intros s Hs ->%list_elem_of_singleton. apply Hx. by apply Hel.
Qed.

Lemma foldl_sum {A} (g : A → nat) (l : list A) : ∀ a,
  foldl (λ sum x, (sum + g x)%nat) a l = (a + sum_list_with g l)%nat.
Proof.
  induction l as [|x l IH]; intros a; cbn [foldl sum_list_with]; [lia|].
  rewrite IH. lia.
Qed.

Lemma filter_none {A} (P : A → Prop) `{∀ x, Decision (P x)} (l : list A) :
  (∀ x, x ∈ l → ¬ P x) → filter P l = [].
Proof.
  induction l as [|x l IH]; intros Hl; [done|].
  rewrite filter_cons_False by (apply Hl; left).
  apply IH. intros y Hy. apply Hl. by right.
Qed.

Lemma seatCounts_snoc xs x :
  LoadTest.seatCounts (xs ++ [x]) =
  LoadTest.assign x (LoadTest.incremented (LoadTest.seatCounts xs) x) (LoadTest.seatCounts xs).
Proof. unfold LoadTest.seatCounts. by rewrite foldl_snoc. Qed.

Lemma plain_snoc xs x :
  LoadTest.plain (xs ++ [x]) =
  if decide (x ∈ LoadTest.Object_prototype) then LoadTest.plain xs else LoadTest.plain xs ++ [x].
Proof.
  unfold LoadTest.plain. rewrite filter_app, filter_cons, filter_nil.
  case_decide; case_decide; try done. by rewrite app_nil_r.
Qed.

Lemma inherited_snoc xs x :
  LoadTest.inherited (xs ++ [x]) =
  if decide (x ∈ LoadTest.Object_prototype) then LoadTest.inherited xs ++ [x]
  else LoadTest.inherited xs.
Proof.
  unfold LoadTest.inherited. rewrite filter_app, filter_cons, filter_nil.
  case_decide; [done|]. by rewrite app_nil_r.
Qed.

Lemma seatCounts_map xs :
  let m := LoadTest.seatCounts xs in
  (∀ s n, m !! s = Some (LoadTest.Number n) →
          (s ∉ LoadTest.Object_prototype) ∧ (1 ≤ n)%nat) ∧
  (∀ s, m !! s = Some LoadTest.Text → s ∈ LoadTest.Object_prototype) ∧
  (∀ s, s ∉ LoadTest.Object_prototype → (is_Some (m !! s) ↔ s ∈ xs)) ∧
  (sum_list_with LoadTest.surplus (map_to_list m)
   + length (LoadTest.uniqueSeats (LoadTest.plain xs)) = length (LoadTest.plain xs))%nat.
Proof.
  induction xs as [|x xs (Hnum & Htext & Hdom & Hsum)] using rev_ind.
  { cbv zeta. unfold LoadTest.seatCounts. cbn [foldl]. split_and!.
    - intros s n. by rewrite lookup_empty.
    - intros s. by rewrite lookup_empty.
    - intros s _. rewrite lookup_empty, elem_of_nil. split; [by intros [? ?]|done].
    - done. }
  cbv zeta in *. rewrite seatCounts_snoc, plain_snoc.
  set (m := LoadTest.seatCounts xs) in *.
  destruct (uniqueSeats_set (LoadTest.plain xs)) as (_ & Hel & _ & _).
  assert (∀ s, s ∉ LoadTest.Object_prototype → s ∈ LoadTest.plain xs ↔ s ∈ xs) as Hplain.
  { intros s Hs. unfold LoadTest.plain. rewrite list_elem_of_filter. tauto. }
  unfold LoadTest.assign, LoadTest.incremented.
  destruct (decide (x ∈ LoadTest.Object_prototype)) as [Hx|Hx].
  - (* an inherited name *)
    assert (∀ s, s ∉ LoadTest.Object_prototype → s ∈ xs ++ [x] ↔ s ∈ xs) as Hin.
    { intros s Hs. rewrite elem_of_app, list_elem_of_singleton.
      split; [intros [?| ->]; done|by left]. }
    destruct (decide (x = "__proto__")) as [Hp|Hp].
    { split_and!; [done|done| |done].
      intros s Hs. by rewrite Hdom, Hin. }
    assert (<[x := LoadTest.Text]> m !! x = Some LoadTest.Text) as Hnew
      by apply lookup_insert_eq.
    assert (match m !! x with
            | Some (LoadTest.Number n) => LoadTest.Number (n + 1)
            | Some LoadTest.Text => LoadTest.Text
            | None => LoadTest.Text
            end = LoadTest.Text) as ->.
    { destruct (m !! x) as [[n|]|] eqn:Hmx; [|done..].
      by destruct (Hnum x n Hmx). }
    split_and!.
    + intros s n. destruct (decide (x = s)) as [->|Hne].
      * by rewrite lookup_insert_eq.
      * rewrite lookup_insert_ne by done. apply Hnum.
    + intros s. destruct (decide (x = s)) as [->|Hne]; [done|].
      rewrite lookup_insert_ne by done. apply Htext.
    + intros s Hs. rewrite Hin by done.
      rewrite lookup_insert_ne by (by intros ->). by apply Hdom.
    + destruct (m !! x) as [c|] eqn:Hmx.
      * assert (c = LoadTest.Text) as ->.
        { destruct c as [n|]; [|done]. by destruct (Hnum x n Hmx). }
        by rewrite insert_id.
      * rewrite map_to_list_insert by done. done.
  - (* a plain seat number *)
    assert (x ≠ "__proto__") as Hp.
    { intros ->. apply Hx. unfold LoadTest.Object_prototype.
      repeat (first [by left|right]). }
    rewrite decide_False by done.
    rewrite uniqueSeats_snoc, length_app. cbn [length].
    destruct (m !! x) as [[n|]|] eqn:Hmx.
    + destruct (Hnum x n Hmx) as [_ Hn].
      split_and!.
      * intros s k. destruct (decide (x = s)) as [->|Hne].
        -- rewrite lookup_insert_eq. intros [= <-]. split; [done|lia].
        -- rewrite lookup_insert_ne by done. apply Hnum.
      * intros s. destruct (decide (x = s)) as [->|Hne].
        -- by rewrite lookup_insert_eq.
        -- rewrite lookup_insert_ne by done. apply Htext.
      * intros s Hs. rewrite lookup_insert_is_Some, Hdom, elem_of_app,
          list_elem_of_singleton by done.
        destruct (decide (x = s)) as [->|Hne]; [split; auto|].
        split; [intros [?|[_ ?]]; [done|by left]|].
        intros [?|?]; [by right|done].
      * rewrite decide_True by (apply Hel, Hplain, Hdom; [done..|eauto]).
        rewrite <-insert_delete_eq.
        rewrite map_to_list_insert by apply lookup_delete_eq.
        rewrite <-(map_to_list_delete m x _ Hmx) in Hsum.
        cbn [sum_list_with] in *. unfold LoadTest.surplus in *. cbn [snd] in *. lia.
    + by destruct Hx; apply Htext.
    + assert (x ∉ xs) as Hxs by (rewrite <-Hdom, Hmx by done; by intros [? ?]).
      split_and!.
      * intros s k. destruct (decide (x = s)) as [->|Hne].
        -- rewrite lookup_insert_eq. intros [= <-]. split; [done|lia].
        -- rewrite lookup_insert_ne by done. apply Hnum.
      * intros s. destruct (decide (x = s)) as [->|Hne].
        -- by rewrite lookup_insert_eq.
        -- rewrite lookup_insert_ne by done. apply Htext.
      * intros s Hs. rewrite lookup_insert_is_Some, Hdom, elem_of_app,
          list_elem_of_singleton by done.
        destruct (decide (x = s)) as [->|Hne]; [split; auto|].
        split; [intros [?|[_ ?]]; [done|by left]|].
        intros [?|?]; [by right|done].
      * rewrite decide_False by (rewrite Hel, Hplain; done).
        rewrite length_app. cbn [length].
        rewrite map_to_list_insert by done.
        cbn [sum_list_with]. unfold LoadTest.surplus at 1. cbn [snd]. lia.
Qed.

Lemma totalDuplicates_sum xs :
  LoadTest.totalDuplicates xs
  = sum_list_with LoadTest.surplus (map_to_list (LoadTest.seatCounts xs)).
Proof.
  unfold LoadTest.totalDuplicates, LoadTest.duplicatedSeats.
  rewrite (foldl_sum (λ entry : string * nat, entry.2 - 1)%nat).
  rewrite Nat.add_0_l.
  induction (map_to_list (LoadTest.seatCounts xs)) as [|[s c] l IH]; [done|].
  csimpl. unfold LoadTest.more_than_one at 1, LoadTest.surplus at 1. cbn [fst snd].
  destruct c as [n|]; [|done].
  case_decide; cbn [sum_list_with snd]; rewrite IH; lia.
Qed.

(** The distinct seat numbers, counted apart for the plain ones and for
    the inherited names. *)
Lemma uniqueSeats_split xs :
  length (LoadTest.uniqueSeats xs)
  = (length (LoadTest.uniqueSeats (LoadTest.plain xs))
     + length (LoadTest.uniqueSeats (LoadTest.inherited xs)))%nat ∧
  length xs = (length (LoadTest.plain xs) + length (LoadTest.inherited xs))%nat.
Proof.
  induction xs as [|x xs [IHu IHl]] using rev_ind; [done|].
  rewrite plain_snoc, inherited_snoc, uniqueSeats_snoc, length_app.
  cbn [length].
  destruct (uniqueSeats_set xs) as (_ & Hel & _ & _).
  destruct (uniqueSeats_set (LoadTest.plain xs)) as (_ & Hel1 & _ & _).
  destruct (uniqueSeats_set (LoadTest.inherited xs)) as (_ & Hel2 & _ & _).
  destruct (decide (x ∈ LoadTest.Object_prototype)) as [Hx|Hx].
  - rewrite uniqueSeats_snoc, length_app. cbn [length]. split; [|lia].
    assert (x ∈ LoadTest.uniqueSeats xs
            ↔ x ∈ LoadTest.uniqueSeats (LoadTest.inherited xs)) as Hiff.
    { rewrite Hel, Hel2. unfold LoadTest.inherited. rewrite list_elem_of_filter.
      tauto. }
    destruct (decide (x ∈ LoadTest.uniqueSeats xs)) as [Hin|Hin].
    + rewrite decide_True by by apply Hiff. done.
    + rewrite decide_False by (by rewrite <-Hiff). rewrite !length_app.
      cbn [length]. lia.
  - rewrite uniqueSeats_snoc, length_app. cbn [length]. split; [|lia].
    assert (x ∈ LoadTest.uniqueSeats xs
            ↔ x ∈ LoadTest.uniqueSeats (LoadTest.plain xs)) as Hiff.
    { rewrite Hel, Hel1. unfold LoadTest.plain. rewrite list_elem_of_filter.
      tauto. }
    destruct (decide (x ∈ LoadTest.uniqueSeats xs)) as [Hin|Hin].
    + rewrite decide_True by by apply Hiff. done.
    + rewrite decide_False by (by rewrite <-Hiff). rewrite !length_app.
      cbn [length]. lia.
Qed.

Lemma duplicates_length xs :
  LoadTest.duplicates xs
  = (length xs - length (LoadTest.uniqueSeats xs))%nat.
Proof.
  unfold LoadTest.duplicates. case_decide; [done|].
  destruct xs; [done|]. simpl in *. lia.
Qed.

Lemma plain_all xs :
  Forall (λ seat, seat ∉ LoadTest.Object_prototype) xs →
  LoadTest.plain xs = xs ∧ LoadTest.inherited xs = [].
Proof.
  intros Hall. split.
  - unfold LoadTest.plain. induction Hall as [|x l Hx _ IH]; [done|].
    by rewrite filter_cons_True, IH.
  - unfold LoadTest.inherited. apply filter_none. intros x Hx.
    by eapply Forall_forall in Hall.
Qed.

(** X24. What the load test counts as duplicate seats.  [seatCounts] is an
    object literal, so a seat number that names a property of
    [Object.prototype] is never counted: the number in "RACE CONDITION
    DETECTED: n users got duplicate seats!" is the number of successful
    responses with a plain seat number minus the distinct plain seat
    numbers, and the list of duplicated seats is empty exactly when the
    plain seat numbers are pairwise different; the [duplicates] that
    [testAutoSeatAssignment] returns counts every seat number, and is the
    printed number plus the duplicates among the inherited names.  When no
    seat number is such a name, as with the seat numbers of the seeded
    flight, the two numbers agree, and they are 0, and the list of
    duplicated seats empty, exactly when the seat numbers are pairwise
    different. *)
Theorem load_test_duplicates seatAssignments :
  let plain := LoadTest.plain seatAssignments in
  let inherited := LoadTest.inherited seatAssignments in
  LoadTest.totalDuplicates seatAssignments
  = (length plain - length (LoadTest.uniqueSeats plain))%nat ∧
  LoadTest.duplicates seatAssignments
  = (LoadTest.totalDuplicates seatAssignments + LoadTest.duplicates inherited)%nat ∧
  (LoadTest.duplicatedSeats seatAssignments = [] ↔ NoDup plain) ∧
  (LoadTest.duplicates seatAssignments = 0%nat ↔ NoDup seatAssignments) ∧
  (Forall (λ seat, seat ∉ LoadTest.Object_prototype) seatAssignments →
   LoadTest.totalDuplicates seatAssignments = LoadTest.duplicates seatAssignments ∧
   (LoadTest.duplicatedSeats seatAssignments = [] ↔ NoDup seatAssignments)).
Proof.
  intros plain inherited. set (xs := seatAssignments) in *.
  destruct (seatCounts_map xs) as (Hnum & _ & _ & Hsum).
  destruct (uniqueSeats_set xs) as (_ & _ & Hle & Hiff).
  destruct (uniqueSeats_set plain) as (_ & _ & Hle1 & Hiff1).
  destruct (uniqueSeats_set inherited) as (_ & _ & Hle2 & _).
  destruct (uniqueSeats_split xs) as [Hu Hl].
  pose proof (totalDuplicates_sum xs) as Htotal.
  fold plain inherited in Hsum, Hu, Hl.
  assert (LoadTest.totalDuplicates xs
          = (length plain - length (LoadTest.uniqueSeats plain))%nat) as Hprinted
    by lia.
  assert (LoadTest.duplicatedSeats xs = [] ↔ NoDup plain) as Hnone.
  { rewrite Hiff1. split.
    - intros Hempty.
      assert (LoadTest.totalDuplicates xs = 0%nat) as H0
        by (unfold LoadTest.totalDuplicates; by rewrite Hempty).
      lia.
    - intros Hlen. unfold LoadTest.duplicatedSeats.
      assert (sum_list_with LoadTest.surplus (map_to_list (LoadTest.seatCounts xs)) = 0%nat)
        as Hzero by lia.
      clear -Hzero.
      induction (map_to_list (LoadTest.seatCounts xs)) as [|[s c] l IH]; [done|].
      cbn [sum_list_with] in Hzero. csimpl.
      unfold LoadTest.more_than_one at 1. unfold LoadTest.surplus at 1 in Hzero.
      cbn [fst snd] in *.
      destruct c as [n|]; [|apply IH; lia].
      rewrite decide_False by lia. apply IH. lia. }
  split_and!.
  - done.
  - rewrite !duplicates_length. lia.
  - done.
  - rewrite duplicates_length, Hiff. lia.
  - intros Hall. destruct (plain_all xs Hall) as [Hp Hi].
    fold plain inherited in Hp, Hi.
    split.
    + rewrite duplicates_length, Hprinted, Hp. done.
    + by rewrite Hnone, Hp.
Qed.

(** Two responses with the seat number "constructor" and one with "10A":
    no duplicated seat is found and nothing is printed, while the value
    returned counts one duplicate. *)
Lemma load_test_misses_inherited_names :
  let seatAssignments := ["constructor"; "constructor"; "10A"] in
  LoadTest.duplicatedSeats seatAssignments = [] ∧
  LoadTest.totalDuplicates seatAssignments = 0%nat ∧
  LoadTest.duplicates seatAssignments = 1%nat ∧
  LoadTest.duplicatedSeats ["10A"; "10B"; "10A"] = [("10A", 2%nat)].
Proof. cbv zeta. split_and!; by vm_compute. Qed.

(** X25. The failure analysis of the load test files every failure of
    the auto-assign endpoints under "Other".  Whatever the other requests
    do, a failed call of the unsafe endpoint is answered with a text that
    contains none of "constraint", "concurrent" and "timeout": the handler
    has replaced the message of the service, "... due to concurrent
    access", by "Seat assignment conflict - please try again".  The same
    holds of the safe endpoint for an unknown PNR and for an empty pool,
    and of the reply to a request without PNR. *)
Theorem load_test_files_failures_under_other client_message :
  (∀ p fid env db e,
     (run_env (body_of (selectNextAvailableSeatUnsafe p fid)) env db).1 = inl e →
     LoadTest.errorType
       (LoadTest.failure_text (auto_assign_unsafe_reply (inl e)) client_message)
     = LoadTest.Other) ∧
  (∀ e, e = InvalidPNR ∨ e = NoSeatsOrLocked →
     LoadTest.errorType
       (LoadTest.failure_text (auto_assign_safe_reply (inl e)) client_message)
     = LoadTest.Other) ∧
  LoadTest.errorType
    (LoadTest.failure_text (status_json 400 (ErrorBody "PNR is required"))
       client_message)
  = LoadTest.Other ∧
  LoadTest.errorType (message AllAttemptsFailed) = LoadTest.ConcurrentAccess.
Proof.
  split_and!.
  - intros p fid env db e Hrun.
    destruct (run_env _ env db) as [r db'] eqn:Hrun'. cbn [fst] in Hrun.
    subst r. apply unsafe_errors in Hrun' as [->|[->| ->]]; by vm_compute.
  - intros e [->| ->]; by vm_compute.
  - by vm_compute.
  - by vm_compute.
Qed.

(** ** Concurrent first check-ins under the safe policy *)

(** A statement of a transaction is its COMMIT, which puts its writes in
    the store, or it leaves the store as it is and the transaction
    unresolved. *)
Lemma tx_step_cases {A} fl fc db (t : Tx A) db' th :
  tx_step fl fc db t = Some (db', th) →
  (db' = db ∧ success_of th = None) ∨
  (∃ a, code t = Ret a ∧ th = Finished (inr a) ∧ db' = view db (writes t)).
Proof.
  unfold tx_step. destruct (code t); intros Hstep;
    repeat (case_match || case_decide); simplify_eq; eauto.
Qed.

Lemma thread_at_commits p fid f st t a :
  Running t = thread_at p fid f st → code t = Ret a →
  ∃ seat, st = Committing seat ∧
          writes t = [WSeat (seat_id seat) None false;
                      WBooking p (Some (seat_id seat)) true].
Proof.
  destruct st; intros Ht Hc; simplify_eq/=. eauto.
Qed.

Section first_checkins.
Context (reqs : list (string * option Z)) (f : Z) (M : nat).
Context (Hdistinct : NoDup reqs.*1).

Lemma first_checkins_step σ stg i :
  at_stages reqs f (threads σ) stg → inv reqs f M (store σ) stg →
  first_checkins reqs σ →
  first_checkins reqs (default σ (step i σ)).
Proof.
  intros Hat Hinv [Hfb Hub]. unfold step.
  destruct (threads σ !! i) as [[t|r]|] eqn:Hth; [|done..].
  destruct (tx_step _ _ (store σ) t) as [[db' th']|] eqn:Hstep; [|done].
  unfold default, id.
  destruct (at_stages_lookup _ _ _ _ _ _ Hat Hth) as ([p fid] & st & Hr & Hst & Heq).
  cbn [fst snd] in Heq.
  apply tx_step_cases in Hstep
    as [[-> Hnone]|(a & Hcode & -> & ->)].
  - split; cbn [store threads]; [done|].
    intros j rj th Hrj Hj Hs. destruct (decide (j = i)) as [->|Hne].
    + rewrite Hr in Hrj. injection Hrj as <-.
      exact (Hub i (p, fid) (Running t) Hr Hth eq_refl).
    + rewrite list_lookup_insert_ne in Hj by done. by eapply Hub.
  - destruct (thread_at_commits _ _ _ _ _ _ Heq Hcode) as (seat & -> & Hw).
    rewrite Hw. cbn [view foldl apply_write].
    destruct (Hub i (p, fid) (Running t) Hr Hth eq_refl) as (b & Hb & Hnone).
    cbn [fst] in Hb.
    pose proof (inv_pnr_key _ _ _ _ _ Hinv) as Hpnr.
    split; cbn [store threads].
    + rewrite seats_after_checkin. apply Forall_fmap, Forall_forall.
      intros s Hs. unfold compose.
      eapply Forall_forall in Hfb; [|exact Hs].
      destruct (decide (seat_matches (seat_id seat) None s)) as [Hm|Hm];
        rewrite seat_matches_id in Hm.
      * intros _. simpl. rewrite Hm.
        unfold bound, booking_write, with_bookings. cbn [bookings].
        rewrite Exists_fmap. apply Exists_exists. exists b.
        apply booking_findUnique_pnr in Hb as [Hp Hin]. split; [done|].
        simpl. by rewrite decide_True.
      * intros Hav. apply Hfb in Hav.
        apply Exists_exists in Hav as (b0 & Hb0 & Hsid).
        unfold bound, booking_write, with_bookings. cbn [bookings].
        rewrite Exists_fmap. apply Exists_exists. exists b0. split; [done|].
        simpl. rewrite decide_False; [done|]. intros Hp0.
        apply booking_findUnique_pnr in Hb as [Hp Hin].
        assert (b0 = b) as ->
          by (apply (NoDup_fmap_eq pnr (bookings (store σ))); [done..|congruence]).
        congruence.
    + intros j rj th Hrj Hj Hs. destruct (decide (j = i)) as [->|Hne].
      * rewrite list_lookup_insert_eq in Hj by (by eapply lookup_lt_Some).
        by simplify_eq.
      * rewrite list_lookup_insert_ne in Hj by done.
        destruct (Hub j rj th Hrj Hj Hs) as (bj & Hbj & Hnj).
        exists bj. split; [|done].
        rewrite booking_findUnique_other; [done|].
        intros Heq'. apply Hne.
        apply (NoDup_lookup (reqs.*1) j i rj.1); [done|..].
        -- by rewrite list_lookup_fmap, Hrj.
        -- by rewrite list_lookup_fmap, Hr, <-Heq'.
Qed.

Lemma first_checkins_run sched : ∀ σ stg,
  at_stages reqs f (threads σ) stg → inv reqs f M (store σ) stg →
  first_checkins reqs σ →
  ∃ stg', inv reqs f M (store (run_schedule sched σ)) stg' ∧
          first_checkins reqs (run_schedule sched σ).
Proof.
  induction sched as [|k sched IH]; intros σ stg Hat Hinv Hfc; [eauto|].
  rewrite run_schedule_cons.
  destruct (step_safe reqs f M Hdistinct σ stg k Hat Hinv)
    as (stg1 & Hat1 & Hinv1 & _ & _).
  apply (IH _ stg1 Hat1 Hinv1). by eapply first_checkins_step.
Qed.

End first_checkins.

(** X26. Concurrent first check-ins under the safe policy keep the
    invariant of the design.  For calls of the safe policy by pairwise
    different, known requesters who have no seat, all drawing from the pool
    of one flight, on a store with unique seat ids and PNRs that satisfies
    the invariant: at every point of every interleaving of their
    statements the committed store satisfies the invariant again, at most
    one booking per seat and a seat flagged unavailable exactly when a
    booking references it, and the keys. *)
Theorem safe_first_checkins_keep_invariant reqs db f sched :
  NoDup reqs.*1 →
  Forall (λ r, target_flight db r = Some f) reqs →
  Forall (λ r, booking_findUnique r.1 db ≫= seatId = None) reqs →
  seats_pkey db → bookings_pnr_key db → state_invariant db →
  let σ := run_schedule sched (safe_calls reqs db) in
  state_invariant (store σ) ∧ seats_pkey (store σ) ∧
  bookings_pnr_key (store σ).
Proof.
  intros Hdistinct Hknown Hnoseat Hpk Hpnr [Hkey Hiff] σ.
  assert (bound_seats_unavailable db) as Hbd
    by (by apply invariant_bound_seats_unavailable).
  pose proof (at_stages_start reqs f db) as Hat.
  pose proof (inv_start reqs f _ db Hpk Hpnr Hkey Hbd Hknown eq_refl) as Hinv.
  assert (first_checkins reqs (safe_calls reqs db)) as Hfc.
  { split.
    - unfold safe_calls, start. cbn [store].
      eapply Forall_impl; [exact Hiff|]. intros s Hs. apply Hs.
    - intros i r th Hr _ _. unfold safe_calls, start. cbn [store].
      eapply Forall_forall in Hknown;
        [|by eapply list_elem_of_lookup_2].
      eapply Forall_forall in Hnoseat;
        [|by eapply list_elem_of_lookup_2].
      unfold target_flight in Hknown.
      destruct (booking_findUnique r.1 db) as [b|]; [|done]. eauto. }
  destruct (first_checkins_run reqs f _ Hdistinct sched _ _ Hat Hinv Hfc)
    as (stg & Hinv' & [Hfb _]).
  fold σ in Hinv', Hfb.
  split_and!.
  - split; [exact (inv_seatId_key _ _ _ _ _ Hinv')|].
    pose proof (inv_bound _ _ _ _ _ Hinv') as Hbd'.
    unfold bound_seats_unavailable in Hbd'.
    apply Forall_forall. intros s Hs.
    eapply Forall_forall in Hfb; [|exact Hs].
    eapply Forall_forall in Hbd'; [|exact Hs]. by split.
  - exact (inv_pkey _ _ _ _ _ Hinv').
  - exact (inv_pnr_key _ _ _ _ _ Hinv').
Qed.

(** Three first check-ins on the sample store, their statements taking
    turns, stopped after four rounds. *)
Lemma safe_first_checkins_keep_invariant_witness :
  let reqs := [("PNR001", None); ("PNR002", None); ("PNR003", None)] in
  let σ := run_schedule (round_robin 4 3) (safe_calls reqs Sample.db0) in
  (NoDup reqs.*1 ∧
   Forall (λ r, target_flight Sample.db0 r = Some 1) reqs ∧
   Forall (λ r, booking_findUnique r.1 Sample.db0 ≫= seatId = None) reqs ∧
   seats_pkey Sample.db0 ∧ bookings_pnr_key Sample.db0 ∧
   state_invariant Sample.db0) ∧
  state_invariant (store σ) ∧ seats_pkey (store σ) ∧
  bookings_pnr_key (store σ).
Proof.
  cbv zeta.
  assert (NoDup [("PNR001", @None Z); ("PNR002", None); ("PNR003", None)].*1)
    as Hd by (apply (bool_decide_eq_true_1 _); by vm_compute).
  assert (Forall (λ r, target_flight Sample.db0 r = Some 1)
            [("PNR001", None); ("PNR002", None); ("PNR003", None)]) as Hknown
    by (apply (bool_decide_eq_true_1 _); by vm_compute).
  assert (Forall (λ r, booking_findUnique r.1 Sample.db0 ≫= seatId = None)
            [("PNR001", @None Z); ("PNR002", None); ("PNR003", None)])
    as Hnoseat by (apply (bool_decide_eq_true_1 _); by vm_compute).
  assert (seats_pkey Sample.db0) as Hpk
    by (apply (bool_decide_eq_true_1 _); by vm_compute).
  assert (bookings_pnr_key Sample.db0) as Hpnr
    by (apply (bool_decide_eq_true_1 _); by vm_compute).
  assert (state_invariant Sample.db0) as Hinv
    by (apply (bool_decide_eq_true_1 _); by vm_compute).
  split; [done|].
  exact (safe_first_checkins_keep_invariant
           [("PNR001", None); ("PNR002", None); ("PNR003", None)]
           Sample.db0 1 (round_robin 4 3) Hd Hknown Hnoseat Hpk Hpnr Hinv).
Defined.

(** ** How long a call runs *)

Lemma ends_within_le {A} (c : Prog A) n m :
  ends_within n c → (n ≤ m)%nat → ends_within m c.
Proof.
  intros Hc. revert m. induction Hc as [| |n q k _ IH|n fid m' k _ IH|n id k _ IH
    |n fid k _ IH|n k _ IH|n id g a k _ IH|n q sid ci k _ IH|n a k _ IH
    |n ci k _ IH|n k _ IH|n fn k _ IH]; intros m Hle;
    try constructor;
    (destruct m as [|m]; [lia|]); constructor; intros; apply IH; (done || lia).
Qed.

Lemma for_seats_ends_within p cands : ∀ i,
  ends_within (4 * length cands) (for_seats p i cands).
Proof.
  induction cands as [|seat rest IH]; intros i; [constructor|].
  replace (4 * length (seat :: rest))%nat
    with (S (S (S (S (4 * length rest))))) by (simpl; lia).
  cbn. constructor. intros []. constructor. intros seatCheck.
  destruct (not_available seatCheck); cbn.
  { eapply ends_within_le; [apply IH|lia]. }
  constructor. intros [e|[]]; cbn.
  { eapply ends_within_le; [apply IH|lia]. }
  constructor. intros [e|[]]; cbn; [apply IH|constructor].
Qed.

Lemma unsafe_ends_within p fid :
  ends_within 22 (body_of (selectNextAvailableSeatUnsafe p fid)).
Proof.
  cbn. constructor. intros [b|]; cbn; [|constructor].
  constructor. intros cands Hlen.
  case_decide; cbn; [constructor|].
  eapply ends_within_le; [apply for_seats_ends_within|lia].
Qed.

Lemma safe_ends_within p fid :
  ends_within 5 (body_of (selectNextAvailableSeatSafe p fid)).
Proof.
  cbn. constructor. intros [b|]; cbn; [|constructor].
  constructor. intros [|seat rest]; cbn; [constructor|].
  constructor. intros []. constructor. intros [e|[]]; cbn; [constructor|].
  constructor. intros [e|[]]; cbn; constructor.
Qed.

(** A statement takes one off what is left. *)
Lemma stmt_ends_within {A} (c c' : Prog A) n db db' :
  ends_within n c → Auto.stmt c db = Some (c', db') →
  ends_within (pred n) c'.
Proof.
  intros Hc. destruct Hc as [| |n q k Hk|n fid m k Hk|n id k Hk
    |n fid k Hk|n k Hk|n id g a k Hk|n q sid ci k Hk|n a k Hk
    |n ci k Hk|n k Hk|n fn k Hk]; cbn [Auto.stmt pred]; intros Hst;
    simplify_eq; try apply Hk.
  - unfold seat_findMany. rewrite length_take. lia.
  - destruct (seat_update id g a db); simplify_eq; apply Hk.
  - destruct (booking_update q sid ci db); simplify_eq; apply Hk.
Qed.

Lemma ends_within_0 {A} (c : Prog A) :
  ends_within 0 c → is_Some (Auto.result_of c).
Proof. inversion 1; by eexists. Qed.

Lemma ended_ends_within {A} (c : Prog A) db n :
  Auto.stmt c db = None → ends_within n c.
Proof.
  destruct c; cbn [Auto.stmt]; intros Hst; try done; try constructor;
    by repeat case_match.
Qed.

Lemma auto_step_ends_within {A} (σ : Auto.Sys A) (bound : nat → nat) k :
  (∀ i c, Auto.threads σ !! i = Some c → ends_within (bound i) c) →
  ∀ i c, Auto.threads (Auto.step k σ) !! i = Some c →
         ends_within (if decide (i = k) then pred (bound i) else bound i) c.
Proof.
  intros Hb i c. unfold Auto.step.
  destruct (Auto.threads σ !! k) as [ck|] eqn:Hk.
  2:{ intros Hc. case_decide as Hik; [|by apply Hb]. subst. congruence. }
  destruct (Auto.stmt ck (Auto.store σ)) as [[c' db']|] eqn:Hst;
    cbn [Auto.threads].
  - destruct (decide (i = k)) as [->|Hne].
    + rewrite list_lookup_insert_eq by (by eapply lookup_lt_Some).
      intros ?; simplify_eq. eapply stmt_ends_within; [|done]. by apply Hb.
    + rewrite list_lookup_insert_ne by done. apply Hb.
  - intros Hc. destruct (decide (i = k)) as [->|Hne]; [|by apply Hb].
    rewrite Hk in Hc. simplify_eq. by eapply ended_ends_within.
Qed.

Lemma auto_run_ends_within {A} sched : ∀ (σ : Auto.Sys A) (bound : nat → nat),
  (∀ i c, Auto.threads σ !! i = Some c → ends_within (bound i) c) →
  ∀ i c, Auto.threads (Auto.run_schedule sched σ) !! i = Some c →
         ends_within (bound i - length (filter (λ j, j = i) sched)) c.
Proof.
  induction sched as [|k sched IH]; intros σ bound Hb i c Hc.
  { rewrite Nat.sub_0_r. by apply Hb. }
  cbn [Auto.run_schedule foldl] in Hc.
  pose proof (IH (Auto.step k σ)
    (λ i, if decide (i = k) then pred (bound i) else bound i)
    (auto_step_ends_within σ bound k Hb) i c Hc) as Hend.
  eapply ends_within_le; [exact Hend|].
  rewrite filter_cons. case_decide as Hki.
  - subst. rewrite decide_True by done. simpl. lia.
  - rewrite decide_False by done. lia.
Qed.

Lemma auto_length_step {A} (σ : Auto.Sys A) k :
  length (Auto.threads (Auto.step k σ)) = length (Auto.threads σ).
Proof.
  unfold Auto.step. destruct (Auto.threads σ !! k); [|done].
  destruct (Auto.stmt _ _) as [[? ?]|]; [|done]. apply length_insert.
Qed.

Lemma auto_length_run {A} sched : ∀ (σ : Auto.Sys A),
  length (Auto.threads (Auto.run_schedule sched σ)) = length (Auto.threads σ).
Proof.
  induction sched as [|k sched IH]; intros σ; [done|].
  cbn [Auto.run_schedule foldl].
  rewrite <-(auto_length_step σ k). apply IH.
Qed.

(** X27. A call of the unsafe policy makes at most 22 calls to the
    database, two to start with and four for each of at most five
    candidates, and a call of the safe policy at most 5, whatever they
    resolve to.  No call of the unsafe policy ever waits for another: in
    every interleaving of any number of them that lets each run 22
    statements, every call has returned or thrown. *)
Theorem unsafe_calls_end reqs db sched :
  names_each 22 (length reqs) sched →
  (∀ p fid, ends_within 22 (body_of (selectNextAvailableSeatUnsafe p fid))) ∧
  (∀ p fid, ends_within 5 (body_of (selectNextAvailableSeatSafe p fid))) ∧
  all_ended (Auto.run_schedule sched (Auto.unsafe_calls reqs db)).
Proof.
  intros Hsched. split; [apply unsafe_ends_within|].
  split; [apply safe_ends_within|].
  apply Forall_forall. intros c Hc.
  apply list_elem_of_lookup in Hc as [i Hi].
  assert (i < length reqs)%nat as Hlt.
  { apply lookup_lt_Some in Hi. rewrite auto_length_run in Hi.
    unfold Auto.unsafe_calls, Auto.start in Hi. cbn in Hi.
    by rewrite length_fmap in Hi. }
  pose proof (auto_run_ends_within sched (Auto.unsafe_calls reqs db)
    (λ _, 22%nat)) as Hend.
  apply ends_within_0.
  unfold names_each in Hsched.
  eapply Forall_forall in Hsched; [|apply elem_of_seq; split; [lia|exact Hlt]].
  eapply ends_within_le; [apply (Hend)|].
  - intros j cj Hj. unfold Auto.unsafe_calls, Auto.start in Hj. cbn in Hj.
    apply list_lookup_fmap_Some in Hj as (r & -> & _).
    apply unsafe_ends_within.
  - exact Hi.
  - simpl in *. lia.
Qed.

(** Two calls on two seats, taking turns. *)
Lemma unsafe_calls_end_witness :
  let reqs := [("PNR001", None); ("PNR002", None)] in
  let sched := round_robin 22 2 in
  names_each 22 (length reqs) sched ∧
  (∀ p fid, ends_within 22 (body_of (selectNextAvailableSeatUnsafe p fid))) ∧
  (∀ p fid, ends_within 5 (body_of (selectNextAvailableSeatSafe p fid))) ∧
  all_ended (Auto.run_schedule sched (Auto.unsafe_calls reqs Sample.db_two)).
Proof.
  cbv zeta.
  assert (names_each 22 (length [("PNR001", @None Z); ("PNR002", None)])
            (round_robin 22 2)) as Hs
    by (apply (bool_decide_eq_true_1 _); by vm_compute).
  split; [done|].
  exact (unsafe_calls_end [("PNR001", None); ("PNR002", None)] Sample.db_two
           (round_robin 22 2) Hs).
Defined.

(** ** The flags under interleaved calls of the unsafe policy *)

Lemma for_seats_binds_flagged p cands : ∀ i flagged,
  binds_flagged flagged (for_seats p i cands).
Proof.
  induction cands as [|seat rest IH]; intros i flagged; [constructor|].
  cbn. constructor. intros []. constructor. intros seatCheck.
  destruct (not_available seatCheck); cbn; [apply IH|].
  constructor; [intros e; cbn; apply IH|]. cbn.
  constructor; [left|]. intros [e|[]]; cbn; [apply IH|].
  constructor. cbn. left.
Qed.

Lemma unsafe_binds_flagged p fid :
  binds_flagged [] (body_of (selectNextAvailableSeatUnsafe p fid)).
Proof.
  cbn. constructor. intros [b|]; cbn; [|constructor].
  constructor. intros cands.
  case_decide; cbn; [constructor|apply for_seats_binds_flagged].
Qed.

Lemma bound_booking_write p x ci db y :
  bound y (booking_write p (Some x) ci db) → y = x ∨ bound y db.
Proof.
  unfold bound, booking_write, with_bookings. cbn [bookings].
  rewrite Exists_fmap. intros (b & Hb & Hy)%Exists_exists. simpl in Hy.
  case_decide; simplify_eq/=; [by left|].
  right. apply Exists_exists. eauto.
Qed.

Lemma flags_kept_start reqs db :
  bound_seats_unavailable db → flags_kept db (Auto.unsafe_calls reqs db).
Proof.
  intros Hbd. split; [exact (flags_cleared_refl db)|done|].
  intros i c Hc. unfold Auto.unsafe_calls, Auto.start in Hc. cbn in Hc.
  apply list_lookup_fmap_Some in Hc as (r & -> & _).
  exists []. split; [apply unsafe_binds_flagged|constructor].
Qed.

Lemma flags_kept_step db σ i :
  flags_kept db σ → flags_kept db (Auto.step i σ).
Proof.
  intros [Hfc Hbd Hth]. unfold Auto.step.
  destruct (Auto.threads σ !! i) as [c|] eqn:Hc; [|done].
  destruct (Auto.stmt c (Auto.store σ)) as [[c' db']|] eqn:Hst; [|done].
  destruct (Hth i c Hc) as (fl & Hbf & Hfl).
  (* a statement that leaves the store alone *)
  assert (∀ c0, binds_flagged fl c0 →
    flags_kept db (Auto.mkSys (Auto.store σ) (<[i:=c0]> (Auto.threads σ))))
    as Hread.
  { intros c0 Hc0. split; cbn [Auto.store Auto.threads]; [done..|].
    intros j cj Hj. destruct (decide (j = i)) as [->|Hne].
    - rewrite list_lookup_insert_eq in Hj by (by eapply lookup_lt_Some).
      simplify_eq. eauto.
    - rewrite list_lookup_insert_ne in Hj by done. exact (Hth j cj Hj). }
  inversion Hbf as [? a Ha|? e|? q k Hk|? fid n k Hk|? id k Hk|? fid k Hk|? k Hk
                   |? id k Hke Hks|? q s ci k Hs Hk|? k Hk|? fn k Hk];
    subst; cbn [Auto.stmt] in Hst; simplify_eq; try (apply Hread, Hk).
  - destruct (seat_update id (Some true) false (Auto.store σ)) as [e|db1] eqn:Hu;
      simplify_eq; [apply Hread, Hke|].
    apply seat_update_inv in Hu as [-> _].
    pose proof (flags_cleared_seat_write id (Some true) (Auto.store σ)) as Hstep.
    split; cbn [Auto.store Auto.threads].
    + by eapply flags_cleared_trans.
    + unfold bound_seats_unavailable in *.
      unfold seat_write at 2, with_seats. cbn [seats].
      apply Forall_fmap, Forall_forall. intros s Hs Hb. unfold compose.
      eapply Forall_forall in Hbd; [|exact Hs].
      case_decide; [done|]. by apply Hbd.
    + intros j cj Hj. destruct (decide (j = i)) as [->|Hne].
      * rewrite list_lookup_insert_eq in Hj by (by eapply lookup_lt_Some).
        simplify_eq. exists (id :: fl). split; [done|].
        constructor; [apply seat_write_all_unavailable|].
        eapply Forall_impl; [exact Hfl|]. intros id'.
        by apply flags_cleared_all_unavailable.
      * rewrite list_lookup_insert_ne in Hj by done.
        destruct (Hth j cj Hj) as (flj & Hbfj & Hflj).
        exists flj. split; [done|].
        eapply Forall_impl; [exact Hflj|]. intros id'.
        by apply flags_cleared_all_unavailable.
  - destruct (booking_update q (Some s) ci (Auto.store σ)) as [e|db1] eqn:Hu;
      simplify_eq; [apply Hread, Hk|].
    apply booking_update_inv in Hu as (-> & _ & _).
    split; cbn [Auto.store Auto.threads].
    + exact Hfc.
    + unfold bound_seats_unavailable in *. rewrite seats_booking_write.
      apply Forall_forall. intros x Hx [Heq|Hb]%bound_booking_write.
      * eapply Forall_forall in Hfl; [|exact Hs].
        unfold all_unavailable in Hfl.
        eapply Forall_forall in Hfl; [|exact Hx]. by apply Hfl.
      * eapply Forall_forall in Hbd; [|exact Hx]. by apply Hbd.
    + intros j cj Hj. destruct (decide (j = i)) as [->|Hne].
      * rewrite list_lookup_insert_eq in Hj by (by eapply lookup_lt_Some).
        simplify_eq. exists fl. split; [apply Hk|done].
      * rewrite list_lookup_insert_ne in Hj by done. exact (Hth j cj Hj).
Qed.

Lemma flags_kept_run db sched : ∀ σ,
  flags_kept db σ → flags_kept db (Auto.run_schedule sched σ).
Proof.
  induction sched as [|i sched IH]; intros σ Hk; [done|].
  apply IH, flags_kept_step, Hk.
Qed.

(** X28. Under interleaved calls of the unsafe policy a seat that a
    booking references stays flagged.  For any number of concurrent calls
    of the unsafe policy, whoever the requesters, on a store whose bound
    seats are flagged unavailable, at every point of every interleaving of
    their statements: no seat has been added, removed or made available,
    flags have only been cleared; every seat that a booking references is
    flagged unavailable, so that no later query offers it; and the seat of
    every call that has returned is flagged unavailable. *)
Theorem unsafe_calls_keep_bound_seats_flagged reqs db sched :
  bound_seats_unavailable db →
  let σ := Auto.run_schedule sched (Auto.unsafe_calls reqs db) in
  flags_cleared db (Auto.store σ) ∧
  bound_seats_unavailable (Auto.store σ) ∧
  Forall (λ a, all_unavailable (a_seatId a) (Auto.store σ)) (Auto.successes σ).
Proof.
  intros Hbd σ.
  destruct (flags_kept_run db sched _ (flags_kept_start reqs db Hbd))
    as [Hfc Hbd' Hth].
  fold σ in Hfc, Hbd', Hth. split_and!; [done..|].
  apply Forall_forall. intros a (c & Hc & Ha)%list_elem_of_omap.
  apply list_elem_of_lookup in Hc as [i Hi].
  destruct (Hth i c Hi) as (fl & Hbf & Hfl).
  destruct c; simplify_eq/=. inversion Hbf; subst.
  by eapply Forall_forall in Hfl.
Qed.

(** Both bookings ask twice, all four calls taking turns on the two
    seats. *)
Lemma unsafe_calls_keep_bound_seats_flagged_witness :
  let reqs := [("PNR001", None); ("PNR002", None);
               ("PNR001", None); ("PNR002", None)] in
  let σ := Auto.run_schedule (round_robin 12 4)
             (Auto.unsafe_calls reqs Sample.db_two) in
  bound_seats_unavailable Sample.db_two ∧
  flags_cleared Sample.db_two (Auto.store σ) ∧
  bound_seats_unavailable (Auto.store σ) ∧
  Forall (λ a, all_unavailable (a_seatId a) (Auto.store σ)) (Auto.successes σ).
Proof.
  cbv zeta.
  assert (bound_seats_unavailable Sample.db_two) as Hbd
    by (apply (bool_decide_eq_true_1 _); by vm_compute).
  split; [done|].
  exact (unsafe_calls_keep_bound_seats_flagged
           [("PNR001", None); ("PNR002", None);
            ("PNR001", None); ("PNR002", None)]
           Sample.db_two (round_robin 12 4) Hbd).
Defined.

(** * Either policy run alone: the order of allocation and the pool
    selector *)

(** ** Order of allocation under both policies *)







(** ** The pool selector *)

(** C10. Neither policy checks the flight selector against the booking.
    For a known requester and a selector that fits the column, on a store
    with unique seat ids whose bound seats are flagged, a call run alone
    draws from the pool of [flightId || booking.flightId]: the flight
    passed in when it is truthy, whatever flight the booking is on and
    whether or not a flight has that id, and the booking's own flight when
    the selector is absent or 0.  The call fails as pool exhausted when
    that pool is empty and is otherwise bound to its first seat, a seat of
    that flight; the booking then references the seat and keeps its own
    [flightId]. *)
Theorem flight_selector_not_validated m p fid b db :
  let pool := or_else fid (booking_flightId b) in
  seats_pkey db → bound_seats_unavailable db → fits fid →
  booking_findUnique p db = Some b →
  (∀ f, fid = Some f → f ≠ 0 → pool = f) ∧
  (fid = None ∨ fid = Some 0 → pool = booking_flightId b) ∧
  match available_seats pool db with
  | [] => exec (select m p fid) db = (inl (pool_exhausted m), db)
  | seat :: _ =>
      let db' := booking_write p (Some (seat_id seat)) true
                   (seat_write (seat_id seat) None false db) in
      exec (select m p fid) db = (inr (assignment_of m seat), db') ∧
      seat ∈ seats db ∧ seat_flightId seat = pool ∧ isAvailable seat = true ∧
      booking_findUnique p db' =
        Some (mkBooking p (booking_flightId b) (Some (seat_id seat)) true) ∧
      flights db' = flights db
  end.
Proof.
  intros pool Hpk Hbd _ Hb.
  destruct (or_else_cases fid (booking_flightId b)) as [Htruthy Hfalsy].
  split_and!; [done..|].
  rewrite (exec_alone m p fid db Hpk Hbd), Hb. fold pool.
  destruct (available_seats pool db) as [|seat w] eqn:Hw; [done|].
  assert (seat ∈ seats db ∧ open_on pool seat) as [Hin [Hfl Hav]].
  { apply elem_of_available_seats. rewrite Hw. left. }
  cbv zeta. split_and!; try done.
  rewrite (booking_findUnique_bound p (Some (seat_id seat)) true
             (seat_write (seat_id seat) None false db) b).
  - by apply booking_findUnique_pnr in Hb as [<- _].
  - by rewrite booking_findUnique_seat_write.
Qed.

(** PNR001 is booked on flight 1.  With the selector 2 either policy binds
    it seat 10A of flight 2; with the selector 0 it is given seat 10A of
    its own flight. *)
Lemma flight_selector_not_validated_witness :
  let db := Sample.db0 in
  let b := mkBooking "PNR001" 1 None false in
  let instance := λ m (fid : option Z),
    let pool := or_else fid (booking_flightId b) in
    (seats_pkey db ∧ bound_seats_unavailable db ∧ fits fid ∧
     booking_findUnique "PNR001" db = Some b) ∧
    (∀ f, fid = Some f → f ≠ 0 → pool = f) ∧
    (fid = None ∨ fid = Some 0 → pool = booking_flightId b) ∧
    match available_seats pool db with
    | [] => exec (select m "PNR001" fid) db = (inl (pool_exhausted m), db)
    | seat :: _ =>
        let db' := booking_write "PNR001" (Some (seat_id seat)) true
                     (seat_write (seat_id seat) None false db) in
        exec (select m "PNR001" fid) db = (inr (assignment_of m seat), db') ∧
        seat ∈ seats db ∧ seat_flightId seat = pool ∧
        isAvailable seat = true ∧
        booking_findUnique "PNR001" db' =
          Some (mkBooking "PNR001" (booking_flightId b) (Some (seat_id seat))
                  true) ∧
        flights db' = flights db
    end in
  instance unsafe (Some 2) ∧ instance safe (Some 2) ∧
  instance unsafe (Some 0) ∧ instance safe None ∧
  (exec (select unsafe "PNR001" (Some 2)) db).1 =
    inr (mkAssignment "10A" 4 unsafe (Some 1%nat)) ∧
  (exec (select safe "PNR001" (Some 0)) db).1 =
    inr (mkAssignment "10A" 1 safe None).
Proof.
  cbv zeta.
  assert (seats_pkey Sample.db0) as Hpk
    by (apply (bool_decide_eq_true_1 _); by vm_compute).
  assert (bound_seats_unavailable Sample.db0) as Hbd
    by (apply (bool_decide_eq_true_1 _); by vm_compute).
  assert (∀ fid, fits fid →
    seats_pkey Sample.db0 ∧ bound_seats_unavailable Sample.db0 ∧ fits fid ∧
    booking_findUnique "PNR001" Sample.db0
    = Some (mkBooking "PNR001" 1 None false)) as Hyps by done.
  assert (fits (Some 2)) as H2 by (apply (bool_decide_eq_true_1 _); by vm_compute).
  assert (fits (Some 0)) as H0 by (apply (bool_decide_eq_true_1 _); by vm_compute).
  split; [split; [by apply Hyps|]|split; [split; [by apply Hyps|]|
    split; [split; [by apply Hyps|]|split; [split; [by apply Hyps|]|
    split; by vm_compute]]]].
  - exact (flight_selector_not_validated unsafe "PNR001" (Some 2)
             (mkBooking "PNR001" 1 None false) Sample.db0 Hpk Hbd H2 eq_refl).
  - exact (flight_selector_not_validated safe "PNR001" (Some 2)
             (mkBooking "PNR001" 1 None false) Sample.db0 Hpk Hbd H2 eq_refl).
  - exact (flight_selector_not_validated unsafe "PNR001" (Some 0)
             (mkBooking "PNR001" 1 None false) Sample.db0 Hpk Hbd H0 eq_refl).
  - exact (flight_selector_not_validated safe "PNR001" None
             (mkBooking "PNR001" 1 None false) Sample.db0 Hpk Hbd I eq_refl).
Defined.
